(** * Issue tracker / blog server: storage layer and routes

    A shallow embedding of [server/storage.ts] (the two [IStorage]
    implementations, [MemStorage] and [DatabaseStorage], with their
    markdown front-matter parsers) and of the request handlers of
    [server/routes.ts], followed by the properties of the repository's
    specification that concern them.

    Conventions.
    - A JavaScript string is the list of its UTF-16 code units ([N]).
    - [String.prototype.toLowerCase] is a runtime builtin over the whole of
      Unicode; the handlers take it as a parameter.
    - The schema module ([@shared/schema]) is not among the sources: the row
      types are modelled from the way [storage.ts] builds and reads them,
      and body validation ([insertPostSchema.parse]) is a parameter.
    - Database, file system and clock are explicit parts of the state or
      explicit arguments. The calls of the database are assumed to
      complete. The file system is a tree of directories and files under
      the rules of a Linux system (names compared byte by byte, at most 255
      bytes each, a path below 4096 bytes, no links, every directory open
      to the server): a call
      that the system refuses throws, and the state shows what was done
      before it.
    - Path parameters are taken after [parseInt], as integers. *)

From Stdlib Require Import ZArith NArith Ascii String List Lia Bool.
From stdpp Require Import base option list gmap.
From stdpp Require Import sorting.

Open Scope N_scope.

(** ** JavaScript strings *)

Definition str (s : string) : list N :=
  List.map N_of_ascii (list_ascii_of_string s).

Arguments str : simpl never.

Definition NL : N := 10.
Definition HYPHEN : N := 45.
Definition COLON : N := 58.
Definition COMMA : N := 44.
Definition AT : N := 64.
Definition DOT : N := 46.
Definition SLASH : N := 47.

(** [\s] of a regular expression, which is also the set [trim] strips:
    WhiteSpace and LineTerminator of ECMA-262. *)
Definition isSpace (c : N) : bool :=
  ((9 <=? c) && (c <=? 13)) || (c =? 32) || (c =? 0xA0) || (c =? 0x1680)
  || ((0x2000 <=? c) && (c <=? 0x200A)) || (c =? 0x2028) || (c =? 0x2029)
  || (c =? 0x202F) || (c =? 0x205F) || (c =? 0x3000) || (c =? 0xFEFF).

(** [\w] without the [u] and [i] flags: [A-Za-z0-9_]. *)
Definition isWord (c : N) : bool :=
  ((48 <=? c) && (c <=? 57)) || ((65 <=? c) && (c <=? 90)) || (c =? 95)
  || ((97 <=? c) && (c <=? 122)).

(** LineTerminator: what [.] refuses and what [^] and [$] look at under the
    [m] flag. *)
Definition isLineTerminator (c : N) : bool :=
  (c =? 10) || (c =? 13) || (c =? 0x2028) || (c =? 0x2029).

Definition eqs (a b : list N) : bool := bool_decide (a = b).

(** The two halves of a surrogate pair. *)
Definition isHighSurrogate (c : N) : bool := (0xD800 <=? c) && (c <=? 0xDBFF).
Definition isLowSurrogate (c : N) : bool := (0xDC00 <=? c) && (c <=? 0xDFFF).

(** [s.toWellFormed()]: a surrogate that is not half of a pair becomes
    U+FFFD. It is the string that comes back from the bytes of [s] in
    UTF-8, which is how a string leaves the process. *)
Fixpoint toWellFormed (s : list N) : list N :=
  match s with
  | [] => []
  | c :: s' =>
      if isHighSurrogate c then
        match s' with
        | d :: s'' =>
            if isLowSurrogate d then c :: d :: toWellFormed s''
            else 0xFFFD :: toWellFormed s'
        | [] => [0xFFFD]
        end
      else if isLowSurrogate c then 0xFFFD :: toWellFormed s'
      else c :: toWellFormed s'
  end.

(** The number of bytes of a well-formed string in UTF-8: a pair of
    surrogates takes four. *)
Definition utf8Length (s : list N) : N :=
  fold_right
    (fun c n => (if c <? 0x80 then 1
                 else if c <? 0x800 then 2
                 else if isHighSurrogate c || isLowSurrogate c then 2
                 else 3) + n)
    0 s.

Fixpoint dropWhile {A} (f : A -> bool) (l : list A) : list A :=
  match l with
  | [] => []
  | x :: l' => if f x then dropWhile f l' else l
  end.

Fixpoint takeWhile {A} (f : A -> bool) (l : list A) : list A :=
  match l with
  | [] => []
  | x :: l' => if f x then x :: takeWhile f l' else []
  end.

Definition trimStart (s : list N) : list N := dropWhile isSpace s.
Definition trimEnd (s : list N) : list N := rev (dropWhile isSpace (rev s)).
Definition trim (s : list N) : list N := trimEnd (trimStart s).

(** [s.split(sep)] for a one-character separator: never empty. *)
Fixpoint split (sep : N) (s : list N) : list (list N) :=
  match s with
  | [] => [[]]
  | c :: s' =>
      if c =? sep then [] :: split sep s'
      else match split sep s' with
           | l :: ls => (c :: l) :: ls
           | [] => [[c]]
           end
  end.

(** [parts.join(sep)]. *)
Fixpoint join (sep : list N) (parts : list (list N)) : list N :=
  match parts with
  | [] => []
  | [p] => p
  | p :: ps => p ++ sep ++ join sep ps
  end.

(** [s.substring(0, n)]. *)
Definition substring0 (n : nat) (s : list N) : list N := take n s.

(** [!s] for a value that is a string or undefined. *)
Definition falsy (o : option (list N)) : bool :=
  match o with
  | None => true
  | Some [] => true
  | Some (_ :: _) => false
  end.

(** ** Slug derivation (routes.ts, lines 87-94) *)

(** [.replace(/[^\w\s-]/g, '')] *)
Definition stripNonWord (s : list N) : list N :=
  List.filter (fun c => isWord c || isSpace c || (c =? HYPHEN)) s.

(** [.replace(/\s+/g, '-')]: every maximal run of white space becomes one
    hyphen, emitted at the last character of the run. *)
Fixpoint spacesToHyphen (s : list N) : list N :=
  match s with
  | [] => []
  | c :: s' =>
      if isSpace c then
        match s' with
        | c' :: _ => if isSpace c' then spacesToHyphen s'
                     else HYPHEN :: spacesToHyphen s'
        | [] => [HYPHEN]
        end
      else c :: spacesToHyphen s'
  end.

(** [.replace(/--+/g, '-')]: a hyphen followed by a hyphen is dropped, so a
    run of two or more leaves exactly its last one. *)
Fixpoint collapseHyphens (s : list N) : list N :=
  match s with
  | [] => []
  | c :: s' =>
      if c =? HYPHEN then
        match s' with
        | c' :: _ => if c' =? HYPHEN then collapseHyphens s'
                     else c :: collapseHyphens s'
        | [] => [c]
        end
      else c :: collapseHyphens s'
  end.

Section Slug.
Variable toLowerCase : list N -> list N.

(** The chain of the handler, [trim] included. *)
Definition slugify (title : list N) : list N :=
  trim (collapseHyphens (spacesToHyphen (stripNonWord (toLowerCase title)))).

(** The chain before its last step. *)
Definition untrimmedSlug (title : list N) : list N :=
  collapseHyphens (spacesToHyphen (stripNonWord (toLowerCase title))).
End Slug.

(** ASCII-only lower-casing, used to run the handlers on sample inputs. *)
Definition asciiLower (s : list N) : list N :=
  List.map (fun c => if (65 <=? c) && (c <=? 90) then c + 32 else c) s.

Close Scope N_scope.

(** ** Rows

    Modelled from the spec: the row types [Post], [InsertPost], [Contact]
    and [InsertContact] of [@shared/schema], which is not among the
    sources. The fields are those of the specification's data model, typed
    as [storage.ts] builds and reads them: the excerpt, read time, category
    and tags of a post may be null, the view counter is an integer (its
    machine width is not visible in the sources, and every row the code
    creates has a number there), times are integers. *)

Module Post.
Record t := mk {
  id : Z;
  title : list N;
  slug : list N;
  content : list N;
  excerpt : option (list N);
  readTime : option (list N);
  category : option (list N);
  tags : option (list (list N));
  status : list N;
  viewCount : Z;
  createdAt : Z;
  updatedAt : Z
}.

Definition with_viewCount (v : Z) (p : t) : t :=
  mk (id p) (title p) (slug p) (content p) (excerpt p) (readTime p)
     (category p) (tags p) (status p) v (createdAt p) (updatedAt p).
End Post.

(** The validated body of a post creation. An absent slug and an empty one
    take the same branch of the handler ([!postData.slug]) and are both
    represented by the empty string. *)
Module InsertPost.
Record t := mk {
  title : list N;
  slug : list N;
  content : list N;
  excerpt : option (list N);
  readTime : option (list N);
  category : option (list N);
  tags : option (list (list N));
  status : option (list N)
}.

Definition with_slug (s : list N) (d : t) : t :=
  mk (title d) s (content d) (excerpt d) (readTime d) (category d)
     (tags d) (status d).
End InsertPost.

Module Contact.
Record t := mk {
  id : Z;
  name : list N;
  email : list N;
  subject : list N;
  message : list N;
  status : list N;
  createdAt : Z
}.

Definition with_status (st : list N) (c : t) : t :=
  mk (id c) (name c) (email c) (subject c) (message c) st (createdAt c).
End Contact.

Module InsertContact.
Record t := mk {
  name : list N;
  email : list N;
  subject : list N;
  message : list N
}.
End InsertContact.

(** ** Paths and files

    [path] and [fs/promises] as [storage.ts] uses them, on a Linux
    system. *)

Module Path.
(** A place in the tree: the names on the way from the root. *)
Definition t : Type := list (list N).

(** The segments of a path that is written out, taken one after the
    other: an empty segment and [.] stay where they are, [..] goes up one
    directory, and stays at the root when there is none above. The stack
    holds the way so far, last name first. *)
Fixpoint walk (stack segments : list (list N)) : list (list N) :=
  match segments with
  | [] => stack
  | segment :: rest =>
      if eqs segment [] || eqs segment (str ".") then walk stack rest
      else if eqs segment (str "..") then walk (tail stack) rest
      else walk (segment :: stack) rest
  end.

(** [path.join(dir, name)] for a directory given by its absolute,
    normalised path: [name] is appended behind a slash and the whole is
    normalised, so that [name] is walked from [dir]. *)
Definition join (dir : t) (name : list N) : t :=
  rev (walk (rev dir) (split SLASH name)).
End Path.

Module Fs.
(** The directories and the regular files, each under its place; the
    content of a file is the string [readFile(_, 'utf-8')] returns. *)
Record t := mk {
  dirs : gset Path.t;
  files : gmap Path.t (list N)
}.

Definition NAME_MAX : N := 255.

(** A name the calls take: a string with a null character is refused by
    [fs] itself, a name of more than [NAME_MAX] bytes by the system. *)
Definition nameOk (name : list N) : bool :=
  forallb (fun c => negb (c =? 0)%N) name
  && (utf8Length (toWellFormed name) <=? NAME_MAX)%N.

Definition PATH_MAX : N := 4096.

(** The bytes of a path written out from the root, a slash before each
    name. *)
Definition pathBytes (path : Path.t) : N :=
  fold_right (fun name n => (1 + utf8Length (toWellFormed name) + n)%N) 0%N
    path.

(** A path the calls take: each of its names is one, and it is written
    out, with the null byte that ends it, in at most [PATH_MAX] bytes. *)
Definition pathOk (path : Path.t) : bool :=
  forallb nameOk path && (pathBytes path <? PATH_MAX)%N.

(** The place a path names to the system, which receives it in UTF-8. *)
Definition locate (path : Path.t) : Path.t := List.map toWellFormed path.

Definition parent (path : Path.t) : Path.t := removelast path.

(** Whether [writeFile] goes through: the path is taken, the directory
    above is there, and the place is not a directory. *)
Definition canWrite (path : Path.t) (fs : t) : bool :=
  pathOk path
  && bool_decide (parent (locate path) ∈ dirs fs)
  && bool_decide (locate path ∉ dirs fs).

(** [fs.writeFile(path, data, 'utf-8')]: the file is made or replaced;
    nothing when the call throws. *)
Definition writeFile (path : Path.t) (data : list N) (fs : t) : option t :=
  if canWrite path fs
  then Some (mk (dirs fs) (<[locate path := toWellFormed data]> (files fs)))
  else None.

(** [fs.readFile(path, 'utf-8')]: nothing when the call throws. *)
Definition readFile (path : Path.t) (fs : t) : option (list N) :=
  if pathOk path then files fs !! locate path else None.

(** [fs.unlink(path)]: nothing when the call throws. *)
Definition unlink (path : Path.t) (fs : t) : option t :=
  match readFile path fs with
  | Some _ => Some (mk (dirs fs) (delete (locate path) (files fs)))
  | None => None
  end.

(** The places from the root down to [path]. *)
Definition ancestors (path : Path.t) : list Path.t :=
  List.map (fun n => take n path) (seq 0 (S (length path))).

(** [fs.mkdir(path, { recursive: true })]: [path] and the directories
    above it are made where they are missing; nothing when the call
    throws, a file being in the way or the path not taken. *)
Definition mkdir_recursive (path : Path.t) (fs : t) : option t :=
  if pathOk path
     && forallb (fun p => bool_decide (files fs !! p = None))
          (ancestors (locate path))
  then Some (mk (dirs fs ∪ list_to_set (ancestors (locate path))) (files fs))
  else None.
End Fs.

(** [`${x}`] for a nullable string. *)
Definition showNullable (o : option (list N)) : list N :=
  match o with
  | Some s => s
  | None => str "null"
  end.

(** [post.tags?.join(', ') || ''] *)
Definition showTags (o : option (list (list N))) : list N :=
  match o with
  | Some l => join (str ", ") l
  | None => []
  end.

(** [`${slug}.md`] *)
Definition mirrorName (slug : list N) : list N := slug ++ str ".md".

(** [path.join(this.postsDir, `${slug}.md`)] *)
Definition mirrorPath (postsDir : Path.t) (slug : list N) : Path.t :=
  Path.join postsDir (mirrorName slug).

Definition renderPost (post : Post.t) : list N :=
  join [NL]
    [ str "---";
      str "title: " ++ Post.title post;
      str "excerpt: " ++ showNullable (Post.excerpt post);
      str "readTime: " ++ showNullable (Post.readTime post);
      str "category: " ++ showNullable (Post.category post);
      str "tags: " ++ showTags (Post.tags post);
      str "status: " ++ Post.status post;
      str "---";
      [];
      Post.content post ].

(** [savePostToFile]: the same text in both storage classes; nothing when
    [fs.writeFile] throws. *)
Definition savePostToFile (postsDir : Path.t) (post : Post.t) (fs : Fs.t)
  : option Fs.t :=
  Fs.writeFile (mirrorPath postsDir (Post.slug post)) (renderPost post) fs.

(** [deletePostFile]: an error of [fs.unlink] is caught and logged. *)
Definition deletePostFile (postsDir : Path.t) (slug : list N) (fs : Fs.t)
  : Fs.t :=
  match Fs.unlink (mirrorPath postsDir slug) fs with
  | Some fs' => fs'
  | None => fs
  end.

(** ** Calls that may throw

    What a call of a storage method comes to: the value returned, or an
    exception. The state that goes with it is the state the call leaves
    either way. *)
Inductive Completion (A : Type) : Type :=
| Returned (a : A)
| Thrown.

Arguments Returned {A} a.
Arguments Thrown {A}.
(** ** Parsed markdown files *)

Module Parsed.
Record t := mk {
  title : list N;
  excerpt : list N;
  readTime : list N;
  category : list N;
  tags : list (list N);
  status : list N;
  markdown : list N
}.

Definition with_title (v : list N) (r : t) : t :=
  mk v (excerpt r) (readTime r) (category r) (tags r) (status r) (markdown r).
Definition with_excerpt (v : list N) (r : t) : t :=
  mk (title r) v (readTime r) (category r) (tags r) (status r) (markdown r).
Definition with_readTime (v : list N) (r : t) : t :=
  mk (title r) (excerpt r) v (category r) (tags r) (status r) (markdown r).
Definition with_category (v : list N) (r : t) : t :=
  mk (title r) (excerpt r) (readTime r) v (tags r) (status r) (markdown r).
Definition with_tags (v : list (list N)) (r : t) : t :=
  mk (title r) (excerpt r) (readTime r) (category r) v (status r) (markdown r).
Definition with_status (v : list N) (r : t) : t :=
  mk (title r) (excerpt r) (readTime r) (category r) (tags r) v (markdown r).
Definition with_markdown (v : list N) (r : t) : t :=
  mk (title r) (excerpt r) (readTime r) (category r) (tags r) (status r) v.
End Parsed.

(** [l.findIndex((x, index) => f x index)]: -1 when there is none. *)
Fixpoint findIndexFrom {A} (f : A -> nat -> bool) (i : nat) (l : list A) : Z :=
  match l with
  | [] => (-1)%Z
  | x :: l' => if f x i then Z.of_nat i else findIndexFrom f (S i) l'
  end.

Definition findIndex {A} (f : A -> nat -> bool) (l : list A) : Z :=
  findIndexFrom f 0 l.

(** [l.slice(a, b)] and [l.slice(a)] for indices that are not negative. *)
Definition slice {A} (a b : Z) (l : list A) : list A :=
  take (Z.to_nat b - Z.to_nat a) (drop (Z.to_nat a) l).

Definition sliceFrom {A} (a : Z) (l : list A) : list A :=
  drop (Z.to_nat a) l.

Definition isEmpty (s : list N) : bool :=
  match s with
  | [] => true
  | _ :: _ => false
  end.

(** [s] without the prefix [p], when it starts with it. *)
Fixpoint stripPrefix (p s : list N) : option (list N) :=
  match p with
  | [] => Some s
  | a :: p' =>
      match s with
      | b :: s' => if (a =? b)%N then stripPrefix p' s' else None
      | [] => None
      end
  end.

(** What is before and after the first occurrence of [pat] in [s]. *)
Fixpoint cutAt (pat s : list N) : option (list N * list N) :=
  match stripPrefix pat s with
  | Some rest => Some ([], rest)
  | None =>
      match s with
      | [] => None
      | c :: s' =>
          match cutAt pat s' with
          | Some (before, after) => Some (c :: before, after)
          | None => None
          end
      end
  end.
(** ** The storage interface *)

Class IStorage (St Ref : Type) := {
  getPostBySlug : list N -> St -> option Ref;
  createPost : InsertPost.t -> Z -> St -> Completion Ref * St;
  deletePost : Z -> St -> bool * St;
  incrementViewCount : list N -> St -> Completion unit * St;
  createContact : InsertContact.t -> Z -> St -> Contact.t * St;
  markContactAsRead : Z -> St -> St;
  (** what [res.json(post)] writes for a post the handler holds, in the
      state in which it is called *)
  serialize : St -> Ref -> option Post.t;
  (** every stored post, in storage order *)
  allPosts : St -> list Post.t;
  (** the stored post, resp. contact, with a given id *)
  findPost : Z -> St -> option Post.t;
  findContact : Z -> St -> option Contact.t;
  (** [this.postsDir] and the file system *)
  postsDir : St -> Path.t;
  mirror : St -> Fs.t
}.

(** ** A JavaScript [Map<number, V>]: entries in insertion order *)

Module JSMap.
Section Ops.
Context {V : Type}.

Definition get (k : Z) (m : list (Z * V)) : option V :=
  snd <$> List.find (fun e => (e.1 =? k)%Z) m.

(** [set] keeps the position of a key already present. *)
Fixpoint set (k : Z) (v : V) (m : list (Z * V)) : list (Z * V) :=
  match m with
  | [] => [(k, v)]
  | e :: m' => if (e.1 =? k)%Z then (k, v) :: m' else e :: set k v m'
  end.

Definition delete (k : Z) (m : list (Z * V)) : list (Z * V) :=
  List.filter (fun e => negb (e.1 =? k)%Z) m.

Definition values (m : list (Z * V)) : list V := List.map snd m.
End Ops.
End JSMap.

(** [x || null] for an optional string: the empty string is falsy too. *)
Definition orNull (o : option (list N)) : option (list N) :=
  if falsy o then None else o.

(** [x || 'published'] *)
Definition orPublished (o : option (list N)) : list N :=
  match o with
  | Some (c :: s) => c :: s
  | _ => str "published"
  end.

(** [n || 0] for an integer. *)
Definition orZero (n : Z) : Z := if (n =? 0)%Z then 0%Z else n.

(** ** Strings, arrays and objects of the queries

    What follows serves the other methods of the two storage classes: the
    loading of the mirror at start, the listings, the search, the
    statistics, the update of a post and the contacts. The loading is
    taken as done before the first request. Two things are left out: the
    users, which no handler reads, and [DatabaseStorage.searchPosts], whose
    [ILIKE] match, with its wildcards and its case folding, belongs to the
    database. *)

(** [s.includes(t)] *)
Fixpoint includes (s t : list N) : bool :=
  match stripPrefix t s with
  | Some _ => true
  | None =>
      match s with
      | [] => false
      | _ :: s' => includes s' t
      end
  end.

(** [s.endsWith(t)] *)
Definition endsWith (s t : list N) : bool :=
  match stripPrefix (rev t) (rev s) with
  | Some _ => true
  | None => false
  end.

(** [s.replace(pat, '')] for a string [pat]: its first occurrence goes. *)
Definition removeFirst (pat s : list N) : list N :=
  match cutAt pat s with
  | Some (before, after) => before ++ after
  | None => s
  end.

(** [file.replace('.md', '')] *)
Definition fileSlug (file : list N) : list N := removeFirst (str ".md") file.

(** [a.sort(cmp)]. The sort of an array is stable, and the comparators of
    [storage.ts] are differences of two integers, which order the elements
    consistently: the result is the one arrangement in which [cmp] is never
    positive from an element to a later one and elements that compare equal
    keep their order. [x] goes before [y] when [cmp x y <= 0]. *)
Section Sort.
Context {A : Type}.
Variable cmp : A -> A -> Z.

Fixpoint insertSorted (x : A) (l : list A) : list A :=
  match l with
  | [] => [x]
  | y :: l' =>
      if (cmp x y <=? 0)%Z then x :: y :: l' else y :: insertSorted x l'
  end.

Definition sortBy (l : list A) : list A := foldr insertSorted [] l.
End Sort.

(** [(a, b) => new Date(b.createdAt).getTime() - new Date(a.createdAt).getTime()];
    every row the code creates has a creation time, so that the
    [|| new Date()] of the comparator is never taken. *)
Definition newestFirst (a b : Post.t) : Z :=
  (Post.createdAt b - Post.createdAt a)%Z.

Definition newestContactFirst (a b : Contact.t) : Z :=
  (Contact.createdAt b - Contact.createdAt a)%Z.

(** [(a, b) => (b.viewCount || 0) - (a.viewCount || 0)] *)
Definition mostViewedFirst (a b : Post.t) : Z :=
  (orZero (Post.viewCount b) - orZero (Post.viewCount a))%Z.

Definition isPublished (post : Post.t) : bool :=
  eqs (Post.status post) (str "published").

Definition isDraft (post : Post.t) : bool :=
  eqs (Post.status post) (str "draft").

Definition isUnread (contact : Contact.t) : bool :=
  eqs (Contact.status contact) (str "unread").

(** [post.tags?.includes(tag)] *)
Definition hasTag (tag : list N) (post : Post.t) : bool :=
  match Post.tags post with
  | Some tags => existsb (eqs tag) tags
  | None => false
  end.

(** [allPosts.reduce((sum, post) => sum + (post.viewCount || 0), 0)] *)
Definition sumViews (posts : list Post.t) : Z :=
  fold_left (fun sum post => (sum + orZero (Post.viewCount post))%Z) posts 0%Z.

(** A property of the object [tagDistribution]: a number, or the text that
    [+ 1] makes of a value that is not a number. *)
Inductive Count :=
| Num (n : Z)
| Text (s : list N).

(** [(v || 0) + 1] for an own property [v] *)
Definition plusOne (v : Count) : Count :=
  match v with
  | Num n => Num (orZero n + 1)
  | Text [] => Num 1
  | Text (c :: s) => Text ((c :: s) ++ str "1")
  end.

Section TagDistribution.
(** [String(Object.prototype[name])] for the names every object inherits
    ([constructor], [toString], [__proto__] and the like), nothing for the
    other names: the runtime's. *)
Variable inherited : list N -> option (list N).

(** [tagDistribution[tag] = (tagDistribution[tag] || 0) + 1], on an object
    made by [{}]. A name that is not an own property is looked up in
    [Object.prototype]; what is found there is a function or, under
    [__proto__], the prototype itself, which is truthy, so that [+ 1]
    appends to its text. The assignment makes an own property, except
    under [__proto__], whose setter passes over a string. *)
Definition countTag (d : gmap (list N) Count) (tag : list N)
  : gmap (list N) Count :=
  match d !! tag with
  | Some v => <[tag := plusOne v]> d
  | None =>
      match inherited tag with
      | None => <[tag := Num 1]> d
      | Some text =>
          if eqs tag (str "__proto__") then d
          else <[tag := Text (text ++ str "1")]> d
      end
  end.

(** [post.tags?.forEach(tag => ...)] *)
Definition countTags (d : gmap (list N) Count) (post : Post.t)
  : gmap (list N) Count :=
  match Post.tags post with
  | Some tags => fold_left countTag tags d
  | None => d
  end.

Definition tagDistributionOf (posts : list Post.t) : gmap (list N) Count :=
  fold_left countTags posts ∅.
End TagDistribution.

Module PostStats.
Record t := mk {
  totalPosts : nat;
  publishedPosts : nat;
  draftPosts : nat;
  thisMonthPosts : nat;
  totalViews : Z;
  topPosts : list Post.t;
  tagDistribution : gmap (list N) Count
}.
End PostStats.

(** [Partial<InsertPost>], over the keys [createPost] reads: each key
    present or not; a key that is present holds a value of the column, null
    included where the column takes it. *)
Module PartialPost.
Record t := mk {
  title : option (list N);
  slug : option (list N);
  content : option (list N);
  excerpt : option (option (list N));
  readTime : option (option (list N));
  category : option (option (list N));
  tags : option (option (list (list N)));
  status : option (list N)
}.

(** No key at all. *)
Definition isEmpty (u : t) : bool :=
  match title u, slug u, content u, excerpt u, readTime u, category u,
        tags u, status u with
  | None, None, None, None, None, None, None, None => true
  | _, _, _, _, _, _, _, _ => false
  end.
End PartialPost.

(** [{ ...existingPost, ...updateData }], resp. the row after
    [update ... set updateData]: a key that is given replaces the column. *)
Definition applyUpdate (existing : Post.t) (u : PartialPost.t) : Post.t :=
  Post.mk (Post.id existing)
    (default (Post.title existing) (PartialPost.title u))
    (default (Post.slug existing) (PartialPost.slug u))
    (default (Post.content existing) (PartialPost.content u))
    (default (Post.excerpt existing) (PartialPost.excerpt u))
    (default (Post.readTime existing) (PartialPost.readTime u))
    (default (Post.category existing) (PartialPost.category u))
    (default (Post.tags existing) (PartialPost.tags u))
    (default (Post.status existing) (PartialPost.status u))
    (Post.viewCount existing) (Post.createdAt existing)
    (Post.updatedAt existing).

Definition with_updatedAt (now : Z) (p : Post.t) : Post.t :=
  Post.mk (Post.id p) (Post.title p) (Post.slug p) (Post.content p)
    (Post.excerpt p) (Post.readTime p) (Post.category p) (Post.tags p)
    (Post.status p) (Post.viewCount p) (Post.createdAt p) now.

(** The post [loadPostsFromFiles] makes of a parsed file. *)
Definition loadedPost (id : Z) (slug : list N) (parsed : Parsed.t) (now : Z)
  : Post.t :=
  Post.mk id (Parsed.title parsed) slug (Parsed.markdown parsed)
    (Some (Parsed.excerpt parsed)) (Some (Parsed.readTime parsed))
    (Some (Parsed.category parsed)) (Some (Parsed.tags parsed))
    (Parsed.status parsed) 0 now now.
(** ** MemStorage

    The two maps hold references to objects; the objects live in a heap, so
    that a reference handed to a caller and the entry of the map denote the
    same, mutable, object. *)

Module MemStorage.
Record State := mkState {
  postObjs : gmap positive Post.t;
  contactObjs : gmap positive Contact.t;
  posts : list (Z * positive);
  contacts : list (Z * positive);
  currentPostId : Z;
  currentContactId : Z;
  postsDir : Path.t;
  files : Fs.t
}.

Definition with_files (fs : Fs.t) (s : State) : State :=
  mkState (postObjs s) (contactObjs s) (posts s) (contacts s)
    (currentPostId s) (currentContactId s) (postsDir s) fs.

Definition hasSlug (s : State) (slug : list N) (l : positive) : bool :=
  match postObjs s !! l with
  | Some post => eqs (Post.slug post) slug
  | None => false
  end.

(** The [switch] over the trimmed key. *)
Definition setField (key value : list N) (r : Parsed.t) : Parsed.t :=
  if eqs key (str "title") then Parsed.with_title value r
  else if eqs key (str "excerpt") then Parsed.with_excerpt value r
  else if eqs key (str "readTime") then Parsed.with_readTime value r
  else if eqs key (str "category") then Parsed.with_category value r
  else if eqs key (str "tags") then
    Parsed.with_tags
      (List.filter (fun tag => negb (isEmpty tag))
         (List.map trim (split COMMA value))) r
  else if eqs key (str "status") then Parsed.with_status value r
  else r.

(** One step of the [forEach] over the front-matter lines:
    [const [key, ...valueParts] = line.split(':')]. *)
Definition assignLine (line : list N) (r : Parsed.t) : Parsed.t :=
  match split COLON line with
  | key :: valueParts =>
      let value := trim (join [COLON] valueParts) in
      setField (trim key) value r
  | [] => r
  end.

(** Lines 143-147: the excerpt generated from the content. *)
Definition generateExcerpt (markdown : list N) : list N :=
  match List.find (fun line => negb (isEmpty (trim line))) (split NL markdown) with
  | Some firstParagraph => substring0 150 firstParagraph ++ str "..."
  | None => []
  end.

Definition initial (content : list N) : Parsed.t :=
  Parsed.mk (str "Untitled") [] (str "5 min read") (str "General") []
    (str "published") content.

(** The part of [parseMarkdownFile] before the excerpt is generated. *)
Definition parseFrontmatter (content : list N) : Parsed.t :=
  let lines := split NL content in
  if bool_decide (head lines = Some (str "---")) then
    let endIndex :=
      findIndex (fun line index => (0 <? index)%nat && eqs line (str "---"))
        lines in
    if (0 <? endIndex)%Z then
      let frontmatter := slice 1 endIndex lines in
      let markdown := join [NL] (sliceFrom (endIndex + 1) lines) in
      fold_left (fun r line => assignLine line r) frontmatter
        (Parsed.with_markdown markdown (initial content))
    else initial content
  else initial content.

(** [if (!excerpt) { ... }] *)
Definition fillExcerpt (r : Parsed.t) : Parsed.t :=
  if isEmpty (Parsed.excerpt r)
  then Parsed.with_excerpt (generateExcerpt (Parsed.markdown r)) r
  else r.

Definition parseMarkdownFile (content : list N) : Parsed.t :=
  fillExcerpt (parseFrontmatter content).

(** [Array.from(this.posts.values()).find(post => post.slug === slug)] *)
Definition getPostBySlug (slug : list N) (s : State) : option positive :=
  List.find (hasSlug s slug) (JSMap.values (posts s)).

(** The post is in the map before its file is written. *)
Definition createPost (insertPost : InsertPost.t) (now : Z) (s : State)
  : Completion positive * State :=
  let id := currentPostId s in
  let post :=
    Post.mk id (InsertPost.title insertPost) (InsertPost.slug insertPost)
      (InsertPost.content insertPost)
      (orNull (InsertPost.excerpt insertPost))
      (orNull (InsertPost.readTime insertPost))
      (orNull (InsertPost.category insertPost))
      (InsertPost.tags insertPost)
      (orPublished (InsertPost.status insertPost))
      0 now now in
  let l := fresh (dom (postObjs s)) in
  let stored :=
    mkState (<[l := post]> (postObjs s)) (contactObjs s)
      (JSMap.set id l (posts s)) (contacts s)
      (id + 1) (currentContactId s) (postsDir s) (files s) in
  match savePostToFile (postsDir s) post (files s) with
  | Some fs => (Returned l, with_files fs stored)
  | None => (Thrown, stored)
  end.

(** [this.posts.get(id)] *)
Definition getPost (id : Z) (s : State) : option Post.t :=
  JSMap.get id (posts s) ≫= (fun l => postObjs s !! l).

Definition deletePost (id : Z) (s : State) : bool * State :=
  match getPost id s with
  | None => (false, s)
  | Some post =>
      (true, mkState (postObjs s) (contactObjs s)
               (JSMap.delete id (posts s)) (contacts s)
               (currentPostId s) (currentContactId s) (postsDir s)
               (deletePostFile (postsDir s) (Post.slug post) (files s)))
  end.

(** The object found is updated in place, then mirrored. *)
Definition incrementViewCount (slug : list N) (s : State)
  : Completion unit * State :=
  match getPostBySlug slug s with
  | Some l =>
      match postObjs s !! l with
      | Some post =>
          let post' :=
            Post.with_viewCount (orZero (Post.viewCount post) + 1) post in
          let counted :=
            mkState (<[l := post']> (postObjs s)) (contactObjs s)
              (posts s) (contacts s) (currentPostId s) (currentContactId s)
              (postsDir s) (files s) in
          match savePostToFile (postsDir s) post' (files s) with
          | Some fs => (Returned (), with_files fs counted)
          | None => (Thrown, counted)
          end
      | None => (Returned (), s)
      end
  | None => (Returned (), s)
  end.

Definition createContact (insertContact : InsertContact.t) (now : Z)
  (s : State) : Contact.t * State :=
  let id := currentContactId s in
  let contact :=
    Contact.mk id (InsertContact.name insertContact)
      (InsertContact.email insertContact)
      (InsertContact.subject insertContact)
      (InsertContact.message insertContact)
      (str "unread") now in
  let l := fresh (dom (contactObjs s)) in
  (contact, mkState (postObjs s) (<[l := contact]> (contactObjs s))
              (posts s) (JSMap.set id l (contacts s))
              (currentPostId s) (id + 1) (postsDir s) (files s)).

(** [this.contacts.get(id)] *)
Definition getContact (id : Z) (s : State) : option Contact.t :=
  JSMap.get id (contacts s) ≫= (fun l => contactObjs s !! l).

Definition markContactAsRead (id : Z) (s : State) : State :=
  match JSMap.get id (contacts s) with
  | Some l =>
      match contactObjs s !! l with
      | Some contact =>
          mkState (postObjs s)
            (<[l := Contact.with_status (str "read") contact]> (contactObjs s))
            (posts s) (contacts s) (currentPostId s) (currentContactId s)
            (postsDir s) (files s)
      | None => s
      end
  | None => s
  end.

Definition allPosts (s : State) : list Post.t :=
  omap (fun l => postObjs s !! l) (JSMap.values (posts s)).

Definition allContacts (s : State) : list Contact.t :=
  omap (fun l => contactObjs s !! l) (JSMap.values (contacts s)).

#[global] Instance storage : IStorage State positive := {
  getPostBySlug := getPostBySlug;
  createPost := createPost;
  deletePost := deletePost;
  incrementViewCount := incrementViewCount;
  createContact := createContact;
  markContactAsRead := markContactAsRead;
  serialize := fun s l => postObjs s !! l;
  allPosts := allPosts;
  findPost := getPost;
  findContact := getContact;
  postsDir := postsDir;
  mirror := files
}.

(** Lines 63-96, one turn of the loop: the file becomes a post under the
    next id; nothing is written back. *)
Definition loadFile (file content : list N) (now : Z) (s : State) : State :=
  let id := currentPostId s in
  let post := loadedPost id (fileSlug file) (parseMarkdownFile content) now in
  let l := fresh (dom (postObjs s)) in
  mkState (<[l := post]> (postObjs s)) (contactObjs s)
    (JSMap.set id l (posts s)) (contacts s)
    (id + 1) (currentContactId s) (postsDir s) (files s).

(** The loop over the markdown files; [clock i] is the time at which the
    [i]-th of them is reached. A file that cannot be read throws, and the
    [catch] around the loop ends it. *)
Fixpoint loadMarkdownFiles (markdownFiles : list (list N)) (clock : nat -> Z)
  (s : State) : State :=
  match markdownFiles with
  | [] => s
  | file :: rest =>
      match Fs.readFile (Path.join (postsDir s) file) (files s) with
      | Some content =>
          loadMarkdownFiles rest (fun i => clock (S i))
            (loadFile file content (clock 0%nat) s)
      | None => s
      end
  end.

(** [listing] is what [fs.readdir] returns, in its order; a call that
    throws loads nothing, like an empty listing. *)
Definition loadPostsFromFiles (listing : list (list N)) (clock : nat -> Z)
  (s : State) : State :=
  loadMarkdownFiles
    (List.filter (fun file => endsWith file (str ".md")) listing) clock s.

(** Lines 40-61, [new MemStorage()]: empty maps, ids from 1, the
    directory [posts] under [process.cwd()], made if it can be, then its
    files. *)
Definition new (cwd : Path.t) (fs : Fs.t) (listing : list (list N))
  (clock : nat -> Z) : State :=
  let postsDir := Path.join cwd (str "posts") in
  let fs' := default fs (Fs.mkdir_recursive postsDir fs) in
  loadPostsFromFiles listing clock (mkState ∅ ∅ [] [] 1 1 postsDir fs').

(** The posts of the queries are read when the answer is written, in the
    state of the query. *)
Definition getAllPosts (s : State) : list Post.t :=
  sortBy newestFirst (List.filter isPublished (allPosts s)).

Definition updatePost (id : Z) (updateData : PartialPost.t) (now : Z)
  (s : State) : Completion (option positive) * State :=
  match getPost id s with
  | None => (Returned None, s)
  | Some existingPost =>
      let updatedPost :=
        with_updatedAt now (applyUpdate existingPost updateData) in
      let l := fresh (dom (postObjs s)) in
      let stored :=
        mkState (<[l := updatedPost]> (postObjs s)) (contactObjs s)
          (JSMap.set id l (posts s)) (contacts s)
          (currentPostId s) (currentContactId s) (postsDir s) (files s) in
      match savePostToFile (postsDir s) updatedPost (files s) with
      | Some fs => (Returned (Some l), with_files fs stored)
      | None => (Thrown, stored)
      end
  end.

Definition getPostsByTag (tag : list N) (s : State) : list Post.t :=
  sortBy newestFirst
    (List.filter (fun post => isPublished post && hasTag tag post)
       (allPosts s)).

(** [post.excerpt?.toLowerCase().includes(searchTerm)] is undefined, hence
    falsy, for a post without excerpt. *)
Definition searchPosts (toLowerCase : list N -> list N) (query : list N)
  (s : State) : list Post.t :=
  let searchTerm := toLowerCase query in
  sortBy newestFirst
    (List.filter
       (fun post =>
          isPublished post &&
          (includes (toLowerCase (Post.title post)) searchTerm
           || includes (toLowerCase (Post.content post)) searchTerm
           || match Post.excerpt post with
              | Some excerpt => includes (toLowerCase excerpt) searchTerm
              | None => false
              end))
       (allPosts s)).

(** [startOfMonth now] is [new Date(now.getFullYear(), now.getMonth(), 1)],
    the first instant of the month of [now] in the server's time zone. *)
Definition getPostStats (inherited : list N -> option (list N))
  (startOfMonth : Z -> Z) (now : Z) (s : State) : PostStats.t :=
  let allPosts := allPosts s in
  let publishedPosts := List.filter isPublished allPosts in
  let draftPosts := List.filter isDraft allPosts in
  let thisMonth := startOfMonth now in
  let thisMonthPosts :=
    List.filter (fun p => (thisMonth <=? Post.createdAt p)%Z) allPosts in
  let totalViews := sumViews allPosts in
  let topPosts := slice 0 5 (sortBy mostViewedFirst publishedPosts) in
  PostStats.mk (length allPosts) (length publishedPosts) (length draftPosts)
    (length thisMonthPosts) totalViews topPosts
    (tagDistributionOf inherited publishedPosts).

Definition getAllContacts (s : State) : list Contact.t :=
  sortBy newestContactFirst (allContacts s).

Definition getUnreadContacts (s : State) : list Contact.t :=
  sortBy newestContactFirst (List.filter isUnread (allContacts s)).

(** [this.contacts.delete(id)]: whether there was an entry. *)
Definition deleteContact (id : Z) (s : State) : bool * State :=
  (bool_decide (is_Some (JSMap.get id (contacts s))),
   mkState (postObjs s) (contactObjs s) (posts s)
     (JSMap.delete id (contacts s))
     (currentPostId s) (currentContactId s) (postsDir s) (files s)).
End MemStorage.
(** ** DatabaseStorage

    The two tables are lists of rows, in the order in which a statement
    without [ORDER BY] returns them; a row handed to a caller is a copy. A
    select filters, an insert appends, a delete filters out. An update
    writes the new version of a row as a new row, which comes behind the
    rows left in place, as in a PostgreSQL table whose free space has not
    been reclaimed; the properties of a table after an update are stated
    up to the order of its rows. Modelled from the spec: the table
    definitions of [@shared/schema] are not among the sources, so the
    values a row receives for the columns an insert leaves out (serial id,
    status [published] resp. [unread], view count 0, creation time) follow
    the data model of the specification and what [MemStorage] writes. *)

(** [update t set ... where ...]: the rows the condition leaves out,
    then the new versions of the rows it takes. *)
Definition updateWhere {A} (cond : A -> bool) (set : A -> A)
  (rows : list A) : list A :=
  List.filter (fun row => negb (cond row)) rows
  ++ List.map set (List.filter cond rows).

Module DatabaseStorage.
Record State := mkState {
  posts : list Post.t;
  contacts : list Contact.t;
  posts_id_seq : Z;
  contacts_id_seq : Z;
  postsDir : Path.t;
  files : Fs.t
}.

Definition with_files (fs : Fs.t) (s : State) : State :=
  mkState (posts s) (contacts s) (posts_id_seq s) (contacts_id_seq s)
    (postsDir s) fs.

(** [content.match(frontmatterRegex)], groups 1 and 2. The expression is
    [^---\n] group 1 [\n---\n] group 2 [$], where group 1 is a lazy
    [[\s\S]*?] and group 2 a greedy [[\s\S]*]: after the opening line,
    group 1 stops at the first occurrence of the closing line and group 2
    is all that follows. *)
Definition frontmatterRegex (content : list N) : option (list N * list N) :=
  stripPrefix (str "---" ++ [NL]) content
    ≫= cutAt ([NL] ++ str "---" ++ [NL]).

(** Group 1 of [frontmatter.match(regex)] in [parseValue], the expression
    being [^] key [:\s*] group 1 [$] with the [m] flag and group 1 a
    greedy [.*]; [lit] is the key with its colon. The search takes the
    first start of a line where [lit] stands; from there [\s*] and the
    group are greedy and [$] holds wherever the group stops, so nothing is
    retried. [bol] tells whether the current position starts a line. *)
Fixpoint lineMatch (lit : list N) (bol : bool) (s : list N)
  : option (list N) :=
  match (if bol then stripPrefix lit s else None) with
  | Some rest =>
      Some (takeWhile (fun c => negb (isLineTerminator c))
              (dropWhile isSpace rest))
  | None =>
      match s with
      | [] => None
      | c :: s' => lineMatch lit (isLineTerminator c) s'
      end
  end.

Definition parseValue (frontmatter key defaultValue : list N) : list N :=
  match lineMatch (key ++ [COLON]) true frontmatter with
  | Some group => trim group
  | None => defaultValue
  end.

Definition parseMarkdownFile (content : list N) : Parsed.t :=
  match frontmatterRegex content with
  | None =>
      Parsed.mk (str "Untitled") (str "No excerpt available")
        (str "5 min read") (str "General") [] (str "published") content
  | Some (frontmatter, markdown) =>
      let tagsStr := parseValue frontmatter (str "tags") [] in
      let tags :=
        if isEmpty tagsStr then []
        else List.map trim (split COMMA tagsStr) in
      Parsed.mk
        (parseValue frontmatter (str "title") (str "Untitled"))
        (parseValue frontmatter (str "excerpt") (str "No excerpt available"))
        (parseValue frontmatter (str "readTime") (str "5 min read"))
        (parseValue frontmatter (str "category") (str "General"))
        tags
        (parseValue frontmatter (str "status") (str "published"))
        markdown
  end.

(** [select().from(posts).where(eq(posts.slug, slug))], first row *)
Definition getPostBySlug (slug : list N) (s : State) : option Post.t :=
  head (List.filter (fun p => eqs (Post.slug p) slug) (posts s)).

(** The row is inserted before its file is written. *)
Definition createPost (insertPost : InsertPost.t) (now : Z) (s : State)
  : Completion Post.t * State :=
  let post :=
    Post.mk (posts_id_seq s) (InsertPost.title insertPost)
      (InsertPost.slug insertPost) (InsertPost.content insertPost)
      (InsertPost.excerpt insertPost) (InsertPost.readTime insertPost)
      (InsertPost.category insertPost) (InsertPost.tags insertPost)
      (default (str "published") (InsertPost.status insertPost))
      0 now now in
  let inserted :=
    mkState (posts s ++ [post]) (contacts s) (posts_id_seq s + 1)
      (contacts_id_seq s) (postsDir s) (files s) in
  match savePostToFile (postsDir s) post (files s) with
  | Some fs => (Returned post, with_files fs inserted)
  | None => (Thrown, inserted)
  end.

(** [select().from(posts).where(eq(posts.id, id)).limit(1)] *)
Definition selectById (id : Z) (s : State) : list Post.t :=
  take 1 (List.filter (fun p => (Post.id p =? id)%Z) (posts s)).

Definition deletePost (id : Z) (s : State) : bool * State :=
  match selectById id s with
  | post :: _ =>
      (true, mkState
               (List.filter (fun p => negb (Post.id p =? id)%Z) (posts s))
               (contacts s) (posts_id_seq s) (contacts_id_seq s)
               (postsDir s)
               (deletePostFile (postsDir s) (Post.slug post) (files s)))
  | [] => (false, s)
  end.

(** [update posts set view_count = view_count + 1 where slug = ...] *)
Definition incrementViewCount (slug : list N) (s : State)
  : Completion unit * State :=
  (Returned (),
   mkState
     (updateWhere (fun p => eqs (Post.slug p) slug)
        (fun p => Post.with_viewCount (Post.viewCount p + 1) p) (posts s))
     (contacts s) (posts_id_seq s) (contacts_id_seq s) (postsDir s)
     (files s)).

Definition createContact (insertContact : InsertContact.t) (now : Z)
  (s : State) : Contact.t * State :=
  let contact :=
    Contact.mk (contacts_id_seq s) (InsertContact.name insertContact)
      (InsertContact.email insertContact)
      (InsertContact.subject insertContact)
      (InsertContact.message insertContact)
      (str "unread") now in
  (contact, mkState (posts s) (contacts s ++ [contact]) (posts_id_seq s)
              (contacts_id_seq s + 1) (postsDir s) (files s)).

(** [update contacts set status = 'read' where id = ...] *)
Definition markContactAsRead (id : Z) (s : State) : State :=
  mkState (posts s)
    (updateWhere (fun c => (Contact.id c =? id)%Z)
       (Contact.with_status (str "read")) (contacts s))
    (posts_id_seq s) (contacts_id_seq s) (postsDir s) (files s).

#[global] Instance storage : IStorage State Post.t := {
  getPostBySlug := getPostBySlug;
  createPost := createPost;
  deletePost := deletePost;
  incrementViewCount := incrementViewCount;
  createContact := createContact;
  markContactAsRead := markContactAsRead;
  serialize := fun _ post => Some post;
  allPosts := posts;
  findPost := fun id s => head (selectById id s);
  findContact := fun id s =>
    head (List.filter (fun c => (Contact.id c =? id)%Z) (contacts s));
  postsDir := postsDir;
  mirror := files
}.

(** Lines 385-423, one turn of the loop: a file whose slug no row carries
    is inserted; nothing is written back. *)
Definition loadFile (file content : list N) (now : Z) (s : State) : State :=
  let slug := fileSlug file in
  match take 1 (List.filter (fun p => eqs (Post.slug p) slug) (posts s)) with
  | [] =>
      let post :=
        loadedPost (posts_id_seq s) slug (parseMarkdownFile content) now in
      mkState (posts s ++ [post]) (contacts s) (posts_id_seq s + 1)
        (contacts_id_seq s) (postsDir s) (files s)
  | _ :: _ => s
  end.

(** The loop over the markdown files; [clock i] is the time at which the
    [i]-th of them is reached. A file that cannot be read throws outside
    the inner [try], and the outer [catch] ends the loop. *)
Fixpoint loadMarkdownFiles (markdownFiles : list (list N)) (clock : nat -> Z)
  (s : State) : State :=
  match markdownFiles with
  | [] => s
  | file :: rest =>
      match Fs.readFile (Path.join (postsDir s) file) (files s) with
      | Some content =>
          loadMarkdownFiles rest (fun i => clock (S i))
            (loadFile file content (clock 0%nat) s)
      | None => s
      end
  end.

(** [listing] is what [fs.readdir] returns, in its order; a call that
    throws loads nothing, like an empty listing. *)
Definition loadPostsFromFiles (listing : list (list N)) (clock : nat -> Z)
  (s : State) : State :=
  loadMarkdownFiles
    (List.filter (fun file => endsWith file (str ".md")) listing) clock s.

(** [select().from(posts).orderBy(desc(posts.createdAt))]. The query does
    not say in which order rows of the same creation time come; they are
    given here in the order of the table. *)
Definition getAllPosts (s : State) : list Post.t :=
  sortBy newestFirst (posts s).

(** [update posts set ... where id = ... returning *], first row. Drizzle
    refuses an update that sets no column and throws ([No values to set])
    before anything is sent; the file is written after the row. *)
Definition updatePost (id : Z) (updateData : PartialPost.t) (s : State)
  : Completion (option Post.t) * State :=
  if PartialPost.isEmpty updateData then (Thrown, s)
  else
    let cond := fun p => (Post.id p =? id)%Z in
    let set := fun p => applyUpdate p updateData in
    let updated :=
      mkState (updateWhere cond set (posts s)) (contacts s) (posts_id_seq s)
        (contacts_id_seq s) (postsDir s) (files s) in
    match List.map set (List.filter cond (posts s)) with
    | post :: _ =>
        match savePostToFile (postsDir s) post (files s) with
        | Some fs => (Returned (Some post), with_files fs updated)
        | None => (Thrown, updated)
        end
    | [] => (Returned None, updated)
    end.

(** [tags @> ARRAY[tag]] is null, hence not true, for a row without tags. *)
Definition getPostsByTag (tag : list N) (s : State) : list Post.t :=
  sortBy newestFirst
    (List.filter (fun post => hasTag tag post && isPublished post)
       (posts s)).

(** [monthBefore now] is [now] after [setMonth(getMonth() - 1)]. *)
Definition getPostStats (inherited : list N -> option (list N))
  (monthBefore : Z -> Z) (now : Z) (s : State) : PostStats.t :=
  let allPosts := posts s in
  let publishedPosts := List.filter isPublished allPosts in
  let draftPosts := List.filter isDraft allPosts in
  let thisMonth := monthBefore now in
  let thisMonthPosts :=
    List.filter (fun p => (thisMonth <=? Post.createdAt p)%Z) allPosts in
  let totalViews := sumViews allPosts in
  let topPosts := slice 0 5 (sortBy mostViewedFirst publishedPosts) in
  PostStats.mk (length allPosts) (length publishedPosts) (length draftPosts)
    (length thisMonthPosts) totalViews topPosts
    (tagDistributionOf inherited allPosts).

Definition getAllContacts (s : State) : list Contact.t :=
  sortBy newestContactFirst (contacts s).

Definition getUnreadContacts (s : State) : list Contact.t :=
  sortBy newestContactFirst (List.filter isUnread (contacts s)).

(** [delete from contacts where id = ...], then [result.rowCount > 0].
    What the result of the statement is belongs to the driver: [rowCount n]
    is the [rowCount] property of the result of a statement that has
    touched [n] rows, or nothing when the results of the driver have no
    such property, in which case [undefined > 0] is false. *)
Definition deleteContact (rowCount : nat -> option Z) (id : Z) (s : State)
  : bool * State :=
  let touched :=
    length (List.filter (fun c => (Contact.id c =? id)%Z) (contacts s)) in
  (match rowCount touched with
   | Some n => (0 <? n)%Z
   | None => false
   end,
   mkState (posts s)
     (List.filter (fun c => negb (Contact.id c =? id)%Z) (contacts s))
     (posts_id_seq s) (contacts_id_seq s) (postsDir s) (files s)).
End DatabaseStorage.

(** [export const storage = new DatabaseStorage()]: the storage the
    handlers of [routes.ts] are bound to. *)
Definition storage : IStorage DatabaseStorage.State Post.t :=
  DatabaseStorage.storage.
(** ** Anchored patterns

    The regular expressions of the handlers that are a sequence of
    character classes, each taken once or one-or-more times, between [^]
    and [$]. [matches p s] is [p.test(s)]. *)

Inductive quant := One | Plus.

Fixpoint matches (p : list ((N -> bool) * quant)) : list N -> bool :=
  match p with
  | [] => fun s => match s with [] => true | _ :: _ => false end
  | (cls, One) :: p' =>
      fun s => match s with
               | c :: s' => cls c && matches p' s'
               | [] => false
               end
  | (cls, Plus) :: p' =>
      fix more (s : list N) : bool :=
        match s with
        | c :: s' => cls c && (more s' || matches p' s')
        | [] => false
        end
  end.

(** [[^\s@]] *)
Definition notSpaceAt (c : N) : bool := negb (isSpace c || (c =? AT)%N).

(** [/^[^\s@]+@[^\s@]+\.[^\s@]+$/] *)
Definition emailRegex : list ((N -> bool) * quant) :=
  [ (notSpaceAt, Plus); (N.eqb AT, One); (notSpaceAt, Plus);
    (N.eqb DOT, One); (notSpaceAt, Plus) ].

(** ** Responses *)

Inductive Json (Ref : Type) : Type :=
| JPost (post : Ref)                    (* res.json(post) *)
| JError (error : list N)               (* { error } *)
| JInvalid (error : list N)             (* { error, details } *)
| JSuccess                              (* { success: true } *)
| JSent (message : list N) (id : Z).    (* { success: true, message, id } *)

Arguments JPost {Ref} post.
Arguments JError {Ref} error.
Arguments JInvalid {Ref} error.
Arguments JSuccess {Ref}.
Arguments JSent {Ref} message id.

Record Response (Ref : Type) := mkResponse {
  statusCode : Z;
  body : Json Ref
}.

Arguments mkResponse {Ref} statusCode body.
Arguments statusCode {Ref} r.
Arguments body {Ref} r.

(** The body of [POST /api/contact]: each field a string or absent. *)
Module ContactBody.
Record t := mk {
  name : option (list N);
  email : option (list N);
  subject : option (list N);
  message : option (list N)
}.
End ContactBody.

(** The string held by a field that has passed the [!field] test. *)
Definition present (o : option (list N)) : list N := default [] o.

(** ** Handlers (routes.ts)

    Each handler takes the state of the storage and returns the response
    together with the state it leaves. An exception of the storage is
    caught by the handler, which answers 500. A response that carries a
    post carries the handler's reference to it; [sentPost] is what goes on
    the wire, [res.json] being the handler's last step. *)

Section Routes.
Context {St Ref : Type} `{!IStorage St Ref}.
Variable toLowerCase : list N -> list N.
Context {ReqBody : Type}.
Variable insertPostSchema_parse : ReqBody -> option InsertPost.t.

(** [GET /api/posts/:slug] *)
Definition getPostRoute (slug : list N) (s : St) : Response Ref * St :=
  match getPostBySlug slug s with
  | None => (mkResponse 404 (JError (str "Post not found")), s)
  | Some post =>
      match incrementViewCount slug s with
      | (Returned _, s') => (mkResponse 200 (JPost post), s')
      | (Thrown, s') =>
          (mkResponse 500 (JError (str "Failed to fetch post")), s')
      end
  end.

(** [POST /api/admin/posts] *)
Definition createPostRoute (reqBody : ReqBody) (now : Z) (s : St)
  : Response Ref * St :=
  match insertPostSchema_parse reqBody with
  | None => (mkResponse 400 (JInvalid (str "Invalid post data")), s)
  | Some parsed =>
      let postData :=
        if falsy (Some (InsertPost.slug parsed))
        then InsertPost.with_slug
               (slugify toLowerCase (InsertPost.title parsed)) parsed
        else parsed in
      match getPostBySlug (InsertPost.slug postData) s with
      | Some _ =>
          (mkResponse 400
             (JError (str "Post with this slug already exists")), s)
      | None =>
          match createPost postData now s with
          | (Returned post, s') => (mkResponse 200 (JPost post), s')
          | (Thrown, s') =>
              (mkResponse 500 (JError (str "Failed to create post")), s')
          end
      end
  end.

(** [DELETE /api/admin/posts/:id] *)
Definition deletePostRoute (id : Z) (s : St) : Response Ref * St :=
  let '(success, s') := deletePost id s in
  if success then (mkResponse 200 JSuccess, s')
  else (mkResponse 404 (JError (str "Post not found")), s').

(** [POST /api/contact] *)
Definition contactRoute (b : ContactBody.t) (now : Z) (s : St)
  : Response Ref * St :=
  if falsy (ContactBody.name b) || falsy (ContactBody.email b)
     || falsy (ContactBody.subject b) || falsy (ContactBody.message b)
  then (mkResponse 400 (JError (str "All fields are required")), s)
  else if negb (matches emailRegex (present (ContactBody.email b)))
  then (mkResponse 400 (JError (str "Invalid email format")), s)
  else
    let contactData :=
      InsertContact.mk
        (trim (present (ContactBody.name b)))
        (toLowerCase (trim (present (ContactBody.email b))))
        (trim (present (ContactBody.subject b)))
        (trim (present (ContactBody.message b))) in
    let '(contact, s') := createContact contactData now s in
    (mkResponse 200
       (JSent (str "Message sent successfully") (Contact.id contact)), s').

(** [PATCH /api/admin/contacts/:id/read] *)
Definition markReadRoute (id : Z) (s : St) : Response Ref * St :=
  (mkResponse 200 JSuccess, markContactAsRead id s).

(** The post written by [res.json(post)], called in state [s]. *)
Definition sentPost (r : Response Ref) (s : St) : option Post.t :=
  match body r with
  | JPost post => serialize s post
  | _ => None
  end.
End Routes.

(** ** The other handlers of routes.ts *)

(** The storage methods behind the update and contact-deletion handlers.
    [deleteContact] takes what the database driver reports (see
    [DatabaseStorage.deleteContact]). *)
Class IStorageRest (St Ref : Type) := {
  updatePost : Z -> PartialPost.t -> Z -> St -> Completion (option Ref) * St;
  deleteContact : (nat -> option Z) -> Z -> St -> bool * St
}.

#[global] Instance MemStorage_rest : IStorageRest MemStorage.State positive := {
  updatePost := MemStorage.updatePost;
  deleteContact := fun _ => MemStorage.deleteContact
}.

#[global] Instance DatabaseStorage_rest
  : IStorageRest DatabaseStorage.State Post.t := {
  updatePost := fun id updateData _ s =>
    DatabaseStorage.updatePost id updateData s;
  deleteContact := DatabaseStorage.deleteContact
}.

(** [process.env.ADMIN_PASSWORD || "admin123"] *)
Definition ADMIN_PASSWORD (env : option (list N)) : list N :=
  match env with
  | Some (c :: s) => c :: s
  | _ => str "admin123"
  end.

Section RoutesRest.
Context {St Ref : Type} `{!IStorageRest St Ref}.
Context {ReqBody : Type}.
Variable updatePostSchema_parse : ReqBody -> Z -> option PartialPost.t.

(** [POST /api/admin/login]. [adminPasswordSchema] accepts a body that is
    an object with a string under [password]; [password] is that string,
    or nothing for any other body. *)
Definition loginRoute (env : option (list N)) (password : option (list N))
  : Response Ref :=
  match password with
  | None => mkResponse 400 (JError (str "Invalid request"))
  | Some password =>
      if eqs password (ADMIN_PASSWORD env) then mkResponse 200 JSuccess
      else mkResponse 401 (JError (str "Invalid password"))
  end.

(** [PUT /api/admin/posts/:id]; the body is parsed together with the id
    of the path. *)
Definition updatePostRoute (reqBody : ReqBody) (id : Z) (now : Z) (s : St)
  : Response Ref * St :=
  match updatePostSchema_parse reqBody id with
  | None => (mkResponse 400 (JInvalid (str "Invalid post data")), s)
  | Some postData =>
      match updatePost id postData now s with
      | (Thrown, s') =>
          (mkResponse 500 (JError (str "Failed to update post")), s')
      | (Returned None, s') =>
          (mkResponse 404 (JError (str "Post not found")), s')
      | (Returned (Some updatedPost), s') =>
          (mkResponse 200 (JPost updatedPost), s')
      end
  end.

(** [DELETE /api/admin/contacts/:id] *)
Definition deleteContactRoute (rowCount : nat -> option Z) (id : Z) (s : St)
  : Response Ref * St :=
  let '(success, s') := deleteContact rowCount id s in
  if success then (mkResponse 200 JSuccess, s')
  else (mkResponse 404 (JError (str "Contact not found")), s').
End RoutesRest.

(** ** The contact form (client/src/pages/contact.tsx) *)

Module ContactFormData.
Record t := mk {
  name : list N;
  email : list N;
  subject : list N;
  message : list N
}.
End ContactFormData.

(** What [handleSubmit] ends in: a toast, or the request. *)
Inductive Submission :=
| Toast (title : list N)
| Mutate (data : ContactFormData.t).

Definition handleSubmit (formData : ContactFormData.t) : Submission :=
  if isEmpty (trim (ContactFormData.name formData))
     || isEmpty (trim (ContactFormData.email formData))
     || isEmpty (trim (ContactFormData.subject formData))
     || isEmpty (trim (ContactFormData.message formData))
  then Toast (str "Please fill in all fields")
  else if negb (matches emailRegex (ContactFormData.email formData))
  then Toast (str "Invalid email address")
  else Mutate formData.

(** The body the server reads from [JSON.stringify(data)]. *)
Definition requestBody (data : ContactFormData.t) : ContactBody.t :=
  ContactBody.mk (Some (ContactFormData.name data))
    (Some (ContactFormData.email data))
    (Some (ContactFormData.subject data))
    (Some (ContactFormData.message data)).

(** * The properties, as definitions

    What the specification says of the handlers and of the parsers, stated
    over the definitions above. *)

(** ** The specification's words for the front matter *)

(** The text of a line before its first colon, and after it. *)
Definition keyOf (line : list N) : list N :=
  takeWhile (fun c => negb (c =? COLON)%N) line.

Definition valueOf (line : list N) : list N :=
  tail (dropWhile (fun c => negb (c =? COLON)%N) line).

(** The lines up to the next delimiter line, and the lines after it. *)
Fixpoint untilDelimiter (lines : list (list N))
  : option (list (list N) * list (list N)) :=
  match lines with
  | [] => None
  | l :: ls =>
      if eqs l (str "---") then Some ([], ls)
      else match untilDelimiter ls with
           | Some (header, body) => Some (l :: header, body)
           | None => None
           end
  end.

(** The header lines and the body lines of a content, when it starts with
    a delimiter line that a later delimiter line closes. *)
Definition frontmatterOf (content : list N)
  : option (list (list N) * list (list N)) :=
  match split NL content with
  | first :: rest =>
      if eqs first (str "---") then untilDelimiter rest else None
  | [] => None
  end.

(** Whole content as body and default metadata without a front matter;
    otherwise each header line, cut at its first colon, assigns its value to
    the known key it names, and other keys are passed over. Keys and values
    are compared and stored without the white space around them; the
    excerpt's default is a parameter. *)
Definition frontmatter_spec (defaultExcerpt content : list N) : Parsed.t :=
  let defaults :=
    Parsed.mk (str "Untitled") defaultExcerpt (str "5 min read")
      (str "General") [] (str "published") content in
  match frontmatterOf content with
  | None => defaults
  | Some (header, body) =>
      fold_left
        (fun r line =>
           MemStorage.setField (trim (keyOf line)) (trim (valueOf line)) r)
        header
        (Parsed.with_markdown (join [NL] body) defaults)
  end.

(** One header line, as [frontmatter_spec] takes it. *)
Definition specStep (r : Parsed.t) (line : list N) : Parsed.t :=
  MemStorage.setField (trim (keyOf line)) (trim (valueOf line)) r.

(** The first line of a body that is not blank. *)
Definition firstNonBlank (body : list N) : option (list N) :=
  List.find (fun line => negb (isEmpty (trim line))) (split NL body).

(** The excerpt the specification gives a file without one. *)
Definition excerpt_spec (body : list N) : list N :=
  match firstNonBlank body with
  | Some line => substring0 150 line ++ str "..."
  | None => []
  end.

(** The callback of [findIndex] in [MemStorage.parseMarkdownFile]. *)
Definition isClosing (line : list N) (index : nat) : bool :=
  (0 <? index)%nat && eqs line (str "---").

(** ** Headers [DatabaseStorage] reads line by line *)

Definition knownKeys : list (list N) :=
  [ str "title"; str "excerpt"; str "readTime"; str "category"; str "tags";
    str "status" ].

Definition notTerminator (c : N) : bool := negb (isLineTerminator c).

Definition notBlank (s : list N) : bool :=
  existsb (fun c => negb (isSpace c)) s.

(** A header line is regular when it holds no line terminator, is not a
    delimiter and, if it begins with a known key and a colon, goes on with
    something else than white space. *)
Definition regularLine (l : list N) : bool :=
  forallb notTerminator l
  && negb (eqs l (str "---"))
  && forallb (fun key => match stripPrefix (key ++ [COLON]) l with
                         | Some rest => notBlank rest
                         | None => true
                         end) knownKeys.

(** A file made of a header and a body. *)
Definition withHeader (header : list (list N)) (body : list N) : list N :=
  (str "---" ++ [NL]) ++ join [NL] header ++ ([NL] ++ str "---" ++ [NL]) ++ body.

(** What follows [lit] on the first line that begins with it. *)
Fixpoint firstWith (lit : list N) (header : list (list N))
  : option (list N) :=
  match header with
  | [] => None
  | l :: ls =>
      match stripPrefix lit l with
      | Some rest => Some rest
      | None => firstWith lit ls
      end
  end.

Definition headerValue (key defaultValue : list N) (header : list (list N))
  : list N :=
  match firstWith (key ++ [COLON]) header with
  | Some rest => trim rest
  | None => defaultValue
  end.

Definition fromHeader (header : list (list N)) (body : list N) : Parsed.t :=
  let tagsStr := headerValue (str "tags") [] header in
  Parsed.mk
    (headerValue (str "title") (str "Untitled") header)
    (headerValue (str "excerpt") (str "No excerpt available") header)
    (headerValue (str "readTime") (str "5 min read") header)
    (headerValue (str "category") (str "General") header)
    (if isEmpty tagsStr then [] else List.map trim (split COMMA tagsStr))
    (headerValue (str "status") (str "published") header)
    body.

(** The text that follows a line in the joined header: nothing, or a line
    feed and the other lines. *)
Definition lineEnd (t : list N) : Prop := t = [] \/ exists t', t = NL :: t'.

(** The closing delimiter as the pattern of [DatabaseStorage] wants it. *)
Definition closing : list N := [NL] ++ str "---" ++ [NL].

(** What the pattern of [parseValue] needs of a header line, for the key
    and colon [lit]. *)
Definition readable (lit l : list N) : Prop :=
  forallb notTerminator l = true /\
  forall rest, stripPrefix lit l = Some rest -> notBlank rest = true.

(** At most one line of the header begins with [lit]. *)
Fixpoint atMostOne (lit : list N) (header : list (list N)) : bool :=
  match header with
  | [] => true
  | l :: ls =>
      match stripPrefix lit l with
      | Some _ =>
          forallb (fun l' => bool_decide (stripPrefix lit l' = None)) ls
      | None => atMostOne lit ls
      end
  end.

(** A line that names a known key, white space around the key apart,
    begins with that key and a colon. *)
Definition strictLine (l : list N) : bool :=
  forallb (fun key =>
             negb (eqs (trim (keyOf l)) key)
             || negb (bool_decide (stripPrefix (key ++ [COLON]) l = None)))
    knownKeys.

(** A header both parsers read alike: of strict lines, with each known key
    on one line at most, and without an empty item among the tags. *)
Definition strictHeader (header : list (list N)) : bool :=
  forallb strictLine header
  && forallb (fun key => atMostOne (key ++ [COLON]) header) knownKeys
  && forallb (fun tag => negb (isEmpty tag))
       (Parsed.tags (fromHeader header [])).

(** ** Runs of characters *)

(** [s] is empty or starts with a character outside [f]. *)
Definition startsWithout (f : N -> bool) (s : list N) : Prop :=
  match s with
  | [] => True
  | c :: _ => f c = false
  end.

(** ** E-mail addresses *)

(** The part of an address that follows its first [@]. *)
Definition afterAt (e : list N) : list N :=
  tail (dropWhile (fun c => negb (c =? AT)%N) e).

(** ** The slug in the words of the specification *)

Definition among (l : list N) (c : N) : bool := existsb (N.eqb c) l.

(** The word characters: the letters of the alphabet, the digits and the
    underscore. *)
Definition wordCharacters : list N :=
  str "ABCDEFGHIJKLMNOPQRSTUVWXYZabcdefghijklmnopqrstuvwxyz0123456789_".

(** White space: tab, line feed, vertical tab, form feed, carriage return,
    space, no-break space, the space separators of Unicode, the line and
    paragraph separators and the byte order mark. *)
Definition whiteSpace : list N :=
  [ 0x09; 0x0A; 0x0B; 0x0C; 0x0D; 0x20; 0xA0; 0x1680; 0x2000; 0x2001;
    0x2002; 0x2003; 0x2004; 0x2005; 0x2006; 0x2007; 0x2008; 0x2009; 0x200A;
    0x2028; 0x2029; 0x202F; 0x205F; 0x3000; 0xFEFF ]%N.

(** [s] with every run of characters of [inRun] replaced by one hyphen,
    put where the run starts; [inside] tells that the character before was
    of a run. *)
Fixpoint squeezeFrom (inRun : N -> bool) (inside : bool) (s : list N)
  : list N :=
  match s with
  | [] => []
  | c :: s' =>
      if inRun c
      then if inside then squeezeFrom inRun true s'
           else HYPHEN :: squeezeFrom inRun true s'
      else c :: squeezeFrom inRun false s'
  end.

Definition runsToHyphen (inRun : N -> bool) (s : list N) : list N :=
  squeezeFrom inRun false s.

(** The title in lower case, without the characters that are not word
    characters, white space or hyphens, with each run of white space
    replaced by one hyphen, and then each run of hyphens by one hyphen. *)
Definition derivedSlug (toLowerCase : list N -> list N) (title : list N)
  : list N :=
  runsToHyphen (N.eqb HYPHEN)
    (runsToHyphen (among whiteSpace)
       (List.filter
          (fun c => among wordCharacters c || among whiteSpace c
                    || (c =? HYPHEN)%N)
          (toLowerCase title))).

(** ** View counts *)

Definition bumpBy (n : Z) (p : Post.t) : Post.t :=
  Post.with_viewCount (Post.viewCount p + n) p.

Definition bump (p : Post.t) : Post.t := bumpBy 1 p.


(** [posts] is [pre], then [p], then [suf], and [p] is the first post under
    [slug]. *)
Definition firstUnder (slug : list N) (posts pre : list Post.t) (p : Post.t)
  (suf : list Post.t) : Prop :=
  posts = pre ++ p :: suf /\
  List.Forall (fun q => Post.slug q <> slug) pre /\
  Post.slug p = slug.

(** A post after an increment under [slug]: left alone, or counted once more
    when it is under [slug]. *)
Definition sameOrBumped (slug : list N) (q q' : Post.t) : Prop :=
  q' = q \/ (Post.slug q = slug /\ q' = bump q).

(** Every entry of the posts map of [MemStorage] refers to an object. *)
Definition noDangling (s : MemStorage.State) : Prop :=
  forall l, In l (JSMap.values (MemStorage.posts s)) ->
            is_Some (MemStorage.postObjs s !! l).

Section Stored.
Context {St Ref : Type} `{!IStorage St Ref}.

(** Each slug of the store belongs to one post. *)
Definition uniqueSlugs (s : St) : Prop :=
  List.NoDup (List.map Post.slug (allPosts s)).

(** Whether the mirror file of [slug] can be written in state [s]. *)
Definition savable (slug : list N) (s : St) : bool :=
  Fs.canWrite (mirrorPath (postsDir s) slug) (mirror s).

(** The mirror file of [slug] as it is read in state [s]. *)
Definition mirrorFile (slug : list N) (s : St) : option (list N) :=
  Fs.readFile (mirrorPath (postsDir s) slug) (mirror s).
End Stored.

(** What the handlers rely on, stated once for both storages; [mirrored]
    tells whether the storage writes the mirror file when it counts a
    view. *)
Class ViewCounting (St Ref : Type) `{!IStorage St Ref} (mirrored : bool)
  : Prop := {
  found_stored : forall slug (s : St) r,
    getPostBySlug slug s = Some r ->
    exists p, serialize s r = Some p /\ In p (allPosts s)
              /\ Post.slug p = slug;
  absent_none : forall slug (s : St),
    getPostBySlug slug s = None ->
    List.Forall (fun q => Post.slug q <> slug) (allPosts s);
  taken_found : forall slug (s : St) p,
    In p (allPosts s) -> Post.slug p = slug ->
    exists r, getPostBySlug slug s = Some r;
  increment_counts : forall slug (s : St) p rest,
    uniqueSlugs s -> allPosts s ≡ₚ p :: rest -> Post.slug p = slug ->
    allPosts (incrementViewCount slug s).2 ≡ₚ bump p :: rest;
  increment_completes : forall slug (s : St) r,
    getPostBySlug slug s = Some r ->
    (incrementViewCount slug s).1
    = if negb mirrored || savable slug s then Returned () else Thrown
}.

(** ** Contacts *)

Definition asRead (c : Contact.t) : Contact.t :=
  Contact.with_status (str "read") c.

(** [c'] is [c] once read: its status is [read], and the rest of it is the
    rest of [c]. *)
Definition readVersionOf (c c' : Contact.t) : Prop :=
  Contact.status c' = str "read" /\
  Contact.id c' = Contact.id c /\
  Contact.name c' = Contact.name c /\
  Contact.email c' = Contact.email c /\
  Contact.subject c' = Contact.subject c /\
  Contact.message c' = Contact.message c /\
  Contact.createdAt c' = Contact.createdAt c.

(** A contact after [markContactAsRead id]. *)
Definition readIf (id : Z) (c : Contact.t) : Contact.t :=
  if (Contact.id c =? id)%Z then asRead c else c.

(** ** What the handlers do *)

Section Outcomes.
Context {St Ref : Type} `{!IStorage St Ref}.
Variable toLowerCase : list N -> list N.

(** The slug a creation request asks for: the one given or, without one,
  the one the handler derives from the title. *)
Definition requestedSlug (parsed : InsertPost.t) : list N :=
  if isEmpty (InsertPost.slug parsed)
  then slugify toLowerCase (InsertPost.title parsed)
  else InsertPost.slug parsed.

Definition slugTaken (slug : list N) (s : St) : Prop :=
  exists post, In post (allPosts s) /\ Post.slug post = slug.

(** The refusal of a creation: 400, the error message, and the state as it
  was. *)
Definition refusedDuplicate (s : St) (out : Response Ref * St) : Prop :=
  out.1 = mkResponse 400 (JError (str "Post with this slug already exists"))
  /\ out.2 = s
  /\ (uniqueSlugs s -> uniqueSlugs out.2).

(** What the creation handler answers to a valid body without a slug,
  [slug] being the slug of the specification. When a post is under it, a
  refusal that leaves the state alone. Otherwise a post is stored under
  it; when its mirror file can be written the answer is 200 and carries
  that post, and when it cannot the answer is 500, the post staying
  stored. *)
Definition createsDerived (title : list N) (s : St)
  (out : Response Ref * St) : Prop :=
  let slug := derivedSlug toLowerCase title in
  match getPostBySlug slug s with
  | Some _ => statusCode out.1 = 400%Z /\ out.2 = s
  | None =>
      exists post,
        In post (allPosts out.2) /\ Post.slug post = slug /\
        Post.title post = title /\
        if savable slug s
        then statusCode out.1 = 200%Z /\ sentPost out.1 out.2 = Some post
        else statusCode out.1 = 500%Z
  end.

(** The state after [n] requests for the same slug in a row. *)
Definition fetchTimes (n : nat) (slug : list N) (s : St) : St :=
  Nat.iter n (fun s => (getPostRoute slug s).2) s.



(** What a deletion request for [id] does in state [s]. *)
Definition deleteOutcome (id : Z) (s : St) : Prop :=
  match findPost id s with
  | Some post =>
      (deletePostRoute id s).1 = mkResponse 200 JSuccess /\
      findPost id (deletePostRoute id s).2 = None /\
      (forall k, k <> id ->
                 findPost k (deletePostRoute id s).2 = findPost k s) /\
      mirrorFile (Post.slug post) (deletePostRoute id s).2 = None /\
      (forall path,
          Fs.locate path
          <> Fs.locate (mirrorPath (postsDir s) (Post.slug post)) ->
          Fs.readFile path (mirror (deletePostRoute id s).2)
          = Fs.readFile path (mirror s))
  | None =>
      deletePostRoute id s
      = (mkResponse 404 (JError (str "Post not found")), s)
  end.

(** Marking twice is marking once, for the storage and for the handler;
  a contact found under [id] is afterwards found with the status [read],
  and with its other fields as they were. *)
Definition marksReadOnce (id : Z) (s : St) : Prop :=
  markContactAsRead id (markContactAsRead id s) = markContactAsRead id s /\
  markReadRoute id (markReadRoute id s).2 = markReadRoute id s /\
  match findContact id s with
  | Some c =>
      exists c', findContact id (markContactAsRead id s) = Some c' /\
                 readVersionOf c c'
  | None => True
  end.

(** The handler answers success whether or not a contact is found; when
  none is, the state is the one before. *)
Definition marksAbsent (id : Z) (s : St) : Prop :=
  (markReadRoute id s).1 = mkResponse 200 JSuccess /\
  match findContact id s with
  | Some _ => True
  | None => (markReadRoute id s).2 = s
  end.
End Outcomes.

(** ** Sample states and inputs *)

Module Sample.
(** A disk that holds the directory of the posts, empty. *)
Definition postsDir : Path.t := [str "app"; str "posts"].

Definition disk : Fs.t := Fs.mk (list_to_set (Fs.ancestors postsDir)) ∅.

Definition memEmpty : MemStorage.State :=
  MemStorage.mkState ∅ ∅ [] [] 1 1 postsDir disk.

Definition dbEmpty : DatabaseStorage.State :=
  DatabaseStorage.mkState [] [] 1 1 postsDir disk.

Definition hello : InsertPost.t :=
  InsertPost.mk (str "Hello, World") (str "hello") (str "Some text")
    None None None None None.

Definition memOne : MemStorage.State :=
  (MemStorage.createPost hello 0 memEmpty).2.

Definition dbOne : DatabaseStorage.State :=
  (DatabaseStorage.createPost hello 0 dbEmpty).2.

(** The post both stores hold after that creation. *)
Definition helloPost : Post.t :=
  Post.mk 1 (str "Hello, World") (str "hello") (str "Some text")
    None None None None (str "published") 0 0 0.

(** Bodies without a slug: the first derives the slug of [hello]. *)
Definition helloAgain : InsertPost.t :=
  InsertPost.mk (str "Hello!") [] (str "Other text") None None None None None.

Definition untitled : InsertPost.t :=
  InsertPost.mk (str "Hello,  World") [] (str "Some text")
    None None None None None.

Definition ann : InsertContact.t :=
  InsertContact.mk (str "Ann") (str "ann@example.org") (str "Hi")
    (str "A message").

Definition memContact : MemStorage.State :=
  (MemStorage.createContact ann 0 memEmpty).2.

Definition dbContact : DatabaseStorage.State :=
  (DatabaseStorage.createContact ann 0 dbEmpty).2.

Definition noAt : ContactBody.t :=
  ContactBody.mk (Some (str "Ann")) (Some (str "ann.example.org"))
    (Some (str "Hi")) (Some (str "A message")).

Definition goodMail : ContactBody.t :=
  ContactBody.mk (Some (str " Ann ")) (Some (str "Ann@Example.org"))
    (Some (str "Hi")) (Some (str "A message")).

Definition file : list N :=
  join [NL]
    [ str "---"; str "title: Hello: World"; str "tags: a, b,, c ";
      str "status:draft"; str "---"; str ""; str "First line"; str "more" ].

Definition header : list (list N) :=
  [ str "title: Hello: World"; str "tags: a, b"; str "note: kept out" ].
End Sample.

(** ** Orders of the listings *)

(** No element has a smaller [key] than a later one. *)
Definition descending {A} (key : A -> Z) (l : list A) : Prop :=
  StronglySorted (fun a b => (key b <= key a)%Z) l.

(** The comparator that puts the larger [key] first. *)
Definition largestFirst {A} (key : A -> Z) (a b : A) : Z :=
  (key b - key a)%Z.

(** ** Slugs and file names *)

(** Nothing but letters, digits, underscores and hyphens. *)
Definition urlSafe (s : list N) : Prop :=
  Forall (fun c => isWord c = true \/ c = HYPHEN) s.

(** Two hyphens in a row somewhere in [s]. *)
Fixpoint hyphenPair (s : list N) : bool :=
  match s with
  | [] => false
  | c :: s' =>
      match s' with
      | c' :: _ => ((c =? HYPHEN)%N && (c' =? HYPHEN)%N) || hyphenPair s'
      | [] => false
      end
  end.

(** ** Searching *)

(** The test of [MemStorage.searchPosts] on one post, for a search term
    already in lower case. *)
Definition mentions (toLowerCase : list N -> list N) (searchTerm : list N)
  (post : Post.t) : bool :=
  includes (toLowerCase (Post.title post)) searchTerm
  || includes (toLowerCase (Post.content post)) searchTerm
  || match Post.excerpt post with
     | Some excerpt => includes (toLowerCase excerpt) searchTerm
     | None => false
     end.

(** ** The maps of [MemStorage] *)

(** An entry of a map of [MemStorage] as the class keeps it: its key is
    below the next id, and it refers to an object that carries the key as
    its id. *)
Definition entryOf {V} (idOf : V -> Z) (objs : gmap positive V) (next : Z)
  (e : Z * positive) : Prop :=
  (e.1 < next)%Z /\ exists v, objs !! e.2 = Some v /\ idOf v = e.1.

(** A map in order: no key twice, no object under two keys, and every
    entry as above. *)
Definition mapInOrder {V} (idOf : V -> Z) (objs : gmap positive V) (next : Z)
  (m : list (Z * positive)) : Prop :=
  List.NoDup (List.map fst m) /\ List.NoDup (JSMap.values m)
  /\ List.Forall (entryOf idOf objs next) m.

Definition inOrder (s : MemStorage.State) : Prop :=
  mapInOrder Post.id (MemStorage.postObjs s) (MemStorage.currentPostId s)
    (MemStorage.posts s)
  /\ mapInOrder Contact.id (MemStorage.contactObjs s)
       (MemStorage.currentContactId s) (MemStorage.contacts s).

(** ** Contacts, continued *)

(** The contact the handler of [POST /api/contact] hands to the storage,
    as the storage keeps it under [id]. *)
Definition storedContact (toLowerCase : list N -> list N)
  (b : ContactBody.t) (id now : Z) : Contact.t :=
  Contact.mk id (trim (present (ContactBody.name b)))
    (toLowerCase (present (ContactBody.email b)))
    (trim (present (ContactBody.subject b)))
    (trim (present (ContactBody.message b)))
    (str "unread") now.

Definition notUnder (id : Z) (c : Contact.t) : bool :=
  negb (Contact.id c =? id)%Z.

(** What a deletion request for the contact [id] does in state [s]. *)
Definition contactDeleted {St Ref : Type} `{!IStorage St Ref}
  `{!IStorageRest St Ref} (rowCount : nat -> option Z) (id : Z) (s : St)
  : Prop :=
  match findContact id s with
  | Some _ =>
      (deleteContactRoute rowCount id s).1 = mkResponse 200 JSuccess /\
      findContact id (deleteContactRoute rowCount id s).2 = None /\
      (forall k, k <> id ->
                 findContact k (deleteContactRoute rowCount id s).2
                 = findContact k s)
  | None =>
      deleteContactRoute rowCount id s
      = (mkResponse 404 (JError (str "Contact not found")), s)
  end.

(** A driver whose results carry the number of rows touched as
    [rowCount], and one whose results have no such property. *)
Definition reportsRows (rowCount : nat -> option Z) : Prop :=
  forall n, rowCount n = Some (Z.of_nat n).

Definition reportsNothing (rowCount : nat -> option Z) : Prop :=
  forall n, rowCount n = None.

(** ** Updating a post *)

(** [p'] is [p] after the update [u]: a key that [u] gives replaces the
    column it names, and the other columns, the id, the view count and the
    creation time are those of [p]. *)
Definition updatedFrom (u : PartialPost.t) (p p' : Post.t) : Prop :=
  Post.id p' = Post.id p /\
  Post.title p' = default (Post.title p) (PartialPost.title u) /\
  Post.slug p' = default (Post.slug p) (PartialPost.slug u) /\
  Post.content p' = default (Post.content p) (PartialPost.content u) /\
  Post.excerpt p' = default (Post.excerpt p) (PartialPost.excerpt u) /\
  Post.readTime p' = default (Post.readTime p) (PartialPost.readTime u) /\
  Post.category p' = default (Post.category p) (PartialPost.category u) /\
  Post.tags p' = default (Post.tags p) (PartialPost.tags u) /\
  Post.status p' = default (Post.status p) (PartialPost.status u) /\
  Post.viewCount p' = Post.viewCount p /\
  Post.createdAt p' = Post.createdAt p.

(** What an update request that finds the post [p] under [id] does in
    state [s], [stamp] being the time of update the post ends with. The
    post as updated is the post found under the id afterwards, and the
    other posts are found as before. When the mirror file of the slug it
    now carries can be written, the answer is 200 and carries it, and the
    file holds its text, the other files being as they were; when the file
    cannot be written, the answer is 500 and the files are as they
    were. *)
Definition updatedTo {St Ref : Type} `{!IStorage St Ref}
  `{!IStorageRest St Ref} (id : Z) (u : PartialPost.t) (stamp : Z)
  (p : Post.t) (s : St) (out : Response Ref * St) : Prop :=
  exists p',
    updatedFrom u p p' /\ Post.updatedAt p' = stamp /\
    findPost id out.2 = Some p' /\
    (forall k q, k <> id -> findPost k s = Some q ->
                 findPost k out.2 = Some q) /\
    postsDir out.2 = postsDir s /\
    if savable (Post.slug p') s
    then
      statusCode out.1 = 200%Z /\ sentPost out.1 out.2 = Some p' /\
      mirrorFile (Post.slug p') out.2 = Some (toWellFormed (renderPost p'))
      /\ (forall path,
             Fs.locate path
             <> Fs.locate (mirrorPath (postsDir s) (Post.slug p')) ->
             Fs.readFile path (mirror out.2) = Fs.readFile path (mirror s))
    else
      out.1 = mkResponse 500 (JError (str "Failed to update post")) /\
      mirror out.2 = mirror s.

(** The slugs [a] and [b] name two files in state [s]. *)
Definition otherFile {St Ref : Type} `{!IStorage St Ref} (a b : list N)
  (s : St) : Prop :=
  Fs.locate (mirrorPath (postsDir s) a)
  <> Fs.locate (mirrorPath (postsDir s) b).

(** What an update that gives the post under [id] the slug [slug'] does to
    the mirror, [old] being the slug the post had: the file of [old] is as
    it was; the post is found under its new slug, whose file holds its
    text when it can be written (200), and is as it was when it cannot
    (500). *)
Definition renamedTo {St Ref : Type} `{!IStorage St Ref}
  `{!IStorageRest St Ref} (id : Z) (old slug' : list N) (s : St)
  (out : Response Ref * St) : Prop :=
  mirrorFile old out.2 = mirrorFile old s /\
  exists p',
    findPost id out.2 = Some p' /\ Post.slug p' = slug' /\
    if savable slug' s
    then statusCode out.1 = 200%Z /\
         mirrorFile slug' out.2 = Some (toWellFormed (renderPost p'))
    else statusCode out.1 = 500%Z /\
         mirrorFile slug' out.2 = mirrorFile slug' s.

(** Two ids under which posts of one slug are found. *)
Definition sharedSlug {St Ref : Type} `{!IStorage St Ref} (id1 id2 : Z)
  (s : St) : Prop :=
  exists q1 q2, findPost id1 s = Some q1 /\ findPost id2 s = Some q2
                /\ Post.slug q1 = Post.slug q2.

(** ** Loading the mirror at start *)

(** Every file of the listing can be read in the directory [dir]. *)
Definition readableIn (dir : Path.t) (fs : Fs.t) (listing : list (list N))
  : Prop :=
  List.Forall (fun file => is_Some (Fs.readFile (Path.join dir file) fs))
    listing.

Definition markdownFiles (listing : list (list N)) : list (list N) :=
  List.filter (fun file => endsWith file (str ".md")) listing.

(** The posts [MemStorage] makes of the files [files] of the directory
    [dir], numbered from [first], the [i]-th at the time [clock i]. *)
Definition bootPosts (dir : Path.t) (fs : Fs.t) (clock : nat -> Z)
  (first : Z) (files : list (list N)) : list Post.t :=
  imap (fun i file =>
          loadedPost (first + Z.of_nat i) (fileSlug file)
            (MemStorage.parseMarkdownFile
               (default [] (Fs.readFile (Path.join dir file) fs)))
            (clock i))
    files.

(** A row the import has added to the state [s]: counted from zero, under
    a slug that [s] did not have. *)
Definition imported (s : DatabaseStorage.State) (q : Post.t) : Prop :=
  Post.viewCount q = 0%Z /\ DatabaseStorage.getPostBySlug (Post.slug q) s = None.

(** ** Statistics *)

(** The views of a post as the statistics count them. *)
Definition views (p : Post.t) : Z := orZero (Post.viewCount p).

(** What the numbers and the top list of the statistics are to the posts
    they are taken from: the counts fit together, the top list holds at
    most five posts, all of them published, most viewed first, and no
    published post left out has more views than one of the list. *)
Definition statsOf (posts : list Post.t) (st : PostStats.t) : Prop :=
  PostStats.totalPosts st = length posts
  /\ (PostStats.publishedPosts st + PostStats.draftPosts st
      <= PostStats.totalPosts st)%nat
  /\ (PostStats.thisMonthPosts st <= PostStats.totalPosts st)%nat
  /\ length (PostStats.topPosts st) = Nat.min 5 (PostStats.publishedPosts st)
  /\ descending views (PostStats.topPosts st)
  /\ exists rest,
       List.filter isPublished posts ≡ₚ PostStats.topPosts st ++ rest
       /\ List.Forall
            (fun r => List.Forall (fun t => (views r <= views t)%Z)
                        (PostStats.topPosts st)) rest.

(** Every tag of every post, in order, with repetitions. *)
Definition allTags (posts : list Post.t) : list (list N) :=
  List.concat (List.map (fun p => default [] (Post.tags p)) posts).

Definition occurrences (tag : list N) (tags : list (list N)) : nat :=
  length (List.filter (eqs tag) tags).

(** The entry of a tag that occurs [n] times: none, or the number. *)
Definition counted (n : nat) : option Count :=
  match n with
  | O => None
  | S _ => Some (Num (Z.of_nat n))
  end.

(** ** A post written to the mirror and read back *)

(** The six values of the front matter [savePostToFile] writes. *)
Definition fieldsOf (post : Post.t) : list (list N) :=
  [ Post.title post; showNullable (Post.excerpt post);
    showNullable (Post.readTime post); showNullable (Post.category post);
    showTags (Post.tags post); Post.status post ].

(** The lines of that front matter. *)
Definition headerOf (post : Post.t) : list (list N) :=
  [ str "title: " ++ Post.title post;
    str "excerpt: " ++ showNullable (Post.excerpt post);
    str "readTime: " ++ showNullable (Post.readTime post);
    str "category: " ++ showNullable (Post.category post);
    str "tags: " ++ showTags (Post.tags post);
    str "status: " ++ Post.status post ].

(** A value that stays on its line, and one that moreover is not blank. *)
Definition singleLine (s : list N) : bool := forallb notTerminator s.

Definition plainField (s : list N) : bool := singleLine s && notBlank s.

(** What is read back of the post, [tags] being the tags as read: the
    values without the white space around them, null as the word [null],
    and the content behind one more line feed. *)
Definition readBack (post : Post.t) (tags : list (list N)) : Parsed.t :=
  Parsed.mk (trim (Post.title post))
    (trim (showNullable (Post.excerpt post)))
    (trim (showNullable (Post.readTime post)))
    (trim (showNullable (Post.category post)))
    tags
    (trim (Post.status post))
    (NL :: Post.content post).

(** The items of the tags line, trimmed. *)
Definition tagItems (post : Post.t) : list (list N) :=
  List.map trim (split COMMA (trim (showTags (Post.tags post)))).

(** ** More sample states and inputs *)

Module Case.
(** A second post, a draft with tags. *)
Definition news : InsertPost.t :=
  InsertPost.mk (str "News") (str "news") (str "Line one")
    (Some (str "What is new")) (Some (str "1 min read")) (Some (str "Site"))
    (Some [str "a"; str "b"]) (Some (str "draft")).

Definition memTwo : MemStorage.State :=
  (MemStorage.createPost news 3 Sample.memOne).2.

Definition dbTwo : DatabaseStorage.State :=
  (DatabaseStorage.createPost news 3 Sample.dbOne).2.

Definition newsPost : Post.t :=
  Post.mk 2 (str "News") (str "news") (str "Line one")
    (Some (str "What is new")) (Some (str "1 min read")) (Some (str "Site"))
    (Some [str "a"; str "b"]) (str "draft") 0 3 3.

(** A post under a tag that every object inherits. *)
Definition odd : InsertPost.t :=
  InsertPost.mk (str "Odd") (str "odd") (str "Text") None None None
    (Some [str "constructor"; str "a"]) None.

Definition dbOdd : DatabaseStorage.State :=
  (DatabaseStorage.createPost odd 4 dbTwo).2.

(** The names of [Object.prototype], two of them, with the text of their
    values. *)
Definition inherited (name : list N) : option (list N) :=
  if eqs name (str "constructor")
  then Some (str "function Object() { [native code] }")
  else if eqs name (str "__proto__") then Some (str "[object Object]")
  else None.

(** Bodies of update requests, taken as already parsed. *)
Definition parse (body : PartialPost.t) (id : Z) : option PartialPost.t :=
  Some body.

Definition rename : PartialPost.t :=
  PartialPost.mk None (Some (str "renamed")) None None None None None None.

(** A slug that names the file of [hello] once more, and one that names
    no file of the directory. *)
Definition sameFile : PartialPost.t :=
  PartialPost.mk None (Some (str "./hello")) None None None None None None.

Definition noFile : PartialPost.t :=
  PartialPost.mk None (Some (str "a/b")) None None None None None None.

(** Bodies of creation requests: a slug with a slash, and a title of 260
    letters. *)
Definition slashed : InsertPost.t :=
  InsertPost.mk (str "Slashed") (str "a/b") (str "Text") None None None None
    None.

Definition longTitle : InsertPost.t :=
  InsertPost.mk (List.repeat 97%N 260) [] (str "Text") None None None None
    None.

Definition toNews : PartialPost.t :=
  PartialPost.mk None (Some (str "news")) None None None None None None.

(** The working directory of the server. *)
Definition cwd : Path.t := [str "app"].

(** The directory of the posts with one markdown file and one other
    file. *)
Definition dir : Fs.t :=
  Fs.mk (Fs.dirs Sample.disk)
    (<[Sample.postsDir ++ [str "hello.md"] := Sample.file]>
       (<[Sample.postsDir ++ [str "notes.txt"] := str "Notes"]> ∅)).

Definition listing : list (list N) := [str "hello.md"; str "notes.txt"].

Definition clock (i : nat) : Z := (10 + Z.of_nat i)%Z.


(** The contact form, filled in. *)
Definition form : ContactFormData.t :=
  ContactFormData.mk (str " Ann ") (str "Ann@Example.org") (str "Hi")
    (str "A message").

(** A form the client refuses and the server would take. *)
Definition blankName : ContactFormData.t :=
  ContactFormData.mk (str "  ") (str "ann@example.org") (str "Hi")
    (str "A message").

(** Drivers: one that reports the rows touched, one that does not. *)
Definition countingDriver (n : nat) : option Z := Some (Z.of_nat n).
Definition silentDriver (n : nat) : option Z := None.
End Case.
(** * Properties *)

(** ** Files *)

Lemma writeFile_canWrite (path : Path.t) (data : list N) (fs : Fs.t) :
  Fs.writeFile path data fs
  = if Fs.canWrite path fs
    then Some (Fs.mk (Fs.dirs fs)
                 (<[Fs.locate path := toWellFormed data]> (Fs.files fs)))
    else None.
Proof. reflexivity. Qed.

Lemma canWrite_pathOk (path : Path.t) (fs : Fs.t) :
  Fs.canWrite path fs = true -> Fs.pathOk path = true.
Proof.
  unfold Fs.canWrite. intros H.
  apply andb_true_iff in H as [H _]. now apply andb_true_iff in H as [H _].
Qed.

(** Whether a write goes through depends on the directories alone. *)
Lemma canWrite_dirs (path : Path.t) (fs fs' : Fs.t) :
  Fs.dirs fs' = Fs.dirs fs -> Fs.canWrite path fs' = Fs.canWrite path fs.
Proof. unfold Fs.canWrite. now intros ->. Qed.

Lemma readFile_written (path : Path.t) (data : list N) (fs fs' : Fs.t) :
  Fs.writeFile path data fs = Some fs' ->
  Fs.readFile path fs' = Some (toWellFormed data).
Proof.
  unfold Fs.writeFile. destruct (Fs.canWrite path fs) eqn:E; [|discriminate].
  intros [= <-]. unfold Fs.readFile. rewrite (canWrite_pathOk _ _ E).
  apply lookup_insert_eq.
Qed.

Lemma readFile_write_other (path other : Path.t) (data : list N)
  (fs fs' : Fs.t) :
  Fs.writeFile path data fs = Some fs' ->
  Fs.locate other <> Fs.locate path ->
  Fs.readFile other fs' = Fs.readFile other fs.
Proof.
  unfold Fs.writeFile. destruct (Fs.canWrite path fs); [|discriminate].
  intros [= <-] Hne. unfold Fs.readFile.
  destruct (Fs.pathOk other); [|reflexivity].
  apply lookup_insert_ne. congruence.
Qed.

Lemma dirs_written (path : Path.t) (data : list N) (fs fs' : Fs.t) :
  Fs.writeFile path data fs = Some fs' -> Fs.dirs fs' = Fs.dirs fs.
Proof.
  unfold Fs.writeFile. destruct (Fs.canWrite path fs); [|discriminate].
  now intros [= <-].
Qed.

(** A write takes no file away. *)
Lemma readFile_write_keeps (path other : Path.t) (data : list N)
  (fs fs' : Fs.t) :
  Fs.writeFile path data fs = Some fs' ->
  is_Some (Fs.readFile other fs) -> is_Some (Fs.readFile other fs').
Proof.
  intros Hw Hr. destruct (decide (Fs.locate other = Fs.locate path)) as [E|E].
  - unfold Fs.writeFile in Hw.
    destruct (Fs.canWrite path fs); [|discriminate]. injection Hw as <-.
    unfold Fs.readFile in *.
    destruct (Fs.pathOk other); [|exact Hr].
    rewrite E. cbn. rewrite lookup_insert_eq. eauto.
  - now rewrite (readFile_write_other _ _ _ _ _ Hw E).
Qed.

Lemma deletePostFile_gone (dir : Path.t) (slug : list N) (fs : Fs.t) :
  Fs.readFile (mirrorPath dir slug) (deletePostFile dir slug fs) = None.
Proof.
  unfold deletePostFile, Fs.unlink.
  destruct (Fs.readFile (mirrorPath dir slug) fs) eqn:E; [|exact E].
  unfold Fs.readFile in *.
  destruct (Fs.pathOk (mirrorPath dir slug)); [|reflexivity].
  apply lookup_delete_eq.
Qed.

Lemma deletePostFile_other (dir : Path.t) (slug : list N) (fs : Fs.t)
  (path : Path.t) :
  Fs.locate path <> Fs.locate (mirrorPath dir slug) ->
  Fs.readFile path (deletePostFile dir slug fs) = Fs.readFile path fs.
Proof.
  intros Hne. unfold deletePostFile, Fs.unlink.
  destruct (Fs.readFile (mirrorPath dir slug) fs); [|reflexivity].
  unfold Fs.readFile. destruct (Fs.pathOk path); [|reflexivity].
  apply lookup_delete_ne. congruence.
Qed.

Lemma deletePostFile_dirs (dir : Path.t) (slug : list N) (fs : Fs.t) :
  Fs.dirs (deletePostFile dir slug fs) = Fs.dirs fs.
Proof.
  unfold deletePostFile, Fs.unlink.
  now destruct (Fs.readFile (mirrorPath dir slug) fs).
Qed.

(** ** Rows under an update *)

Section UpdateWhere.
Context {A : Type}.
Variables (cond : A -> bool) (set : A -> A).

Lemma filter_none_all (l : list A) :
  List.filter cond l = [] -> List.filter (fun x => negb (cond x)) l = l.
Proof.
  induction l as [|x l IH]; [reflexivity|]. cbn [List.filter].
  destruct (cond x); [discriminate|]. intros H. cbn [negb]. now rewrite IH.
Qed.

Lemma updateWhere_none (l : list A) :
  List.filter cond l = [] -> updateWhere cond set l = l.
Proof.
  intros H. unfold updateWhere. rewrite H, (filter_none_all l H).
  apply app_nil_r.
Qed.

Lemma filter_split_perm (l : list A) :
  l ≡ₚ List.filter (fun x => negb (cond x)) l ++ List.filter cond l.
Proof.
  induction l as [|x l IH]; [reflexivity|]. cbn [List.filter].
  destruct (cond x); cbn [negb].
  - rewrite <- Permutation_middle. now constructor.
  - cbn [app]. now constructor.
Qed.

Lemma updateWhere_perm (l : list A) :
  updateWhere cond set l
  ≡ₚ List.map (fun x => if cond x then set x else x) l.
Proof.
  unfold updateWhere. induction l as [|x l IH]; [reflexivity|].
  cbn [List.filter List.map]. destruct (cond x); cbn [negb List.map].
  - rewrite <- Permutation_middle. now constructor.
  - cbn [app]. now constructor.
Qed.

Hypothesis cond_set : forall x, cond (set x) = cond x.

Lemma filter_cond_set (l : list A) :
  List.filter cond (List.map set (List.filter cond l))
  = List.map set (List.filter cond l).
Proof.
  induction l as [|x l IH]; [reflexivity|]. cbn [List.filter].
  destruct (cond x) eqn:E; [|exact IH].
  cbn [List.map List.filter]. now rewrite cond_set, E, IH.
Qed.

Lemma filter_not_cond_set (l : list A) :
  List.filter (fun x => negb (cond x)) (List.map set (List.filter cond l))
  = [].
Proof.
  induction l as [|x l IH]; [reflexivity|]. cbn [List.filter].
  destruct (cond x) eqn:E; [|exact IH].
  cbn [List.map List.filter]. now rewrite cond_set, E.
Qed.

Lemma filter_cond_not (l : list A) :
  List.filter cond (List.filter (fun x => negb (cond x)) l) = [].
Proof.
  induction l as [|x l IH]; [reflexivity|]. cbn [List.filter].
  destruct (cond x) eqn:E; cbn [negb]; [exact IH|].
  cbn [List.filter]. now rewrite E.
Qed.

Lemma filter_not_not (l : list A) :
  List.filter (fun x => negb (cond x)) (List.filter (fun x => negb (cond x)) l)
  = List.filter (fun x => negb (cond x)) l.
Proof.
  induction l as [|x l IH]; [reflexivity|]. cbn [List.filter].
  destruct (cond x) eqn:E; cbn [negb]; [exact IH|].
  cbn [List.filter]. now rewrite E, IH.
Qed.

(** The rows the condition takes, after the update. *)
Lemma filter_updateWhere (l : list A) :
  List.filter cond (updateWhere cond set l)
  = List.map set (List.filter cond l).
Proof.
  unfold updateWhere.
  now rewrite List.filter_app, filter_cond_not, filter_cond_set.
Qed.

Lemma filter_not_updateWhere (l : list A) :
  List.filter (fun x => negb (cond x)) (updateWhere cond set l)
  = List.filter (fun x => negb (cond x)) l.
Proof.
  unfold updateWhere.
  rewrite List.filter_app, filter_not_not, filter_not_cond_set.
  apply app_nil_r.
Qed.

(** An update that sets what is set already, done twice. *)
Lemma updateWhere_twice (l : list A) :
  (forall x, set (set x) = set x) ->
  updateWhere cond set (updateWhere cond set l) = updateWhere cond set l.
Proof.
  intros Hidem. unfold updateWhere at 1.
  rewrite filter_updateWhere, filter_not_updateWhere, List.map_map.
  unfold updateWhere. f_equal. apply List.map_ext. intros x. apply Hidem.
Qed.

(** Rows picked by a test that the update does not change and that
    excludes the rows updated. *)
Lemma filter_other_updateWhere (f : A -> bool) (l : list A) :
  (forall x, f x = true -> cond x = false) ->
  List.filter f (List.map set (List.filter cond l)) = [] ->
  List.filter f (updateWhere cond set l) = List.filter f l.
Proof.
  intros Hf Hnone. unfold updateWhere. rewrite List.filter_app, Hnone.
  rewrite app_nil_r. clear Hnone.
  induction l as [|x l IH]; [reflexivity|]. cbn [List.filter].
  destruct (cond x) eqn:E; cbn [negb].
  - destruct (f x) eqn:F; [|exact IH]. rewrite (Hf x F) in E. discriminate.
  - cbn [List.filter]. destruct (f x); [now rewrite IH|exact IH].
Qed.
End UpdateWhere.

(** ** Strings without white space *)

Lemma dropWhile_none {A} (f : A -> bool) (l : list A) :
  Forall (fun x => f x = false) l -> dropWhile f l = l.
Proof.
  destruct 1 as [|x l Hx _]; simpl; [reflexivity|]. now rewrite Hx.
Qed.

Lemma trim_no_space (s : list N) :
  Forall (fun c => isSpace c = false) s -> trim s = s.
Proof.
  intros H. unfold trim, trimStart, trimEnd.
  rewrite (dropWhile_none _ s H).
  rewrite dropWhile_none; [apply rev_involutive|].
  apply List.Forall_forall. intros c Hc. rewrite <- in_rev in Hc.
  revert c Hc. now apply List.Forall_forall.
Qed.

Lemma HYPHEN_not_space : isSpace HYPHEN = false.
Proof. reflexivity. Qed.

Lemma spacesToHyphen_no_space (s : list N) :
  Forall (fun c => isSpace c = false) (spacesToHyphen s).
Proof.
  induction s as [|c s IH]; simpl; [constructor|].
  destruct (isSpace c) eqn:Hc.
  - destruct s as [|c' s']; [repeat constructor|].
    destruct (isSpace c') eqn:Hc'; [exact IH|].
    constructor; [apply HYPHEN_not_space | exact IH].
  - constructor; assumption.
Qed.

Lemma collapseHyphens_Forall (P : N -> Prop) (s : list N) :
  Forall P s -> Forall P (collapseHyphens s).
Proof.
  induction 1 as [|c s Hc Hs IH]; simpl; [constructor|].
  destruct (c =? HYPHEN)%N.
  - destruct s as [|c' s']; [repeat constructor; exact Hc|].
    destruct (c' =? HYPHEN)%N; [exact IH|]. constructor; assumption.
  - constructor; assumption.
Qed.

(** The final [trim] of the handler's chain never removes anything. *)
Lemma slugify_untrimmed (toLowerCase : list N -> list N) (title : list N) :
  slugify toLowerCase title = untrimmedSlug toLowerCase title.
Proof.
  unfold slugify, untrimmedSlug. apply trim_no_space.
  apply collapseHyphens_Forall, spacesToHyphen_no_space.
Qed.

(** ** Facts about the JavaScript map *)

Lemma JSMap_set_values {V} (k : Z) (v : V) (m : list (Z * V)) :
  In v (JSMap.values (JSMap.set k v m)).
Proof.
  induction m as [|e m IH]; simpl; [now left|].
  destruct (e.1 =? k)%Z; simpl; [now left | now right].
Qed.

Lemma JSMap_get_delete {V} (k : Z) (m : list (Z * V)) :
  JSMap.get k (JSMap.delete k m) = None.
Proof.
  unfold JSMap.get, JSMap.delete.
  induction m as [|e m IH]; simpl; [reflexivity|].
  destruct (e.1 =? k)%Z eqn:He; simpl; [exact IH|]. now rewrite He.
Qed.

(** ** The derived slug is the slug of the specification *)

(** [len] characters in a row, from [a] on. *)
Fixpoint rangeFrom (a : N) (len : nat) : list N :=
  match len with
  | O => []
  | S n => a :: rangeFrom (N.succ a) n
  end.

Lemma among_app (l1 l2 : list N) (c : N) :
  among (l1 ++ l2) c = among l1 c || among l2 c.
Proof. apply existsb_app. Qed.

Lemma among_rangeFrom (a : N) (len : nat) (c : N) :
  among (rangeFrom a len) c = ((a <=? c) && (c <? a + N.of_nat len))%N.
Proof.
  revert a. induction len as [|n IH]; intros a.
  - cbn [rangeFrom among existsb].
    destruct (N.leb_spec a c), (N.ltb_spec c (a + N.of_nat 0));
      try reflexivity.
    lia.
  - cbn [rangeFrom among existsb]. fold (among (rangeFrom (N.succ a) n) c).
    rewrite IH.
    destruct (N.eqb_spec c a), (N.leb_spec (N.succ a) c),
      (N.ltb_spec c (N.succ a + N.of_nat n)), (N.leb_spec a c),
      (N.ltb_spec c (a + N.of_nat (S n))); try reflexivity; lia.
Qed.

Ltac bool_to_arith :=
  apply Bool.eq_iff_eq_true;
  rewrite ?orb_true_iff, ?andb_true_iff, ?N.eqb_eq, ?N.leb_le, ?N.ltb_lt.

Lemma isWord_among (c : N) : isWord c = among wordCharacters c.
Proof.
  change wordCharacters
    with (rangeFrom 65 26 ++ rangeFrom 97 26 ++ rangeFrom 48 10 ++ [95%N]).
  rewrite !among_app, !among_rangeFrom. unfold isWord, among. cbn [existsb].
  bool_to_arith. lia.
Qed.

Lemma isSpace_among (c : N) : isSpace c = among whiteSpace c.
Proof.
  change whiteSpace
    with (rangeFrom 9 5 ++ [32; 0xA0; 0x1680]%N ++ rangeFrom 0x2000 11
          ++ [0x2028; 0x2029; 0x202F; 0x205F; 0x3000; 0xFEFF]%N).
  rewrite !among_app, !among_rangeFrom. unfold isSpace, among.
  cbn [existsb]. bool_to_arith. lia.
Qed.

Lemma squeezeFrom_ext (f g : N -> bool) (inside : bool) (s : list N) :
  (forall c, f c = g c) -> squeezeFrom f inside s = squeezeFrom g inside s.
Proof.
  intros H. revert inside. induction s as [|c s IH]; intros inside;
    [reflexivity|].
  cbn [squeezeFrom]. rewrite (H c), !IH. reflexivity.
Qed.

(** The handler's replacement puts the hyphen where a run ends, the
    specification's where it starts: the outcome is the same. *)
Lemma spacesToHyphen_squeeze (s : list N) :
  squeezeFrom isSpace false s = spacesToHyphen s
  /\ forall x, isSpace x = true ->
               HYPHEN :: squeezeFrom isSpace true s = spacesToHyphen (x :: s).
Proof.
  induction s as [|c s [IH1 IH2]].
  - split; [reflexivity|]. intros x Hx. cbn. now rewrite Hx.
  - split.
    + cbn [squeezeFrom]. destruct (isSpace c) eqn:Hc.
      * now apply IH2.
      * rewrite IH1. cbn [spacesToHyphen]. now rewrite Hc.
    + intros x Hx.
      change (spacesToHyphen (x :: c :: s))
        with (if isSpace x
              then if isSpace c then spacesToHyphen (c :: s)
                   else HYPHEN :: spacesToHyphen (c :: s)
              else x :: spacesToHyphen (c :: s)).
      rewrite Hx. cbn [squeezeFrom]. destruct (isSpace c) eqn:Hc.
      * now apply IH2.
      * rewrite IH1. cbn [spacesToHyphen]. now rewrite Hc.
Qed.

Lemma collapseHyphens_squeeze (s : list N) :
  squeezeFrom (N.eqb HYPHEN) false s = collapseHyphens s
  /\ HYPHEN :: squeezeFrom (N.eqb HYPHEN) true s
     = collapseHyphens (HYPHEN :: s).
Proof.
  induction s as [|c s [IH1 IH2]].
  - split; reflexivity.
  - assert (Hcopy : (HYPHEN =? c)%N = false ->
                    squeezeFrom (N.eqb HYPHEN) false (c :: s)
                    = c :: collapseHyphens s).
    { intros Hc. cbn [squeezeFrom]. now rewrite Hc, IH1. }
    split.
    + cbn [squeezeFrom collapseHyphens]. rewrite (N.eqb_sym c HYPHEN).
      destruct (HYPHEN =? c)%N eqn:Hc.
      * apply N.eqb_eq in Hc. subst c. exact IH2.
      * now rewrite IH1.
    + change (collapseHyphens (HYPHEN :: c :: s))
        with (if (HYPHEN =? HYPHEN)%N
              then if (c =? HYPHEN)%N then collapseHyphens (c :: s)
                   else HYPHEN :: collapseHyphens (c :: s)
              else HYPHEN :: collapseHyphens (c :: s)).
      rewrite N.eqb_refl, (N.eqb_sym c HYPHEN). cbn [squeezeFrom].
      destruct (HYPHEN =? c)%N eqn:Hc.
      * apply N.eqb_eq in Hc. subst c. exact IH2.
      * f_equal. cbn [collapseHyphens]. rewrite (N.eqb_sym c HYPHEN), Hc.
        now rewrite IH1.
Qed.

Lemma stripNonWord_among (s : list N) :
  stripNonWord s
  = List.filter
      (fun c => among wordCharacters c || among whiteSpace c
                || (c =? HYPHEN)%N) s.
Proof.
  unfold stripNonWord. apply List.filter_ext. intros c.
  now rewrite isWord_among, isSpace_among.
Qed.

(** The slug the handler derives is the slug in the words of the
    specification. *)
Lemma slugify_derivedSlug (toLowerCase : list N -> list N)
  (title : list N) :
  slugify toLowerCase title = derivedSlug toLowerCase title.
Proof.
  rewrite slugify_untrimmed. unfold untrimmedSlug, derivedSlug, runsToHyphen.
  rewrite <- stripNonWord_among.
  rewrite (squeezeFrom_ext (among whiteSpace) isSpace)
    by (intros c; symmetry; apply isSpace_among).
  rewrite (proj1 (spacesToHyphen_squeeze _)).
  now rewrite (proj1 (collapseHyphens_squeeze _)).
Qed.

(** ** Creating a post without a slug *)

Lemma Mem_savePostToFile (post : Post.t) (s : MemStorage.State) :
  savePostToFile (MemStorage.postsDir s) post (MemStorage.files s)
  = if savable (Post.slug post) s
    then Some (Fs.mk (Fs.dirs (MemStorage.files s))
                 (<[Fs.locate (mirrorPath (MemStorage.postsDir s)
                                 (Post.slug post))
                    := toWellFormed (renderPost post)]>
                    (Fs.files (MemStorage.files s))))
    else None.
Proof. reflexivity. Qed.

Lemma DB_savePostToFile (post : Post.t) (s : DatabaseStorage.State) :
  savePostToFile (DatabaseStorage.postsDir s) post (DatabaseStorage.files s)
  = if savable (Post.slug post) s
    then Some (Fs.mk (Fs.dirs (DatabaseStorage.files s))
                 (<[Fs.locate (mirrorPath (DatabaseStorage.postsDir s)
                                 (Post.slug post))
                    := toWellFormed (renderPost post)]>
                    (Fs.files (DatabaseStorage.files s))))
    else None.
Proof. reflexivity. Qed.

Section CreateWithoutSlug.
Variable toLowerCase : list N -> list N.
Context {ReqBody : Type}.
Variable parse : ReqBody -> option InsertPost.t.

(** The post is in the map whether or not its file gets written; the call
    returns the reference when it does. *)
Lemma Mem_createPost_stored (d : InsertPost.t) (now : Z)
  (s : MemStorage.State) :
  let out := MemStorage.createPost d now s in
  let l := fresh (dom (MemStorage.postObjs s)) in
  exists post, MemStorage.postObjs out.2 !! l = Some post /\
               In post (MemStorage.allPosts out.2) /\
               Post.slug post = InsertPost.slug d /\
               Post.title post = InsertPost.title d /\
               out.1 = if savable (InsertPost.slug d) s
                       then Returned l else Thrown.
Proof.
  cbv zeta. unfold MemStorage.createPost. rewrite Mem_savePostToFile.
  cbn [Post.slug].
  eexists. split; [|split; [|split; [|split]]].
  - destruct (savable (InsertPost.slug d) s); cbn; apply lookup_insert_eq.
  - unfold MemStorage.allPosts.
    apply list_elem_of_In, list_elem_of_omap.
    exists (fresh (dom (MemStorage.postObjs s))).
    destruct (savable (InsertPost.slug d) s); cbn;
      (split; [apply list_elem_of_In, JSMap_set_values
              | apply lookup_insert_eq]).
  - reflexivity.
  - reflexivity.
  - now destruct (savable (InsertPost.slug d) s).
Qed.

Lemma DB_createPost_stored (d : InsertPost.t) (now : Z)
  (s : DatabaseStorage.State) :
  let out := DatabaseStorage.createPost d now s in
  exists post, In post (DatabaseStorage.posts out.2) /\
               Post.slug post = InsertPost.slug d /\
               Post.title post = InsertPost.title d /\
               out.1 = if savable (InsertPost.slug d) s
                       then Returned post else Thrown.
Proof.
  cbv zeta. unfold DatabaseStorage.createPost. rewrite DB_savePostToFile.
  cbn [Post.slug].
  eexists. split; [|split; [|split]].
  - destruct (savable (InsertPost.slug d) s); cbn;
      apply in_or_app; right; now left.
  - reflexivity.
  - reflexivity.
  - now destruct (savable (InsertPost.slug d) s).
Qed.

Lemma Mem_creates_derived (reqBody : ReqBody) (parsed : InsertPost.t)
  (now : Z) (s : MemStorage.State) :
  parse reqBody = Some parsed ->
  InsertPost.slug parsed = [] ->
  createsDerived toLowerCase (InsertPost.title parsed) s
    (createPostRoute toLowerCase parse reqBody now s).
Proof.
  intros Hp Hs. unfold createsDerived, createPostRoute. cbv zeta.
  rewrite Hp, Hs. simpl falsy. cbv iota. simpl InsertPost.slug.
  rewrite slugify_derivedSlug.
  set (slug := derivedSlug toLowerCase (InsertPost.title parsed)).
  destruct (getPostBySlug slug s) eqn:Hg; simpl; [now split|].
  destruct (Mem_createPost_stored (InsertPost.with_slug slug parsed) now s)
    as (post & H1 & H2 & H3 & H4 & H5).
  change (createPost (InsertPost.with_slug slug parsed) now s)
    with (MemStorage.createPost (InsertPost.with_slug slug parsed) now s).
  destruct (MemStorage.createPost (InsertPost.with_slug slug parsed) now s)
    as [c s'].
  cbn [fst snd] in *. cbn [InsertPost.slug InsertPost.with_slug] in H5.
  subst c. destruct (savable slug s); cbn; exists post.
  - repeat split; assumption.
  - repeat split; assumption.
Qed.

Lemma DB_creates_derived (reqBody : ReqBody) (parsed : InsertPost.t)
  (now : Z) (s : DatabaseStorage.State) :
  parse reqBody = Some parsed ->
  InsertPost.slug parsed = [] ->
  createsDerived toLowerCase (InsertPost.title parsed) s
    (createPostRoute toLowerCase parse reqBody now s).
Proof.
  intros Hp Hs. unfold createsDerived, createPostRoute. cbv zeta.
  rewrite Hp, Hs. simpl falsy. cbv iota. simpl InsertPost.slug.
  rewrite slugify_derivedSlug.
  set (slug := derivedSlug toLowerCase (InsertPost.title parsed)).
  destruct (getPostBySlug slug s) eqn:Hg; simpl; [now split|].
  destruct (DB_createPost_stored (InsertPost.with_slug slug parsed) now s)
    as (post & H2 & H3 & H4 & H5).
  change (createPost (InsertPost.with_slug slug parsed) now s)
    with (DatabaseStorage.createPost (InsertPost.with_slug slug parsed)
            now s).
  destruct (DatabaseStorage.createPost (InsertPost.with_slug slug parsed)
              now s) as [c s'].
  cbn [fst snd] in *. cbn [InsertPost.slug InsertPost.with_slug] in H5.
  subst c. destruct (savable slug s); cbn; exists post.
  - repeat split; assumption.
  - repeat split; assumption.
Qed.

(** C2. A valid body without a slug: with either storage the handler of
    POST /api/admin/posts stores, unless a post is under it already, a
    post whose slug is the title in lower case, without the characters
    that are not word characters, white space or hyphens, with each run
    of white space replaced by one hyphen and each run of hyphens by one
    hyphen. The answer is 200 with that post when its mirror file can be
    written, and 500 when it cannot, the post staying stored; when the
    slug is taken the answer is 400 and the state stays as it was. *)
Theorem C2_slug_derived_from_title (reqBody : ReqBody)
  (parsed : InsertPost.t) (now : Z)
  (sm : MemStorage.State) (sd : DatabaseStorage.State) :
  parse reqBody = Some parsed ->
  InsertPost.slug parsed = [] ->
  createsDerived toLowerCase (InsertPost.title parsed) sm
    (createPostRoute toLowerCase parse reqBody now sm) /\
  createsDerived toLowerCase (InsertPost.title parsed) sd
    (createPostRoute toLowerCase parse reqBody now sd).
Proof.
  intros Hp Hs. split.
  - now apply Mem_creates_derived.
  - now apply DB_creates_derived.
Qed.
End CreateWithoutSlug.

(** The two replacements, run by run: a maximal run of white space becomes
    one hyphen, a maximal run of hyphens becomes one hyphen, and every other
    character is copied. *)

Lemma spacesToHyphen_run (w b : list N) :
  w <> [] -> forallb isSpace w = true -> startsWithout isSpace b ->
  spacesToHyphen (w ++ b) = HYPHEN :: spacesToHyphen b.
Proof.
  intros Hw Hsp Hb. induction w as [|c w IH]; [contradiction|].
  apply andb_true_iff in Hsp as [Hc Hsp].
  destruct w as [|c2 w].
  - cbn [app spacesToHyphen]. rewrite Hc.
    destruct b as [|c' b]; [reflexivity|]. cbn in Hb. now rewrite Hb.
  - specialize (IH ltac:(discriminate) Hsp).
    pose proof Hsp as Hc2. apply andb_true_iff in Hc2 as [Hc2 _].
    change (spacesToHyphen ((c :: c2 :: w) ++ b))
      with (if isSpace c
            then if isSpace c2 then spacesToHyphen ((c2 :: w) ++ b)
                 else HYPHEN :: spacesToHyphen ((c2 :: w) ++ b)
            else c :: spacesToHyphen ((c2 :: w) ++ b)).
    rewrite Hc, Hc2. exact IH.
Qed.

Lemma spacesToHyphen_copy (c : N) (s : list N) :
  isSpace c = false -> spacesToHyphen (c :: s) = c :: spacesToHyphen s.
Proof. intros H. cbn [spacesToHyphen]. now rewrite H. Qed.

Lemma collapseHyphens_run (w b : list N) :
  w <> [] -> forallb (N.eqb HYPHEN) w = true ->
  startsWithout (fun c => (c =? HYPHEN)%N) b ->
  collapseHyphens (w ++ b) = HYPHEN :: collapseHyphens b.
Proof.
  intros Hw Hh Hb. induction w as [|c w IH]; [contradiction|].
  apply andb_true_iff in Hh as [Hc Hh]. apply N.eqb_eq in Hc. subst c.
  destruct w as [|c2 w].
  - cbn [app collapseHyphens]. rewrite N.eqb_refl.
    destruct b as [|c' b]; [reflexivity|]. cbn in Hb. now rewrite Hb.
  - specialize (IH ltac:(discriminate) Hh).
    pose proof Hh as Hc2. apply andb_true_iff in Hc2 as [Hc2 _].
    apply N.eqb_eq in Hc2. subst c2.
    change (collapseHyphens ((HYPHEN :: HYPHEN :: w) ++ b))
      with (if (HYPHEN =? HYPHEN)%N
            then if (HYPHEN =? HYPHEN)%N
                 then collapseHyphens ((HYPHEN :: w) ++ b)
                 else HYPHEN :: collapseHyphens ((HYPHEN :: w) ++ b)
            else HYPHEN :: collapseHyphens ((HYPHEN :: w) ++ b)).
    rewrite !N.eqb_refl. exact IH.
Qed.

Lemma collapseHyphens_copy (c : N) (s : list N) :
  (c =? HYPHEN)%N = false -> collapseHyphens (c :: s) = c :: collapseHyphens s.
Proof. intros H. cbn [collapseHyphens]. now rewrite H. Qed.

(** ** The e-mail pattern *)

Lemma matches_nil (s : list N) : matches [] s = true -> s = [].
Proof. destruct s; [reflexivity | discriminate]. Qed.

Lemma matches_one (cls : N -> bool) p (s : list N) :
  matches ((cls, One) :: p) s = true ->
  exists c s', s = c :: s' /\ cls c = true /\ matches p s' = true.
Proof.
  destruct s as [|c s']; simpl; [discriminate|].
  intros H. apply andb_true_iff in H as [H1 H2]. eauto.
Qed.

Lemma matches_plus (cls : N -> bool) p (s : list N) :
  matches ((cls, Plus) :: p) s = true ->
  exists a b, s = a ++ b /\ a <> [] /\ List.Forall (fun c => cls c = true) a /\
              matches p b = true.
Proof.
  induction s as [|c s IH]; [discriminate|].
  intros H. simpl in H. apply andb_true_iff in H as [Hc H].
  apply orb_true_iff in H as [H|H].
  - destruct (IH H) as (a & b & -> & _ & Ha & Hb).
    exists (c :: a), b. repeat split; [discriminate | now constructor | exact Hb].
  - exists [c], s. repeat split; [discriminate | now repeat constructor | exact H].
Qed.

Lemma notSpaceAt_not_AT (c : N) : notSpaceAt c = true -> (c =? AT)%N = false.
Proof.
  unfold notSpaceAt. intros H. apply negb_true_iff, orb_false_iff in H. tauto.
Qed.

Lemma afterAt_app (a b : list N) :
  List.Forall (fun c => notSpaceAt c = true) a ->
  afterAt (a ++ AT :: b) = b.
Proof.
  unfold afterAt. induction 1 as [|c a Hc _ IH]; simpl; [reflexivity|].
  now rewrite (notSpaceAt_not_AT c Hc).
Qed.

(** An address the pattern accepts has an [@] and a dot after it. *)
Lemma emailRegex_accepts (e : list N) :
  matches emailRegex e = true -> In AT e /\ In DOT (afterAt e).
Proof.
  unfold emailRegex. intros H.
  apply matches_plus in H as (l & r1 & -> & _ & Hl & H).
  apply matches_one in H as (c1 & r2 & -> & Hc1 & H).
  apply N.eqb_eq in Hc1. subst c1.
  apply matches_plus in H as (x & r3 & -> & _ & _ & H).
  apply matches_one in H as (c2 & r4 & -> & Hc2 & _).
  apply N.eqb_eq in Hc2. subst c2.
  split.
  - apply in_or_app. right. now left.
  - rewrite afterAt_app by exact Hl. apply in_or_app. right. now left.
Qed.

(** C7. Whatever the storage, a contact submission whose e-mail has no [@],
    or no dot in what follows the [@], is answered 400 and leaves the state
    of the storage, hence the contact rows, as it was. *)
Theorem C7_malformed_email_rejected {St Ref : Type} `{!IStorage St Ref}
  (toLowerCase : list N -> list N) (b : ContactBody.t) (now : Z) (s : St) :
  ~ In AT (present (ContactBody.email b)) \/
  ~ In DOT (afterAt (present (ContactBody.email b))) ->
  statusCode (contactRoute toLowerCase b now s).1 = 400%Z /\
  (contactRoute toLowerCase b now s).2 = s.
Proof.
  intros Hbad. unfold contactRoute.
  destruct (falsy (ContactBody.name b) || falsy (ContactBody.email b)
            || falsy (ContactBody.subject b) || falsy (ContactBody.message b));
    [now split|].
  destruct (matches emailRegex (present (ContactBody.email b))) eqn:Hm;
    [|now split].
  apply emailRegex_accepts in Hm. tauto.
Qed.

(** ** Creating a post under a slug that is taken *)

Lemma eqs_refl (a : list N) : eqs a a = true.
Proof. unfold eqs. now apply bool_decide_eq_true_2. Qed.

Lemma eqs_true (a b : list N) : eqs a b = true -> a = b.
Proof. unfold eqs. apply bool_decide_eq_true_1. Qed.

Lemma eqs_false (a b : list N) : eqs a b = false -> a <> b.
Proof. unfold eqs. apply bool_decide_eq_false_1. Qed.

Lemma head_filter_some {A} (f : A -> bool) (l : list A) (x : A) :
  In x l -> f x = true -> exists y, head (List.filter f l) = Some y.
Proof.
  induction l as [|a l IH]; simpl; [tauto|].
  intros [->|Hin] Hx.
  - rewrite Hx. simpl. eauto.
  - destruct (f a); simpl; eauto.
Qed.

Lemma head_filter_none {A} (f : A -> bool) (l : list A) :
  head (List.filter f l) = None -> List.filter f l = [].
Proof. destruct (List.filter f l); [reflexivity | discriminate]. Qed.

Lemma Mem_getPostBySlug_some (slug : list N) (s : MemStorage.State) :
  (exists post, In post (MemStorage.allPosts s) /\ Post.slug post = slug) ->
  exists l, MemStorage.getPostBySlug slug s = Some l.
Proof.
  intros (post & Hin & Hslug). unfold MemStorage.getPostBySlug.
  destruct (List.find _ _) as [l|] eqn:Hf; [eauto|exfalso].
  apply list_elem_of_In, list_elem_of_omap in Hin as (l & Hl & Hobj).
  apply list_elem_of_In in Hl.
  pose proof (find_none _ _ Hf l Hl) as Hno.
  unfold MemStorage.hasSlug in Hno. rewrite Hobj, Hslug, eqs_refl in Hno.
  discriminate.
Qed.

Lemma DB_getPostBySlug_some (slug : list N) (s : DatabaseStorage.State) :
  (exists post, In post (DatabaseStorage.posts s) /\ Post.slug post = slug) ->
  exists row, DatabaseStorage.getPostBySlug slug s = Some row.
Proof.
  intros (post & Hin & Hslug). unfold DatabaseStorage.getPostBySlug.
  apply head_filter_some with (x := post); [exact Hin|].
  rewrite Hslug. apply eqs_refl.
Qed.

Section CreateDuplicate.
Variable toLowerCase : list N -> list N.
Context {ReqBody : Type}.
Variable parse : ReqBody -> option InsertPost.t.

Lemma createPostRoute_taken {St Ref : Type} `{!IStorage St Ref}
  (reqBody : ReqBody) (parsed : InsertPost.t) (now : Z) (s : St) (r : Ref) :
  parse reqBody = Some parsed ->
  getPostBySlug (requestedSlug toLowerCase parsed) s = Some r ->
  refusedDuplicate s (createPostRoute toLowerCase parse reqBody now s).
Proof.
  intros Hp Hg. unfold refusedDuplicate, createPostRoute. rewrite Hp.
  unfold requestedSlug in Hg.
  destruct (InsertPost.slug parsed) as [|c sl] eqn:Hs; simpl in *.
  - rewrite Hg. simpl. auto.
  - rewrite Hs, Hg. simpl. auto.
Qed.

(** C1. With either storage, a creation request whose slug, given or
    derived, is the slug of a stored post is answered 400 with the error
    message, and the state is the one before the request: no row is
    added, so slugs that each belonged to one post still do. *)
Theorem C1_duplicate_slug_rejected (reqBody : ReqBody)
  (parsed : InsertPost.t) (now : Z)
  (sm : MemStorage.State) (sd : DatabaseStorage.State) :
  parse reqBody = Some parsed ->
  slugTaken (requestedSlug toLowerCase parsed) sm ->
  slugTaken (requestedSlug toLowerCase parsed) sd ->
  refusedDuplicate sm (createPostRoute toLowerCase parse reqBody now sm) /\
  refusedDuplicate sd (createPostRoute toLowerCase parse reqBody now sd).
Proof.
  intros Hp Hm Hd. split.
  - destruct (Mem_getPostBySlug_some _ _ Hm) as [l Hl].
    now apply (createPostRoute_taken reqBody parsed now sm l).
  - destruct (DB_getPostBySlug_some _ _ Hd) as [row Hrow].
    now apply (createPostRoute_taken reqBody parsed now sd row).
Qed.
End CreateDuplicate.
(** ** Fetching a post *)

Lemma orZero_id (n : Z) : orZero n = n.
Proof. unfold orZero. destruct (Z.eqb_spec n 0); congruence. Qed.

Lemma bumpBy_slug n p : Post.slug (bumpBy n p) = Post.slug p.
Proof. reflexivity. Qed.




Lemma firstUnder_unique slug posts pre1 p1 suf1 pre2 p2 suf2 :
  firstUnder slug posts pre1 p1 suf1 ->
  firstUnder slug posts pre2 p2 suf2 ->
  pre1 = pre2 /\ p1 = p2 /\ suf1 = suf2.
Proof.
  intros (-> & H1 & Hp1) (E & H2 & Hp2).
  revert pre2 E H2. induction pre1 as [|a pre1 IH]; intros pre2 E H2.
  - destruct pre2 as [|b pre2]; simpl in E.
    + injection E as -> ->. auto.
    + injection E as -> _. inversion H2; subst. contradiction.
  - destruct pre2 as [|b pre2]; simpl in E.
    + injection E as -> _. inversion H1; subst. contradiction.
    + injection E as -> E. inversion H1; subst. inversion H2; subst.
      destruct (IH ltac:(assumption) pre2 E ltac:(assumption)) as (-> & -> & ->).
      auto.
Qed.

Lemma omap_cons_eq {A B} (f : A -> option B) (x : A) (l : list A) :
  omap f (x :: l) = match f x with
                    | Some y => y :: omap f l
                    | None => omap f l
                    end.
Proof. reflexivity. Qed.

Lemma NoDup_map_inj_in {A B} (f : A -> B) (l : list A) (x y : A) :
  List.NoDup (List.map f l) -> In x l -> In y l -> f x = f y -> x = y.
Proof.
  induction l as [|a l IH]; [contradiction|]. cbn [List.map In].
  intros Hnd Hx Hy E. apply List.NoDup_cons_iff in Hnd as [Ha Hnd].
  destruct Hx as [->|Hx], Hy as [->|Hy]; [reflexivity| | |now apply IH].
  - exfalso. apply Ha. rewrite E. now apply in_map.
  - exfalso. apply Ha. rewrite <- E. now apply in_map.
Qed.

(** With unique slugs, the posts behind the one under the slug are left
    alone by an increment. *)
Lemma sameOrBumped_same slug (pre : list Post.t) (p : Post.t)
  (suf suf' : list Post.t) :
  List.NoDup (List.map Post.slug (pre ++ p :: suf)) ->
  Post.slug p = slug ->
  Forall2 (sameOrBumped slug) suf suf' -> suf' = suf.
Proof.
  intros Hu Hs HR. rewrite List.map_app in Hu.
  apply List.NoDup_remove_2 in Hu.
  assert (Hno : List.Forall (fun q => Post.slug q <> slug) suf).
  { apply List.Forall_forall. intros q Hq Eq. apply Hu.
    apply in_or_app. right. rewrite Hs, <- Eq. now apply in_map. }
  clear -HR Hno. induction HR as [|q q' suf suf' Hq _ IH]; [reflexivity|].
  apply Forall_cons in Hno as [Hn Hno].
  destruct Hq as [->|[Hq _]]; [|contradiction]. now rewrite IH.
Qed.

(** *** MemStorage *)

Section MemViewCounting.
Import MemStorage.

Lemma Mem_find_first slug (s : State) (vs : list positive) l :
  List.find (hasSlug s slug) vs = Some l ->
  exists p pre suf,
    postObjs s !! l = Some p /\
    firstUnder slug (omap (fun l => postObjs s !! l) vs) pre p suf.
Proof.
  induction vs as [|v vs IH]; [discriminate|].
  rewrite omap_cons_eq. simpl List.find.
  destruct (hasSlug s slug v) eqn:Hv.
  - intros [= ->]. unfold hasSlug in Hv.
    destruct (postObjs s !! l) as [p|] eqn:Hp; [|discriminate].
    exists p, [], (omap (fun l => postObjs s !! l) vs).
    split; [reflexivity|]. split; [reflexivity|].
    split; [constructor | now apply eqs_true].
  - intros Hf. destruct (IH Hf) as (p & pre & suf & Hp & E & Hpre & Hs).
    unfold hasSlug in Hv.
    destruct (postObjs s !! v) as [q|] eqn:Hq.
    + exists p, (q :: pre), suf. split; [exact Hp|].
      split; [now rewrite E|].
      split; [constructor; [now apply eqs_false | exact Hpre] | exact Hs].
    + exists p, pre, suf. repeat split; assumption.
Qed.

Lemma Mem_find_none slug (s : State) (vs : list positive) :
  List.find (hasSlug s slug) vs = None ->
  List.Forall (fun q => Post.slug q <> slug)
    (omap (fun l => postObjs s !! l) vs).
Proof.
  induction vs as [|v vs IH]; [constructor|].
  rewrite omap_cons_eq. simpl List.find.
  destruct (hasSlug s slug v) eqn:Hv; [discriminate|].
  intros Hf. unfold hasSlug in Hv.
  destruct (postObjs s !! v) as [q|]; [|now apply IH].
  constructor; [now apply eqs_false | now apply IH].
Qed.

(** The object found by [incrementViewCount] is the first under the slug;
    the entries behind it hold the same object or another one. *)
Lemma Mem_bump_entries slug (h : gmap positive Post.t) l p
  (vs : list positive) :
  h !! l = Some p -> Post.slug p = slug ->
  Forall2 (sameOrBumped slug)
    (omap (fun v => h !! v) vs)
    (omap (fun v => <[l := bump p]> h !! v) vs).
Proof.
  intros Hl Hs. induction vs as [|v vs IH]; [constructor|].
  rewrite !omap_cons_eq.
  destruct (decide (v = l)) as [->|Hne].
  - rewrite lookup_insert_eq, Hl. constructor; [right; auto | exact IH].
  - rewrite lookup_insert_ne by congruence.
    destruct (h !! v); [constructor; [now left | exact IH] | exact IH].
Qed.

Lemma Mem_bump_first slug (s : State) l p (vs : list positive)
  pre suf :
  List.find (hasSlug s slug) vs = Some l ->
  postObjs s !! l = Some p ->
  firstUnder slug (omap (fun v => postObjs s !! v) vs) pre p suf ->
  exists suf',
    omap (fun v => <[l := bump p]> (postObjs s) !! v) vs
    = pre ++ bump p :: suf' /\
    Forall2 (sameOrBumped slug) suf suf'.
Proof.
  intros Hf Hl Hfirst.
  assert (Hslug : Post.slug p = slug) by apply Hfirst.
  revert pre Hf Hfirst. induction vs as [|v vs IH]; intros pre;
    [discriminate|].
  rewrite !omap_cons_eq. simpl List.find.
  destruct (hasSlug s slug v) eqn:Hv.
  - intros [= ->] Hfirst. rewrite Hl in Hfirst.
    destruct (firstUnder_unique _ _ _ _ _ [] p
                (omap (fun v => postObjs s !! v) vs) Hfirst) as (-> & _ & ->).
    { split; [reflexivity|]. split; [constructor | exact Hslug]. }
    rewrite lookup_insert_eq. eexists. split; [reflexivity|].
    now apply Mem_bump_entries.
  - intros Hf Hfirst.
    assert (Hne : v <> l).
    { intros ->. unfold hasSlug in Hv. rewrite Hl, Hslug, eqs_refl in Hv.
      discriminate. }
    rewrite lookup_insert_ne by congruence.
    unfold hasSlug in Hv.
    destruct (postObjs s !! v) as [q|] eqn:Hq; [|now apply IH].
    destruct Hfirst as (E & Hpre & _).
    destruct pre as [|q0 pre]; simpl in E.
    + injection E as -> _. rewrite Hslug, eqs_refl in Hv. discriminate.
    + injection E as <- E. apply Forall_cons in Hpre as [_ Hpre].
      destruct (IH pre Hf) as (suf' & E' & HR).
      { split; [exact E|]. split; assumption. }
      exists suf'. split; [now rewrite E' | exact HR].
Qed.

(** The call on a slug that is found: the object is counted once more,
    and the call returns when the mirror file could be written. *)
Lemma Mem_increment_found slug (s : State) l p :
  getPostBySlug slug s = Some l -> postObjs s !! l = Some p ->
  (incrementViewCount slug s).1
  = (if savable slug s then Returned () else Thrown)
  /\ postObjs (incrementViewCount slug s).2 = <[l := bump p]> (postObjs s)
  /\ posts (incrementViewCount slug s).2 = posts s.
Proof.
  intros Hl Hp.
  assert (Hs : Post.slug p = slug).
  { apply List.find_some in Hl as [_ Hl]. unfold hasSlug in Hl.
    rewrite Hp in Hl. now apply eqs_true. }
  unfold incrementViewCount. rewrite Hl, Hp, orZero_id, Mem_savePostToFile.
  cbn [Post.slug Post.with_viewCount]. rewrite Hs.
  destruct (savable slug s); cbn; repeat split; reflexivity.
Qed.

#[global] Instance Mem_ViewCounting : ViewCounting State positive true.
Proof.
  split.
  - intros slug s l Hf.
    destruct (Mem_find_first slug s _ l Hf) as (p & pre & suf & Hp & E & _ & Hs).
    exists p. split; [exact Hp|]. split; [|exact Hs].
    change (In p (allPosts s)). unfold allPosts. rewrite E.
    apply in_or_app. right. now left.
  - intros slug s Hf. exact (Mem_find_none slug s _ Hf).
  - intros slug s p Hin Hs.
    apply (Mem_getPostBySlug_some slug s). eauto.
  - intros slug s p rest Hu Hperm Hs.
    change (List.NoDup (List.map Post.slug (allPosts s))) in Hu.
    change (allPosts s ≡ₚ p :: rest) in Hperm.
    change (allPosts (incrementViewCount slug s).2 ≡ₚ bump p :: rest).
    assert (Hin : In p (allPosts s)).
    { apply list_elem_of_In. rewrite Hperm. now left. }
    destruct (Mem_getPostBySlug_some slug s) as [l Hl]; [eauto|].
    destruct (Mem_find_first slug s _ l Hl)
      as (p0 & pre & suf & Hp0 & Hfirst).
    fold (allPosts s) in Hfirst.
    assert (E0 : p0 = p).
    { destruct Hfirst as (E & _ & Hs0).
      apply (NoDup_map_inj_in Post.slug (allPosts s)); [exact Hu| |exact Hin|].
      - rewrite E. apply in_or_app. right. now left.
      - congruence. }
    subst p0.
    destruct (Mem_increment_found slug s l p Hl Hp0) as (_ & Eobjs & Eposts).
    destruct (Mem_bump_first slug s l p _ pre suf Hl Hp0 Hfirst)
      as (suf' & E' & HR).
    unfold allPosts at 1. rewrite Eobjs, Eposts, E'.
    destruct Hfirst as (E & _ & _). rewrite E in Hu, Hperm.
    rewrite (sameOrBumped_same slug pre p suf suf' Hu Hs HR).
    rewrite <- Permutation_middle. constructor.
    rewrite <- Permutation_middle in Hperm.
    now apply Permutation_cons_inv in Hperm.
  - intros slug s l Hl.
    change (MemStorage.getPostBySlug slug s = Some l) in Hl.
    destruct (Mem_find_first slug s _ l Hl) as (p & _ & _ & Hp & _).
    destruct (Mem_increment_found slug s l p Hl Hp) as (E & _).
    exact E.
Qed.
End MemViewCounting.

(** *** DatabaseStorage *)

Section DBViewCounting.
Import DatabaseStorage.

Lemma DB_filter_none slug (rows : list Post.t) :
  head (List.filter (fun p => eqs (Post.slug p) slug) rows) = None ->
  List.Forall (fun q => Post.slug q <> slug) rows.
Proof.
  induction rows as [|a rows IH]; simpl; [constructor|].
  destruct (eqs (Post.slug a) slug) eqn:Ha; simpl; [discriminate|].
  intros H. constructor; [now apply eqs_false | now apply IH].
Qed.

Lemma head_filter_holds {A} (f : A -> bool) (l : list A) (x : A) :
  head (List.filter f l) = Some x -> f x = true /\ In x l.
Proof.
  intros H. assert (Hin : In x (List.filter f l)).
  { destruct (List.filter f l); [discriminate|]. injection H as ->.
    now left. }
  apply List.filter_In in Hin. tauto.
Qed.

(** The rows of a table with unique slugs, after the update of the
    counter under the slug of [p]. *)
Lemma DB_increment_rows slug (rows rest : list Post.t) (p : Post.t) :
  List.NoDup (List.map Post.slug rows) -> rows ≡ₚ p :: rest ->
  Post.slug p = slug ->
  updateWhere (fun q => eqs (Post.slug q) slug)
    (fun q => Post.with_viewCount (Post.viewCount q + 1) q) rows
  ≡ₚ bump p :: rest.
Proof.
  intros Hu Hperm Hs. rewrite updateWhere_perm, Hperm.
  cbn [List.map]. rewrite Hs, eqs_refl.
  change (Post.with_viewCount (Post.viewCount p + 1) p) with (bump p).
  constructor.
  assert (Hnd : List.NoDup (Post.slug p :: List.map Post.slug rest)).
  { apply NoDup_ListNoDup. apply NoDup_ListNoDup in Hu.
    change (NoDup (List.map Post.slug (p :: rest))).
    now rewrite <- Hperm. }
  apply List.NoDup_cons_iff in Hnd as [Hnot _].
  assert (E : List.map (fun q => if eqs (Post.slug q) slug
                                 then Post.with_viewCount
                                        (Post.viewCount q + 1) q
                                 else q) rest = rest).
  { clear -Hnot Hs. induction rest as [|q rest IH]; [reflexivity|].
    cbn [List.map]. destruct (eqs (Post.slug q) slug) eqn:E.
    - exfalso. apply Hnot. apply eqs_true in E. left. congruence.
    - rewrite IH; [reflexivity|]. intros H. apply Hnot. now right. }
  now rewrite E.
Qed.

#[global] Instance DB_ViewCounting : ViewCounting State Post.t false.
Proof.
  split.
  - intros slug s r Hf. exists r. split; [reflexivity|].
    apply head_filter_holds in Hf as [Hs Hin].
    split; [exact Hin | now apply eqs_true].
  - intros slug s Hf. exact (DB_filter_none slug (posts s) Hf).
  - intros slug s p Hin Hs. apply (DB_getPostBySlug_some slug s). eauto.
  - intros slug s p rest Hu Hperm Hs.
    exact (DB_increment_rows slug (posts s) rest p Hu Hperm Hs).
  - reflexivity.
Qed.
End DBViewCounting.

(** *** The handler *)

Section Fetch.
Context {St Ref : Type} `{!IStorage St Ref} {mirrored : bool}
  `{!ViewCounting St Ref mirrored}.

Lemma getPostRoute_found slug (s : St) r :
  getPostBySlug slug s = Some r ->
  getPostRoute slug s
  = (if negb mirrored || savable slug s
     then mkResponse 200 (JPost r)
     else mkResponse 500 (JError (str "Failed to fetch post")),
     (incrementViewCount slug s).2).
Proof.
  intros H. unfold getPostRoute. rewrite H.
  pose proof (increment_completes slug s r H) as Hc.
  destruct (incrementViewCount slug s) as [c s']. cbn [fst snd] in *.
  subst c. now destruct (negb mirrored || savable slug s).
Qed.

Lemma getPostRoute_absent slug (s : St) :
  getPostBySlug slug s = None ->
  getPostRoute slug s = (mkResponse 404 (JError (str "Post not found")), s).
Proof. intros H. unfold getPostRoute. now rewrite H. Qed.

(** One request under the slug of [p], the only post under it. *)
Lemma getPostRoute_counts slug (s : St) p rest :
  uniqueSlugs s -> allPosts s ≡ₚ p :: rest -> Post.slug p = slug ->
  allPosts (getPostRoute slug s).2 ≡ₚ bump p :: rest.
Proof.
  intros Hu Hperm Hs.
  destruct (taken_found slug s p) as [r Hr]; [|exact Hs|].
  { apply list_elem_of_In. rewrite Hperm. now left. }
  rewrite (getPostRoute_found slug s r Hr). cbn [snd].
  now apply increment_counts.
Qed.


End Fetch.


(** ** What the response of a fetch carries *)



(** [MemStorage], which the server does not use, hands the handler the
    stored object; the increment changes that object in place, and a
    response written afterwards would carry the count after it. *)
Lemma Mem_sends_counted slug (sm : MemStorage.State) l p :
  getPostBySlug slug sm = Some l -> serialize sm l = Some p ->
  serialize (getPostRoute slug sm).2 l = Some (bump p).
Proof.
  intros Hl Hp. rewrite (getPostRoute_found slug sm l Hl). cbn [snd].
  change (MemStorage.postObjs (MemStorage.incrementViewCount slug sm).2 !! l
          = Some (bump p)).
  destruct (Mem_increment_found slug sm l p Hl Hp) as (_ & E & _).
  rewrite E. apply lookup_insert_eq.
Qed.

(** ** Creation keeps the slugs unique

    The existence check before the insert is what the uniqueness of slugs
    rests on: whatever the request, a store in which each slug belongs to
    one post is left in such a state by the creation handler. *)

Lemma NoDup_insert_middle {A} (a o b : list A) (x : A) :
  List.NoDup (a ++ o ++ b) -> ~ In x (a ++ o ++ b) ->
  List.NoDup (a ++ x :: b).
Proof.
  intros Hnd Hx.
  apply NoDup_ListNoDup, NoDup_app in Hnd as (Ha & Hab & Hob).
  apply NoDup_app in Hob as (_ & _ & Hb).
  apply NoDup_ListNoDup, NoDup_app. split; [exact Ha|]. split.
  - intros y Hy Hy'. apply elem_of_cons in Hy' as [->|Hy'].
    + apply Hx, in_or_app. left. now apply list_elem_of_In.
    + apply (Hab y Hy). apply elem_of_app. now right.
  - apply NoDup_cons. split; [|exact Hb].
    intros Hxb. apply Hx, in_or_app. right. apply in_or_app. right.
    now apply list_elem_of_In.
Qed.

Lemma JSMap_set_split {V} (k : Z) (v : V) (m : list (Z * V)) :
  exists vs1 old vs2,
    JSMap.values m = vs1 ++ old ++ vs2 /\
    JSMap.values (JSMap.set k v m) = vs1 ++ v :: vs2.
Proof.
  induction m as [|e m (vs1 & old & vs2 & E & E')].
  - exists [], [], []. split; reflexivity.
  - cbn [JSMap.set]. destruct (e.1 =? k)%Z.
    + exists [], [e.2], (JSMap.values m). split; reflexivity.
    + exists (e.2 :: vs1), old, vs2. unfold JSMap.values in *.
      cbn [List.map app]. now rewrite E, E'.
Qed.

Lemma omap_insert_other (h : gmap positive Post.t) l post
  (vs : list positive) :
  ~ In l vs ->
  omap (fun v => <[l := post]> h !! v) vs = omap (fun v => h !! v) vs.
Proof.
  induction vs as [|v vs IH]; intros Hl; [reflexivity|].
  rewrite !omap_cons_eq, lookup_insert_ne, IH.
  - reflexivity.
  - intros H. apply Hl. now right.
  - intros ->. apply Hl. now left.
Qed.

Lemma DB_create_keeps_unique (toLowerCase : list N -> list N)
  {ReqBody : Type} (parse : ReqBody -> option InsertPost.t)
  (reqBody : ReqBody) (now : Z) (s : DatabaseStorage.State) :
  uniqueSlugs s ->
  uniqueSlugs (createPostRoute toLowerCase parse reqBody now s).2.
Proof.
  intros Hu. unfold createPostRoute.
  destruct (parse reqBody) as [parsed|]; [|exact Hu].
  set (postData := if falsy (Some (InsertPost.slug parsed)) then _ else _).
  destruct (getPostBySlug (InsertPost.slug postData) s) eqn:Hg; [exact Hu|].
  apply absent_none in Hg.
  assert (Hrows : exists post,
             Post.slug post = InsertPost.slug postData /\
             DatabaseStorage.posts (DatabaseStorage.createPost postData now s).2
             = DatabaseStorage.posts s ++ [post]).
  { unfold DatabaseStorage.createPost. eexists. split; cycle 1.
    - destruct (savePostToFile _ _ _); reflexivity.
    - reflexivity. }
  destruct Hrows as (post & Hslug & Hrows).
  change (createPost postData now s)
    with (DatabaseStorage.createPost postData now s).
  destruct (DatabaseStorage.createPost postData now s) as [[r|] s'];
    cbn [fst snd] in *;
    (unfold uniqueSlugs in *;
     change (allPosts s') with (DatabaseStorage.posts s');
     rewrite Hrows, List.map_app; cbn [List.map];
     apply (NoDup_insert_middle _ [] []); rewrite ?app_nil_r; [exact Hu|];
     intros Hin; apply in_map_iff in Hin as (q & Hq & Hin);
     pose proof (proj1 (List.Forall_forall _ _) Hg q Hin) as Hne;
     apply Hne; congruence).
Qed.

Lemma Mem_createPost_fields (d : InsertPost.t) (now : Z)
  (s : MemStorage.State) :
  exists post,
    Post.slug post = InsertPost.slug d /\
    MemStorage.postObjs (MemStorage.createPost d now s).2
    = <[fresh (dom (MemStorage.postObjs s)) := post]> (MemStorage.postObjs s)
    /\
    MemStorage.posts (MemStorage.createPost d now s).2
    = JSMap.set (MemStorage.currentPostId s)
        (fresh (dom (MemStorage.postObjs s))) (MemStorage.posts s).
Proof.
  unfold MemStorage.createPost. eexists. split; cycle 1.
  - destruct (savePostToFile _ _ _); split; reflexivity.
  - reflexivity.
Qed.

Lemma Mem_create_keeps_unique (toLowerCase : list N -> list N)
  {ReqBody : Type} (parse : ReqBody -> option InsertPost.t)
  (reqBody : ReqBody) (now : Z) (s : MemStorage.State) :
  noDangling s -> uniqueSlugs s ->
  uniqueSlugs (createPostRoute toLowerCase parse reqBody now s).2 /\
  noDangling (createPostRoute toLowerCase parse reqBody now s).2.
Proof.
  intros Hwf Hu. unfold createPostRoute.
  destruct (parse reqBody) as [parsed|]; [|now split].
  set (postData := if falsy (Some (InsertPost.slug parsed)) then _ else _).
  destruct (getPostBySlug (InsertPost.slug postData) s) eqn:Hg; [now split|].
  apply absent_none in Hg.
  change (allPosts s) with (MemStorage.allPosts s) in Hg.
  unfold uniqueSlugs in Hu.
  change (allPosts s) with (MemStorage.allPosts s) in Hu.
  destruct (Mem_createPost_fields postData now s)
    as (post & Hslug & Hobjs & Hposts).
  change (createPost postData now s)
    with (MemStorage.createPost postData now s).
  assert (Hstate : exists s',
             (match MemStorage.createPost postData now s with
              | (Returned post0, s0) => (mkResponse 200 (JPost post0), s0)
              | (Thrown, s0) =>
                  (mkResponse 500 (JError (str "Failed to create post")), s0)
              end).2 = s' /\ (MemStorage.createPost postData now s).2 = s').
  { destruct (MemStorage.createPost postData now s) as [[r|] s0]; eauto. }
  destruct Hstate as (s' & -> & Es'). rewrite Es' in Hobjs, Hposts.
  clear Es'. set (l := fresh (dom (MemStorage.postObjs s))) in *.
  assert (Hfresh : MemStorage.postObjs s !! l = None).
  { apply not_elem_of_dom. apply is_fresh. }
  destruct (JSMap_set_split (MemStorage.currentPostId s) l (MemStorage.posts s))
    as (vs1 & old & vs2 & E & E').
  assert (Hl : forall vs, (forall v, In v vs ->
                             In v (JSMap.values (MemStorage.posts s))) ->
                          ~ In l vs).
  { intros vs Hsub Hin. destruct (Hwf l (Hsub l Hin)) as [x Hx].
    rewrite Hfresh in Hx. discriminate. }
  split.
  - unfold uniqueSlugs.
    change (allPosts s') with (MemStorage.allPosts s').
    unfold MemStorage.allPosts. rewrite Hobjs, Hposts.
    rewrite E', omap_app, omap_cons_eq, lookup_insert_eq.
    rewrite !omap_insert_other.
    2:{ apply Hl. intros v Hv. rewrite E. apply in_or_app. right.
        apply in_or_app. now right. }
    2:{ apply Hl. intros v Hv. rewrite E. apply in_or_app. now left. }
    unfold MemStorage.allPosts in Hu, Hg. rewrite E, !omap_app in Hu, Hg.
    rewrite !List.map_app in Hu. rewrite List.map_app. cbn [List.map].
    apply (NoDup_insert_middle _ _ _ _ Hu).
    intros Hin. rewrite <- !List.map_app in Hin.
    apply in_map_iff in Hin as (q & Hq & Hin).
    pose proof (proj1 (List.Forall_forall _ _) Hg q Hin) as Hne.
    apply Hne. now rewrite Hq, Hslug.
  - intros v Hv. rewrite Hposts, E' in Hv. rewrite Hobjs.
    apply lookup_insert_is_Some.
    destruct (decide (l = v)) as [->|Hne]; [now left|]. right.
    split; [exact Hne|]. apply Hwf. rewrite E.
    apply in_app_or in Hv as [Hv|[Hv|Hv]].
    + apply in_or_app. now left.
    + congruence.
    + apply in_or_app. right. apply in_or_app. now right.
Qed.

(** ** Deleting a post *)

Lemma JSMap_get_delete_ne {V} (k k' : Z) (m : list (Z * V)) :
  k' <> k -> JSMap.get k' (JSMap.delete k m) = JSMap.get k' m.
Proof.
  intros Hne. unfold JSMap.get, JSMap.delete.
  induction m as [|e m IH]; simpl; [reflexivity|].
  destruct (Z.eqb_spec e.1 k) as [Hk|Hk]; simpl.
  - destruct (Z.eqb_spec e.1 k'); [congruence | exact IH].
  - destruct (e.1 =? k')%Z; [reflexivity | exact IH].
Qed.

Lemma head_filter_filter {A} (f g : A -> bool) (l : list A) :
  (forall x, f x = true -> g x = true) ->
  head (List.filter f (List.filter g l)) = head (List.filter f l).
Proof.
  intros Hfg. induction l as [|a l IH]; simpl; [reflexivity|].
  destruct (f a) eqn:Hf.
  - rewrite (Hfg a Hf). simpl. now rewrite Hf.
  - destruct (g a); simpl; [now rewrite Hf | exact IH].
Qed.

Lemma head_filter_filter_out {A} (f : A -> bool) (l : list A) :
  head (List.filter f (List.filter (fun x => negb (f x)) l)) = None.
Proof.
  induction l as [|a l IH]; simpl; [reflexivity|].
  destruct (f a) eqn:Hf; simpl; [exact IH | now rewrite Hf].
Qed.

Lemma head_take_1 {A} (l : list A) : head (take 1 l) = head l.
Proof. destruct l; reflexivity. Qed.

Lemma Mem_delete_outcome (id : Z) (sm : MemStorage.State) :
  deleteOutcome id sm.
Proof.
  unfold deleteOutcome, deletePostRoute, mirrorFile.
  change (findPost id sm) with (MemStorage.getPost id sm).
  change (deletePost id sm) with (MemStorage.deletePost id sm).
  unfold MemStorage.deletePost.
  destruct (MemStorage.getPost id sm) as [post|] eqn:Hg; [|reflexivity].
  cbn [fst snd]. split; [reflexivity|].
  set (s' := MemStorage.mkState _ _ _ _ _ _ _ _).
  change (postsDir sm) with (MemStorage.postsDir sm).
  change (postsDir s') with (MemStorage.postsDir sm).
  change (mirror s')
    with (deletePostFile (MemStorage.postsDir sm) (Post.slug post)
            (MemStorage.files sm)).
  split.
  { change (MemStorage.getPost id s' = None).
    unfold MemStorage.getPost, s'. simpl. now rewrite JSMap_get_delete. }
  split.
  { intros k Hk. change (MemStorage.getPost k s' = MemStorage.getPost k sm).
    unfold MemStorage.getPost, s'. simpl. now rewrite JSMap_get_delete_ne. }
  split.
  - apply deletePostFile_gone.
  - intros path Hpath. now apply deletePostFile_other.
Qed.

Lemma DB_delete_outcome (id : Z) (sd : DatabaseStorage.State) :
  deleteOutcome id sd.
Proof.
  unfold deleteOutcome, deletePostRoute, mirrorFile.
  change (findPost id sd) with (head (DatabaseStorage.selectById id sd)).
  change (deletePost id sd) with (DatabaseStorage.deletePost id sd).
  unfold DatabaseStorage.deletePost.
  destruct (DatabaseStorage.selectById id sd) as [|post rest] eqn:Hsel;
    [reflexivity|].
  cbn [fst snd head]. split; [reflexivity|].
  set (s' := DatabaseStorage.mkState _ _ _ _ _ _).
  change (postsDir sd) with (DatabaseStorage.postsDir sd).
  change (postsDir s') with (DatabaseStorage.postsDir sd).
  change (mirror s')
    with (deletePostFile (DatabaseStorage.postsDir sd) (Post.slug post)
            (DatabaseStorage.files sd)).
  split.
  { change (head (take 1 (List.filter (fun p => (Post.id p =? id)%Z)
                            (List.filter (fun p => negb (Post.id p =? id)%Z)
                               (DatabaseStorage.posts sd)))) = None).
    rewrite head_take_1.
    apply (head_filter_filter_out (fun p => (Post.id p =? id)%Z)). }
  split.
  { intros k Hk.
    change (head (take 1 (List.filter (fun p => (Post.id p =? k)%Z)
                            (List.filter (fun p => negb (Post.id p =? id)%Z)
                               (DatabaseStorage.posts sd))))
            = head (take 1 (List.filter (fun p => (Post.id p =? k)%Z)
                              (DatabaseStorage.posts sd)))).
    rewrite !head_take_1. apply head_filter_filter.
    intros x Hx. apply Z.eqb_eq in Hx. apply negb_true_iff, Z.eqb_neq. lia. }
  split.
  - apply deletePostFile_gone.
  - intros path Hpath. now apply deletePostFile_other.
Qed.

(** C6. With either storage, a request DELETE /api/admin/posts/:id for the
    id of a stored post answers success, after which no post is stored
    under that id and no file is read at the place of the mirror file of
    the post's slug, the other posts and the files at other places being
    as they were; for an id under which nothing is stored the answer is
    404 and the state is the one before. *)
Theorem C6_delete_row_and_mirror (id : Z)
  (sm : MemStorage.State) (sd : DatabaseStorage.State) :
  deleteOutcome id sm /\ deleteOutcome id sd.
Proof. split; [apply Mem_delete_outcome | apply DB_delete_outcome]. Qed.

(** ** Marking a contact as read *)

Lemma asRead_idem (c : Contact.t) : asRead (asRead c) = asRead c.
Proof. reflexivity. Qed.

(** *** MemStorage *)

Lemma Mem_mark_found (id : Z) (s : MemStorage.State) l c :
  JSMap.get id (MemStorage.contacts s) = Some l ->
  MemStorage.contactObjs s !! l = Some c ->
  MemStorage.markContactAsRead id s
  = MemStorage.mkState (MemStorage.postObjs s)
      (<[l := asRead c]> (MemStorage.contactObjs s))
      (MemStorage.posts s) (MemStorage.contacts s)
      (MemStorage.currentPostId s) (MemStorage.currentContactId s)
      (MemStorage.postsDir s) (MemStorage.files s).
Proof.
  intros Hl Hc. unfold MemStorage.markContactAsRead. now rewrite Hl, Hc.
Qed.

Lemma Mem_mark_absent (id : Z) (s : MemStorage.State) :
  MemStorage.getContact id s = None -> MemStorage.markContactAsRead id s = s.
Proof.
  unfold MemStorage.getContact, MemStorage.markContactAsRead.
  destruct (JSMap.get id (MemStorage.contacts s)) as [l|]; simpl;
    [|reflexivity].
  now intros ->.
Qed.

Lemma Mem_mark_idem (id : Z) (s : MemStorage.State) :
  MemStorage.markContactAsRead id (MemStorage.markContactAsRead id s)
  = MemStorage.markContactAsRead id s.
Proof.
  destruct (JSMap.get id (MemStorage.contacts s)) as [l|] eqn:Hl.
  - destruct (MemStorage.contactObjs s !! l) as [c|] eqn:Hc.
    + rewrite (Mem_mark_found id s l c Hl Hc).
      rewrite (Mem_mark_found id _ l (asRead c)); simpl;
        [| exact Hl | apply lookup_insert_eq].
      now rewrite insert_insert_eq.
    + assert (E : MemStorage.markContactAsRead id s = s)
        by (unfold MemStorage.markContactAsRead; now rewrite Hl, Hc).
      now rewrite !E.
  - assert (E : MemStorage.markContactAsRead id s = s)
      by (unfold MemStorage.markContactAsRead; now rewrite Hl).
    now rewrite !E.
Qed.

Lemma Mem_marks_once (id : Z) (s : MemStorage.State) : marksReadOnce id s.
Proof.
  unfold marksReadOnce, markReadRoute.
  change (markContactAsRead id) with (MemStorage.markContactAsRead id).
  cbn [snd]. rewrite Mem_mark_idem. split; [reflexivity|].
  split; [reflexivity|].
  change (findContact id s) with (MemStorage.getContact id s).
  destruct (MemStorage.getContact id s) as [c|] eqn:Hg; [|exact I].
  change (exists c',
             MemStorage.getContact id (MemStorage.markContactAsRead id s)
             = Some c' /\ readVersionOf c c').
  unfold MemStorage.getContact in Hg.
  destruct (JSMap.get id (MemStorage.contacts s)) as [l|] eqn:Hl;
    [|discriminate].
  simpl in Hg. rewrite (Mem_mark_found id s l c Hl Hg).
  exists (asRead c). split; [|repeat split; reflexivity].
  unfold MemStorage.getContact. simpl. rewrite Hl. simpl.
  apply lookup_insert_eq.
Qed.

Lemma Mem_marks_absent (id : Z) (s : MemStorage.State) : marksAbsent id s.
Proof.
  unfold marksAbsent, markReadRoute. split; [reflexivity|].
  change (findContact id s) with (MemStorage.getContact id s).
  destruct (MemStorage.getContact id s) eqn:Hg; [exact I|].
  now apply Mem_mark_absent.
Qed.

(** *** DatabaseStorage *)

Lemma readIf_idem id c : readIf id (readIf id c) = readIf id c.
Proof.
  unfold readIf. destruct (Contact.id c =? id)%Z eqn:E; simpl.
  - now rewrite E.
  - now rewrite E.
Qed.

Lemma readIf_head id (rows : list Contact.t) c :
  head (List.filter (fun c => (Contact.id c =? id)%Z) rows) = Some c ->
  head (List.filter (fun c => (Contact.id c =? id)%Z)
          (List.map (readIf id) rows)) = Some (asRead c).
Proof.
  induction rows as [|a rows IH]; [discriminate|].
  cbn [List.filter List.map].
  assert (Hid : Contact.id (readIf id a) = Contact.id a)
    by (unfold readIf; now destruct (Contact.id a =? id)%Z).
  rewrite Hid. destruct (Contact.id a =? id)%Z eqn:E; [|exact IH].
  cbn [head]. intros [= ->]. unfold readIf. now rewrite E.
Qed.

Lemma readIf_none id (rows : list Contact.t) :
  head (List.filter (fun c => (Contact.id c =? id)%Z) rows) = None ->
  List.map (readIf id) rows = rows.
Proof.
  induction rows as [|a rows IH]; [reflexivity|].
  cbn [List.filter List.map].
  destruct (Contact.id a =? id)%Z eqn:E; [discriminate|].
  intros H. rewrite (IH H). unfold readIf. now rewrite E.
Qed.

Lemma DB_markContactAsRead (id : Z) (s : DatabaseStorage.State) :
  DatabaseStorage.markContactAsRead id s
  = DatabaseStorage.mkState (DatabaseStorage.posts s)
      (updateWhere (fun c => (Contact.id c =? id)%Z) asRead
         (DatabaseStorage.contacts s))
      (DatabaseStorage.posts_id_seq s) (DatabaseStorage.contacts_id_seq s)
      (DatabaseStorage.postsDir s) (DatabaseStorage.files s).
Proof. reflexivity. Qed.

Lemma DB_mark_idem (id : Z) (s : DatabaseStorage.State) :
  DatabaseStorage.markContactAsRead id
    (DatabaseStorage.markContactAsRead id s)
  = DatabaseStorage.markContactAsRead id s.
Proof.
  rewrite !DB_markContactAsRead. cbn. f_equal.
  apply updateWhere_twice; reflexivity.
Qed.

Lemma head_map {A B} (f : A -> B) (l : list A) :
  head (List.map f l) = f <$> head l.
Proof. now destruct l. Qed.

Lemma DB_marks_once (id : Z) (s : DatabaseStorage.State) :
  marksReadOnce id s.
Proof.
  unfold marksReadOnce, markReadRoute.
  change (markContactAsRead id) with (DatabaseStorage.markContactAsRead id).
  cbn [snd]. rewrite DB_mark_idem. split; [reflexivity|].
  split; [reflexivity|].
  change (findContact id s)
    with (head (List.filter (fun c => (Contact.id c =? id)%Z)
                  (DatabaseStorage.contacts s))).
  destruct (head _) as [c|] eqn:Hg; [|exact I].
  exists (asRead c). split; [|repeat split; reflexivity].
  change (head (List.filter (fun c => (Contact.id c =? id)%Z)
                  (updateWhere (fun c => (Contact.id c =? id)%Z) asRead
                     (DatabaseStorage.contacts s)))
          = Some (asRead c)).
  rewrite filter_updateWhere by reflexivity.
  now rewrite head_map, Hg.
Qed.

Lemma DB_marks_absent (id : Z) (s : DatabaseStorage.State) :
  marksAbsent id s.
Proof.
  unfold marksAbsent, markReadRoute. split; [reflexivity|].
  change (findContact id s)
    with (head (List.filter (fun c => (Contact.id c =? id)%Z)
                  (DatabaseStorage.contacts s))).
  destruct (head _) eqn:Hg; [exact I|].
  cbn [snd].
  change (DatabaseStorage.markContactAsRead id s = s).
  rewrite DB_markContactAsRead.
  rewrite updateWhere_none by now apply head_filter_none.
  now destruct s.
Qed.

(** C8. With either storage, marking a contact as read twice in a row
    leaves the state that marking it once leaves, through the storage call
    and through the handler alike; a contact stored under the id is then
    found under it with the status [read], its id, name, e-mail, subject,
    message and creation time being as they were. *)
Theorem C8_mark_read_idempotent (id : Z)
  (sm : MemStorage.State) (sd : DatabaseStorage.State) :
  marksReadOnce id sm /\ marksReadOnce id sd.
Proof. split; [apply Mem_marks_once | apply DB_marks_once]. Qed.

(** C9. With either storage, PATCH /api/admin/contacts/:id/read answers
    success for every id; when no contact is stored under the id, the state
    after the request is the state before it. *)
Theorem C9_mark_read_absent_succeeds (id : Z)
  (sm : MemStorage.State) (sd : DatabaseStorage.State) :
  marksAbsent id sm /\ marksAbsent id sd.
Proof. split; [apply Mem_marks_absent | apply DB_marks_absent]. Qed.

(** ** The front-matter parsers *)

(** *** [split] and [join] *)

Lemma split_not_nil (c : N) (s : list N) : split c s <> [].
Proof.
  induction s as [|x s IH]; simpl; [discriminate|].
  destruct (x =? c)%N; [discriminate|].
  destruct (split c s); [contradiction | discriminate].
Qed.

Lemma join_cons (sep p : list N) (ps : list (list N)) :
  ps <> [] -> join sep (p :: ps) = p ++ sep ++ join sep ps.
Proof. destruct ps; [contradiction | reflexivity]. Qed.

Lemma join_split (c : N) (s : list N) : join [c] (split c s) = s.
Proof.
  induction s as [|x s IH]; simpl split; [reflexivity|].
  destruct (N.eqb_spec x c) as [->|Hne].
  - rewrite join_cons by apply split_not_nil. simpl. now rewrite IH.
  - pose proof (split_not_nil c s) as Hnil.
    destruct (split c s) as [|l ls]; [contradiction|].
    destruct ls as [|l' ls'].
    + simpl in *. now rewrite IH.
    + rewrite join_cons in IH by discriminate.
      rewrite join_cons by discriminate. now rewrite <- IH.
Qed.

(** [split] gives the text before the first separator, then parts that
    [join] back to the text after it. *)
Lemma split_first (c : N) (s : list N) :
  exists parts,
    split c s = takeWhile (fun x => negb (x =? c)%N) s :: parts /\
    join [c] parts = tail (dropWhile (fun x => negb (x =? c)%N) s).
Proof.
  induction s as [|x s (parts & E & J)]; simpl.
  - exists []. split; reflexivity.
  - destruct (x =? c)%N; simpl.
    + exists (split c s). split; [reflexivity | apply join_split].
    + rewrite E. exists parts. split; [reflexivity | exact J].
Qed.

Lemma assignLine_spec (line : list N) (r : Parsed.t) :
  MemStorage.assignLine line r
  = MemStorage.setField (trim (keyOf line)) (trim (valueOf line)) r.
Proof.
  unfold MemStorage.assignLine, keyOf, valueOf.
  destruct (split_first COLON line) as (parts & -> & ->). reflexivity.
Qed.

(** *** [findIndex] and [slice] against the delimiter lines *)

Lemma findIndexFrom_until (i : nat) (lines : list (list N)) :
  (0 < i)%nat ->
  match untilDelimiter lines with
  | Some (header, body) =>
      findIndexFrom isClosing i lines = Z.of_nat (i + length header) /\
      lines = header ++ str "---" :: body
  | None => findIndexFrom isClosing i lines = (-1)%Z
  end.
Proof.
  revert i. induction lines as [|l ls IH]; intros i Hi; simpl; [reflexivity|].
  assert (Hc : isClosing l i = eqs l (str "---")).
  { unfold isClosing.
    now replace (0 <? i)%nat with true by (symmetry; now apply Nat.ltb_lt). }
  rewrite !Hc. destruct (eqs l (str "---")) eqn:El.
  - apply eqs_true in El. subst l.
    split; [simpl; f_equal; lia | reflexivity].
  - specialize (IH (S i) ltac:(lia)).
    destruct (untilDelimiter ls) as [[header body]|].
    + destruct IH as [E ->]. split; [|reflexivity].
      rewrite E. simpl. f_equal. lia.
    + exact IH.
Qed.

Lemma Mem_parseFrontmatter_spec (content : list N) :
  MemStorage.parseFrontmatter content = frontmatter_spec [] content.
Proof.
  unfold MemStorage.parseFrontmatter, frontmatter_spec, frontmatterOf.
  pose proof (split_not_nil NL content) as Hnil.
  destruct (split NL content) as [|first rest]; [contradiction|]. clear Hnil.
  simpl head.
  destruct (decide (first = str "---")) as [->|Hne].
  - rewrite (bool_decide_eq_true_2 (Some (str "---") = Some (str "---")))
      by reflexivity.
    rewrite eqs_refl. unfold findIndex.
    change (findIndexFrom _ 0 (str "---" :: rest))
      with (findIndexFrom isClosing 1 rest).
    pose proof (findIndexFrom_until 1 rest ltac:(lia)) as H.
    destruct (untilDelimiter rest) as [[header body]|].
    + destruct H as [-> ->].
      replace (0 <? Z.of_nat (1 + length header))%Z with true
        by (symmetry; apply Z.ltb_lt; lia).
      unfold slice, sliceFrom.
      replace (Z.to_nat (Z.of_nat (1 + length header)) - Z.to_nat 1)%nat
        with (length header) by lia.
      replace (Z.to_nat (Z.of_nat (1 + length header) + 1))
        with (S (S (length header))) by lia.
      change (Z.to_nat 1) with 1%nat. simpl drop.
      rewrite drop_0, take_app_length.
      replace (drop (S (length header)) (header ++ str "---" :: body))
        with body.
      2:{ change (S (length header)) with (1 + length header)%nat.
          rewrite Nat.add_comm, <- drop_drop, drop_app_length.
          reflexivity. }
      unfold MemStorage.initial.
      generalize (Parsed.with_markdown (join [NL] body)
                    (Parsed.mk (str "Untitled") [] (str "5 min read")
                       (str "General") [] (str "published") content)).
      induction header as [|l header IH]; intros r; simpl; [reflexivity|].
      rewrite assignLine_spec. apply IH.
    + rewrite H. reflexivity.
  - rewrite (bool_decide_eq_false_2 (Some first = Some (str "---")))
      by congruence.
    destruct (eqs first (str "---")) eqn:E; [|reflexivity].
    apply eqs_true in E. contradiction.
Qed.

(** *** The pattern of [DatabaseStorage] and the delimiter lines *)

Lemma stripPrefix_app (p r : list N) : stripPrefix p (p ++ r) = Some r.
Proof.
  induction p as [|a p IH]; simpl; [reflexivity|]. now rewrite N.eqb_refl.
Qed.

Lemma stripPrefix_some (p s r : list N) :
  stripPrefix p s = Some r -> s = p ++ r.
Proof.
  revert s. induction p as [|a p IH]; intros s; simpl.
  - now intros [= ->].
  - destruct s as [|b s]; [discriminate|].
    destruct (N.eqb_spec a b) as [->|]; [|discriminate].
    intros H. now rewrite (IH s H).
Qed.

Lemma cutAt_some (pat s before after : list N) :
  cutAt pat s = Some (before, after) -> s = before ++ pat ++ after.
Proof.
  revert before. induction s as [|c s IH]; intros before; simpl.
  - destruct (stripPrefix pat []) eqn:E; [|discriminate].
    intros [= <- <-]. now apply stripPrefix_some in E.
  - destruct (stripPrefix pat (c :: s)) eqn:E.
    + intros [= <- <-]. now apply stripPrefix_some in E.
    + destruct (cutAt pat s) as [[b a]|]; [|discriminate].
      intros [= <- <-]. simpl. f_equal. now apply IH.
Qed.

Lemma split_app (c : N) (a b : list N) :
  split c (a ++ c :: b) = split c a ++ split c b.
Proof.
  induction a as [|x a IH]; simpl.
  - now rewrite N.eqb_refl.
  - destruct (x =? c)%N; [now rewrite IH|].
    rewrite IH. pose proof (split_not_nil c a) as Hnil.
    destruct (split c a); [contradiction | reflexivity].
Qed.

Lemma untilDelimiter_app (a b : list (list N)) :
  untilDelimiter (a ++ str "---" :: b) <> None.
Proof.
  induction a as [|l a IH]; cbn [app untilDelimiter].
  - rewrite eqs_refl. discriminate.
  - destruct (eqs l (str "---")); [discriminate|].
    destruct (untilDelimiter (a ++ str "---" :: b)) as [[h t]|];
      [discriminate | contradiction].
Qed.

(** A content in which [DatabaseStorage] finds a front matter has one in
    the sense of the specification. *)
Lemma frontmatterRegex_frontmatterOf (content : list N) :
  frontmatterOf content = None ->
  DatabaseStorage.frontmatterRegex content = None.
Proof.
  intros Hnone. unfold DatabaseStorage.frontmatterRegex.
  destruct (stripPrefix (str "---" ++ [NL]) content) as [rest|] eqn:Hp;
    [|reflexivity].
  cbn [mbind option_bind].
  destruct (cutAt _ rest) as [[fm md]|] eqn:Hc; [exfalso|reflexivity].
  apply stripPrefix_some in Hp. apply cutAt_some in Hc. subst.
  unfold frontmatterOf in Hnone.
  replace ((str "---" ++ [NL]) ++ fm ++ ([NL] ++ str "---" ++ [NL]) ++ md)
    with (str "---" ++ NL :: (fm ++ NL :: (str "---" ++ NL :: md))) in Hnone
    by (rewrite <- !app_assoc; reflexivity).
  rewrite !split_app in Hnone.
  change (split NL (str "---")) with [str "---"] in Hnone.
  cbn [app] in Hnone. rewrite eqs_refl in Hnone.
  now apply untilDelimiter_app in Hnone.
Qed.

Lemma DB_parse_without (content : list N) :
  frontmatterOf content = None ->
  DatabaseStorage.parseMarkdownFile content
  = frontmatter_spec (str "No excerpt available") content.
Proof.
  intros H. unfold DatabaseStorage.parseMarkdownFile, frontmatter_spec.
  now rewrite (frontmatterRegex_frontmatterOf content H), H.
Qed.

(** *** Headers [DatabaseStorage] reads line by line *)

Lemma notTerminator_NL (c : N) : notTerminator c = true -> (NL =? c)%N = false.
Proof.
  unfold notTerminator, isLineTerminator. intros H.
  destruct (N.eqb_spec NL c) as [<-|]; [discriminate | reflexivity].
Qed.

Lemma join_lineEnd (l : list N) (ls : list (list N)) :
  exists t, join [NL] (l :: ls) = l ++ t /\ lineEnd t /\
            (ls = [] -> t = []) /\ (ls <> [] -> t = NL :: join [NL] ls).
Proof.
  destruct ls as [|l2 ls].
  - exists []. simpl. rewrite app_nil_r.
    split; [reflexivity|]. split; [now left|]. split; [reflexivity|].
    intros H. contradiction.
  - exists (NL :: join [NL] (l2 :: ls)).
    split; [reflexivity|]. split; [right; eauto|].
    split; [discriminate | reflexivity].
Qed.

(** **** Finding the closing delimiter *)

Lemma cutAt_here (pat s r : list N) :
  stripPrefix pat s = Some r -> cutAt pat s = Some ([], r).
Proof. intros H. destruct s; cbn [cutAt]; now rewrite H. Qed.

Lemma cutAt_line (l t : list N) :
  forallb notTerminator l = true ->
  cutAt closing (l ++ t)
  = match cutAt closing t with
    | Some (before, after) => Some (l ++ before, after)
    | None => None
    end.
Proof.
  induction l as [|c l IH]; intros Hl.
  - simpl. now destruct (cutAt closing t) as [[b a]|].
  - apply andb_true_iff in Hl as [Hc Hl].
    change ((c :: l) ++ t) with (c :: (l ++ t)).
    cbn [cutAt]. change (stripPrefix closing (c :: l ++ t))
      with (if (NL =? c)%N then stripPrefix (str "---" ++ [NL]) (l ++ t)
            else None).
    rewrite (notTerminator_NL c Hc), (IH Hl).
    now destruct (cutAt closing t) as [[b a]|].
Qed.

Lemma stripPrefix_line (p l t r : list N) :
  forallb notTerminator p = true ->
  forallb notTerminator l = true ->
  stripPrefix (p ++ [NL]) (l ++ NL :: t) = Some r -> l = p.
Proof.
  revert l. induction p as [|a p IH]; intros l Hp Hl.
  - destruct l as [|c l]; [reflexivity|].
    apply andb_true_iff in Hl as [Hc _]. cbn [app stripPrefix].
    now rewrite (notTerminator_NL c Hc).
  - apply andb_true_iff in Hp as [Ha Hp].
    destruct l as [|c l]; cbn [app stripPrefix].
    + destruct (N.eqb_spec a NL) as [->|]; [discriminate Ha | discriminate].
    + apply andb_true_iff in Hl as [_ Hl].
      destruct (N.eqb_spec a c) as [->|]; [|discriminate].
      intros H. f_equal. now apply IH.
Qed.

Lemma cutAt_header (header : list (list N)) (body : list N) :
  header <> [] ->
  forallb regularLine header = true ->
  cutAt closing (join [NL] header ++ closing ++ body)
  = Some (join [NL] header, body).
Proof.
  induction header as [|l ls IH]; [contradiction|]. intros _ Hreg.
  apply andb_true_iff in Hreg as [Hl Hls].
  assert (Hterm : forallb notTerminator l = true).
  { unfold regularLine in Hl. apply andb_true_iff in Hl as [Hl _].
    now apply andb_true_iff in Hl as [Hl _]. }
  destruct ls as [|l2 ls].
  - cbn [join]. rewrite (cutAt_line l _ Hterm).
    rewrite (cutAt_here closing _ body (stripPrefix_app closing body)).
    now rewrite app_nil_r.
  - rewrite join_cons by discriminate.
    replace ((l ++ [NL] ++ join [NL] (l2 :: ls)) ++ closing ++ body)
      with (l ++ NL :: (join [NL] (l2 :: ls) ++ closing ++ body))
      by (rewrite <- !app_assoc; reflexivity).
    rewrite (cutAt_line l _ Hterm). cbn [cutAt].
    assert (Hno : stripPrefix closing
                    (NL :: join [NL] (l2 :: ls) ++ closing ++ body) = None).
    { destruct (stripPrefix closing _) as [r|] eqn:E; [exfalso|reflexivity].
      change (stripPrefix closing (NL :: ?s))
        with (stripPrefix (str "---" ++ [NL]) s) in E.
      pose proof Hls as Hl2. cbn [forallb] in Hl2.
      apply andb_true_iff in Hl2 as [Hl2 _]. unfold regularLine in Hl2.
      apply andb_true_iff in Hl2 as [Hl2 _].
      apply andb_true_iff in Hl2 as [Ht2 Hd2].
      destruct (join_lineEnd l2 ls) as (t & Ej & _ & Hnil & Hcons).
      rewrite Ej, <- app_assoc in E.
      assert (Et : exists t', t ++ closing ++ body = NL :: t').
      { destruct ls; [rewrite Hnil by reflexivity | rewrite Hcons by discriminate];
          eexists; reflexivity. }
      destruct Et as [t' Et]. rewrite Et in E.
      apply stripPrefix_line in E; [|reflexivity | exact Ht2].
      subst l2. rewrite eqs_refl in Hd2. discriminate. }
    now rewrite Hno, (IH ltac:(discriminate) Hls).
Qed.

Lemma DB_frontmatterRegex_header (header : list (list N)) (body : list N) :
  header <> [] ->
  forallb regularLine header = true ->
  DatabaseStorage.frontmatterRegex (withHeader header body)
  = Some (join [NL] header, body).
Proof.
  intros Hne Hreg. unfold DatabaseStorage.frontmatterRegex, withHeader.
  rewrite stripPrefix_app. cbn [mbind option_bind].
  now apply cutAt_header.
Qed.

(** **** Finding the line of a key *)

Lemma lineMatch_unfold (lit : list N) (bol : bool) (s : list N) :
  DatabaseStorage.lineMatch lit bol s
  = match (if bol then stripPrefix lit s else None) with
    | Some rest => Some (takeWhile notTerminator (dropWhile isSpace rest))
    | None =>
        match s with
        | [] => None
        | c :: s' => DatabaseStorage.lineMatch lit (isLineTerminator c) s'
        end
    end.
Proof. destruct s; reflexivity. Qed.

Lemma lineMatch_skip (lit l t : list N) :
  forallb notTerminator l = true ->
  DatabaseStorage.lineMatch lit false (l ++ t)
  = DatabaseStorage.lineMatch lit false t.
Proof.
  induction l as [|c l IH]; intros Hl; [reflexivity|].
  apply andb_true_iff in Hl as [Hc Hl].
  change ((c :: l) ++ t) with (c :: (l ++ t)).
  rewrite lineMatch_unfold. unfold notTerminator in Hc.
  apply negb_true_iff in Hc. rewrite Hc. now apply IH.
Qed.

Lemma stripPrefix_more (lit l t rest : list N) :
  stripPrefix lit l = Some rest -> stripPrefix lit (l ++ t) = Some (rest ++ t).
Proof.
  intros H. apply stripPrefix_some in H. subst l.
  rewrite <- app_assoc. apply stripPrefix_app.
Qed.

Lemma stripPrefix_lineEnd (lit l t : list N) :
  forallb notTerminator lit = true -> lineEnd t ->
  stripPrefix lit l = None -> stripPrefix lit (l ++ t) = None.
Proof.
  intros Hlit Ht. revert l. induction lit as [|a lit IH]; intros l;
    [discriminate|].
  apply andb_true_iff in Hlit as [Ha Hlit].
  destruct l as [|c l]; cbn [app stripPrefix].
  - intros _. destruct Ht as [->|[t' ->]]; [reflexivity|].
    destruct (N.eqb_spec a NL) as [->|]; [discriminate Ha | reflexivity].
  - destruct (a =? c)%N; [now apply IH | reflexivity].
Qed.

Lemma dropWhile_app_some {A} (f : A -> bool) (a t : list A) :
  existsb (fun x => negb (f x)) a = true ->
  dropWhile f (a ++ t) = dropWhile f a ++ t.
Proof.
  induction a as [|x a IH]; simpl; [discriminate|].
  destruct (f x); simpl; [exact IH | reflexivity].
Qed.

Lemma dropWhile_forallb {A} (f p : A -> bool) (l : list A) :
  forallb p l = true -> forallb p (dropWhile f l) = true.
Proof.
  induction l as [|x l IH]; simpl; [reflexivity|].
  intros H. destruct (f x); [|exact H].
  apply andb_true_iff in H as [_ H]. now apply IH.
Qed.

Lemma dropWhile_idem {A} (f : A -> bool) (l : list A) :
  dropWhile f (dropWhile f l) = dropWhile f l.
Proof.
  induction l as [|x l IH]; simpl; [reflexivity|].
  destruct (f x) eqn:E; [exact IH | simpl; now rewrite E].
Qed.

Lemma takeWhile_line (x t : list N) :
  forallb notTerminator x = true -> lineEnd t ->
  takeWhile notTerminator (x ++ t) = x.
Proof.
  intros Hx Ht. induction x as [|c x IH]; cbn [app takeWhile].
  - destruct Ht as [->|[t' ->]]; reflexivity.
  - apply andb_true_iff in Hx as [Hc Hx]. rewrite Hc. now rewrite IH.
Qed.

Lemma trim_dropWhile (s : list N) : trim (dropWhile isSpace s) = trim s.
Proof. unfold trim, trimStart. now rewrite dropWhile_idem. Qed.

Lemma lineMatch_header (lit : list N) (header : list (list N)) :
  lit <> [] ->
  forallb notTerminator lit = true ->
  List.Forall (readable lit) header ->
  DatabaseStorage.lineMatch lit true (join [NL] header)
  = option_map (dropWhile isSpace) (firstWith lit header).
Proof.
  intros Hne Hlit. induction 1 as [|l ls [Hl Hrest] Hls IH].
  - cbn [join firstWith option_map]. rewrite lineMatch_unfold.
    destruct lit; [contradiction | reflexivity].
  - destruct (join_lineEnd l ls) as (t & -> & Ht & Hnil & Hcons).
    cbn [firstWith]. rewrite lineMatch_unfold.
    destruct (stripPrefix lit l) as [rest|] eqn:E.
    + rewrite (stripPrefix_more lit l t rest E). cbn [option_map]. f_equal.
      assert (Hr : forallb notTerminator rest = true).
      { apply stripPrefix_some in E. subst l.
        rewrite forallb_app in Hl. now apply andb_true_iff in Hl as [_ Hl]. }
      rewrite dropWhile_app_some by now apply Hrest.
      apply takeWhile_line; [now apply dropWhile_forallb | exact Ht].
    + rewrite (stripPrefix_lineEnd lit l t Hlit Ht E).
      destruct l as [|c l]; cbn [app].
      * destruct ls as [|l2 ls].
        -- now rewrite Hnil.
        -- rewrite Hcons by discriminate. exact IH.
      * apply andb_true_iff in Hl as [Hc Hl].
        unfold notTerminator in Hc. apply negb_true_iff in Hc. rewrite Hc.
        rewrite (lineMatch_skip lit l t Hl).
        destruct ls as [|l2 ls].
        -- now rewrite Hnil.
        -- rewrite Hcons by discriminate. rewrite lineMatch_unfold. exact IH.
Qed.

Lemma parseValue_header (key dflt : list N) (header : list (list N)) :
  forallb notTerminator (key ++ [COLON]) = true ->
  List.Forall (readable (key ++ [COLON])) header ->
  DatabaseStorage.parseValue (join [NL] header) key dflt
  = headerValue key dflt header.
Proof.
  intros Hkey Hread. unfold DatabaseStorage.parseValue, headerValue.
  rewrite (lineMatch_header (key ++ [COLON]) header); [| |exact Hkey|exact Hread].
  - destruct (firstWith (key ++ [COLON]) header); [|reflexivity].
    apply trim_dropWhile.
  - now destruct key.
Qed.

Lemma regular_readable (key : list N) (header : list (list N)) :
  In key knownKeys ->
  forallb regularLine header = true ->
  List.Forall (readable (key ++ [COLON])) header.
Proof.
  intros Hkey Hreg. apply List.Forall_forall. intros l Hl.
  pose proof (proj1 (forallb_forall _ _) Hreg l Hl) as H.
  unfold regularLine in H. apply andb_true_iff in H as [H Hkeys].
  apply andb_true_iff in H as [Hterm _]. split; [exact Hterm|].
  intros rest E.
  pose proof (proj1 (forallb_forall _ _) Hkeys key Hkey) as Hk.
  cbv beta in Hk. now rewrite E in Hk.
Qed.

Lemma DB_parse_header (header : list (list N)) (body : list N) :
  header <> [] ->
  forallb regularLine header = true ->
  DatabaseStorage.parseMarkdownFile (withHeader header body)
  = fromHeader header body.
Proof.
  intros Hne Hreg. unfold DatabaseStorage.parseMarkdownFile, fromHeader.
  rewrite (DB_frontmatterRegex_header header body Hne Hreg).
  rewrite !parseValue_header;
    try reflexivity;
    try (apply regular_readable; [|exact Hreg]; cbn; tauto).
Qed.

(** *** Strict headers: the two parsers agree *)

Lemma takeWhile_app_stop {A} (f : A -> bool) (a : list A) (x : A)
  (b : list A) :
  forallb f a = true -> f x = false -> takeWhile f (a ++ x :: b) = a.
Proof.
  intros Ha Hx. induction a as [|y a IH]; simpl; [now rewrite Hx|].
  apply andb_true_iff in Ha as [Hy Ha]. now rewrite Hy, IH.
Qed.

Lemma dropWhile_app_stop {A} (f : A -> bool) (a : list A) (x : A)
  (b : list A) :
  forallb f a = true -> f x = false -> dropWhile f (a ++ x :: b) = x :: b.
Proof.
  intros Ha Hx. induction a as [|y a IH]; simpl; [now rewrite Hx|].
  apply andb_true_iff in Ha as [Hy Ha]. now rewrite Hy, IH.
Qed.

Lemma stripPrefix_key (k l rest : list N) :
  forallb (fun c => negb (c =? COLON)%N) k = true ->
  stripPrefix (k ++ [COLON]) l = Some rest ->
  keyOf l = k /\ valueOf l = rest.
Proof.
  intros Hk H. apply stripPrefix_some in H. subst l.
  rewrite <- app_assoc. unfold keyOf, valueOf. cbn [app].
  rewrite takeWhile_app_stop, dropWhile_app_stop by (exact Hk || reflexivity).
  now split.
Qed.

Lemma knownKeys_plain (k : list N) :
  In k knownKeys ->
  forallb (fun c => negb (c =? COLON)%N) k = true /\ trim k = k /\
  forallb notTerminator (k ++ [COLON]) = true.
Proof.
  intros H. repeat (destruct H as [<-|H]; [repeat split; reflexivity|]).
  destruct H.
Qed.

Lemma split_line (l : list N) :
  forallb notTerminator l = true -> split NL l = [l].
Proof.
  induction l as [|c l IH]; [reflexivity|]. intros Hl.
  apply andb_true_iff in Hl as [Hc Hl]. cbn [split].
  now rewrite N.eqb_sym, (notTerminator_NL c Hc), (IH Hl).
Qed.

Lemma split_join_lines (header : list (list N)) :
  header <> [] ->
  List.Forall (fun l => forallb notTerminator l = true) header ->
  split NL (join [NL] header) = header.
Proof.
  intros Hne Hall. induction Hall as [|l ls Hl Hls IH]; [contradiction|].
  destruct ls as [|l2 ls].
  - cbn [join]. now apply split_line.
  - rewrite join_cons by discriminate. cbn [app].
    rewrite split_app, (split_line l Hl), IH by discriminate. reflexivity.
Qed.

Lemma untilDelimiter_header (header rest : list (list N)) :
  List.Forall (fun l => eqs l (str "---") = false) header ->
  untilDelimiter (header ++ str "---" :: rest) = Some (header, rest).
Proof.
  induction 1 as [|l ls Hl _ IH]; cbn [app untilDelimiter].
  - now rewrite eqs_refl.
  - now rewrite Hl, IH.
Qed.

Lemma regular_lines (header : list (list N)) :
  forallb regularLine header = true ->
  List.Forall (fun l => forallb notTerminator l = true) header /\
  List.Forall (fun l => eqs l (str "---") = false) header.
Proof.
  intros H. split; apply List.Forall_forall; intros l Hl;
    pose proof (proj1 (forallb_forall _ _) H l Hl) as Hr;
    unfold regularLine in Hr; apply andb_true_iff in Hr as [Hr _];
    apply andb_true_iff in Hr as [Ht Hd]; [exact Ht|].
  now apply negb_true_iff.
Qed.

Lemma frontmatterOf_withHeader (header : list (list N)) (body : list N) :
  header <> [] ->
  forallb regularLine header = true ->
  frontmatterOf (withHeader header body) = Some (header, split NL body).
Proof.
  intros Hne Hreg. destruct (regular_lines header Hreg) as [Hterm Hdelim].
  unfold frontmatterOf, withHeader.
  replace ((str "---" ++ [NL]) ++
           join [NL] header ++ ([NL] ++ str "---" ++ [NL]) ++ body)
    with (str "---" ++ NL :: (join [NL] header ++ NL :: (str "---" ++ NL :: body)))
    by (rewrite <- !app_assoc; reflexivity).
  rewrite !split_app, (split_join_lines header Hne Hterm).
  change (split NL (str "---")) with [str "---"]. cbn [app].
  rewrite eqs_refl. now apply untilDelimiter_header.
Qed.

(** The fields of a record after one line, and after all lines. *)

Ltac by_key key :=
  unfold MemStorage.setField;
  repeat lazymatch goal with
         | |- context [eqs key ?c] =>
             let E := fresh "E" in
             destruct (eqs key c) eqn:E;
             [apply eqs_true in E; subst key; vm_compute; reflexivity|]
         end;
  reflexivity.

Lemma setField_title key v r :
  Parsed.title (MemStorage.setField key v r)
  = if eqs key (str "title") then v else Parsed.title r.
Proof. by_key key. Qed.

Lemma setField_excerpt key v r :
  Parsed.excerpt (MemStorage.setField key v r)
  = if eqs key (str "excerpt") then v else Parsed.excerpt r.
Proof. by_key key. Qed.

Lemma setField_readTime key v r :
  Parsed.readTime (MemStorage.setField key v r)
  = if eqs key (str "readTime") then v else Parsed.readTime r.
Proof. by_key key. Qed.

Lemma setField_category key v r :
  Parsed.category (MemStorage.setField key v r)
  = if eqs key (str "category") then v else Parsed.category r.
Proof. by_key key. Qed.

Lemma setField_status key v r :
  Parsed.status (MemStorage.setField key v r)
  = if eqs key (str "status") then v else Parsed.status r.
Proof. by_key key. Qed.

Lemma setField_tags key v r :
  Parsed.tags (MemStorage.setField key v r)
  = if eqs key (str "tags")
    then List.filter (fun tag => negb (isEmpty tag))
           (List.map trim (split COMMA v))
    else Parsed.tags r.
Proof. by_key key. Qed.

Lemma setField_markdown key v r :
  Parsed.markdown (MemStorage.setField key v r) = Parsed.markdown r.
Proof.
  unfold MemStorage.setField.
  repeat lazymatch goal with
         | |- context [eqs key ?c] => destruct (eqs key c)
         end; reflexivity.
Qed.

Lemma fold_field {B} (F : Parsed.t -> B) (k : list N) (g : list N -> B) :
  (forall key v r,
      F (MemStorage.setField key v r) = if eqs key k then g v else F r) ->
  forall header r0,
    F (fold_left specStep header r0)
    = fold_left (fun acc line => if eqs (trim (keyOf line)) k
                                 then g (trim (valueOf line)) else acc)
        header (F r0).
Proof.
  intros HF header. induction header as [|l ls IH]; intros r0; [reflexivity|].
  cbn [fold_left]. rewrite IH. f_equal. unfold specStep. apply HF.
Qed.

Lemma strictLine_key (k l : list N) :
  In k knownKeys -> strictLine l = true ->
  stripPrefix (k ++ [COLON]) l = None -> eqs (trim (keyOf l)) k = false.
Proof.
  intros Hk Hs Hno. unfold strictLine in Hs.
  pose proof (proj1 (forallb_forall _ _) Hs k Hk) as H. cbv beta in H.
  rewrite (bool_decide_eq_true_2 _ Hno) in H. cbn in H.
  rewrite orb_false_r in H. now apply negb_true_iff.
Qed.

Lemma fold_passes (k : list N) {B} (g : list N -> B) (ls : list (list N))
  (d : B) :
  In k knownKeys -> forallb strictLine ls = true ->
  forallb (fun l' => bool_decide (stripPrefix (k ++ [COLON]) l' = None)) ls
  = true ->
  fold_left (fun acc line => if eqs (trim (keyOf line)) k
                             then g (trim (valueOf line)) else acc) ls d
  = d.
Proof.
  intros Hk. induction ls as [|l ls IH]; intros Hs Hno; [reflexivity|].
  apply andb_true_iff in Hs as [Hl Hs]. apply andb_true_iff in Hno as [Hn Hno].
  apply bool_decide_eq_true_1 in Hn. cbn [fold_left].
  rewrite (strictLine_key k l Hk Hl Hn). now apply IH.
Qed.

Lemma fold_first (k : list N) {B} (g : list N -> B)
  (header : list (list N)) (d : B) :
  In k knownKeys -> forallb strictLine header = true ->
  atMostOne (k ++ [COLON]) header = true ->
  fold_left (fun acc line => if eqs (trim (keyOf line)) k
                             then g (trim (valueOf line)) else acc) header d
  = match firstWith (k ++ [COLON]) header with
    | Some rest => g (trim rest)
    | None => d
    end.
Proof.
  intros Hk. destruct (knownKeys_plain k Hk) as (Hcolon & Htrim & _).
  induction header as [|l ls IH]; intros Hs Hone; [reflexivity|].
  apply andb_true_iff in Hs as [Hl Hs]. cbn [fold_left firstWith atMostOne] in *.
  destruct (stripPrefix (k ++ [COLON]) l) as [rest|] eqn:E.
  - destruct (stripPrefix_key k l rest Hcolon E) as [-> ->].
    rewrite Htrim, eqs_refl. now apply fold_passes.
  - rewrite (strictLine_key k l Hk Hl E). now apply IH.
Qed.

Lemma filter_all {A} (f : A -> bool) (l : list A) :
  forallb f l = true -> List.filter f l = l.
Proof.
  induction l as [|x l IH]; simpl; [reflexivity|].
  intros H. apply andb_true_iff in H as [Hx H]. now rewrite Hx, IH.
Qed.

Lemma Parsed_ext (r r' : Parsed.t) :
  Parsed.title r = Parsed.title r' ->
  Parsed.excerpt r = Parsed.excerpt r' ->
  Parsed.readTime r = Parsed.readTime r' ->
  Parsed.category r = Parsed.category r' ->
  Parsed.tags r = Parsed.tags r' ->
  Parsed.status r = Parsed.status r' ->
  Parsed.markdown r = Parsed.markdown r' ->
  r = r'.
Proof. destruct r, r'. simpl. congruence. Qed.

Lemma fold_markdown (header : list (list N)) (r0 : Parsed.t) :
  Parsed.markdown (fold_left specStep header r0) = Parsed.markdown r0.
Proof.
  revert r0. induction header as [|l ls IH]; intros r0; [reflexivity|].
  cbn [fold_left]. rewrite IH. apply setField_markdown.
Qed.

(** On a file whose header is regular and strict, the format of the
    specification and the reading of [DatabaseStorage] coincide. *)
Lemma spec_fromHeader (header : list (list N)) (body : list N) :
  header <> [] ->
  forallb regularLine header = true ->
  strictHeader header = true ->
  frontmatter_spec (str "No excerpt available") (withHeader header body)
  = fromHeader header body.
Proof.
  intros Hne Hreg Hstrict. unfold strictHeader in Hstrict.
  apply andb_true_iff in Hstrict as [Hstrict Htags].
  apply andb_true_iff in Hstrict as [Hlines Hone].
  assert (Hk : forall k, In k knownKeys ->
                         atMostOne (k ++ [COLON]) header = true).
  { intros k Hin. exact (proj1 (forallb_forall _ _) Hone k Hin). }
  unfold frontmatter_spec.
  rewrite (frontmatterOf_withHeader header body Hne Hreg), join_split.
  change (fold_left _ header ?r) with (fold_left specStep header r).
  apply Parsed_ext.
  - rewrite (fold_field Parsed.title (str "title") id setField_title).
    rewrite fold_first by (try apply Hk; cbn; tauto). reflexivity.
  - rewrite (fold_field Parsed.excerpt (str "excerpt") id setField_excerpt).
    rewrite fold_first by (try apply Hk; cbn; tauto). reflexivity.
  - rewrite (fold_field Parsed.readTime (str "readTime") id setField_readTime).
    rewrite fold_first by (try apply Hk; cbn; tauto). reflexivity.
  - rewrite (fold_field Parsed.category (str "category") id setField_category).
    rewrite fold_first by (try apply Hk; cbn; tauto). reflexivity.
  - pose (tagsOf := fun v : list N =>
                      List.filter (fun tag => negb (isEmpty tag))
                        (List.map trim (split COMMA v))).
    rewrite (fold_field Parsed.tags (str "tags") tagsOf setField_tags).
    rewrite (fold_first (str "tags") tagsOf)
      by (try apply Hk; cbn; tauto).
    unfold tagsOf, fromHeader in *. cbn [Parsed.tags] in *. unfold headerValue in *.
    destruct (firstWith (str "tags" ++ [COLON]) header) as [rest|];
      [|reflexivity].
    destruct (trim rest) as [|c tagsStr] eqn:Et; [reflexivity|].
    cbn [isEmpty] in *. now apply filter_all.
  - rewrite (fold_field Parsed.status (str "status") id setField_status).
    rewrite fold_first by (try apply Hk; cbn; tauto). reflexivity.
  - now rewrite fold_markdown.
Qed.

(** *** The two parsers against the format *)

Lemma Mem_parse_spec (content : list N) :
  MemStorage.parseMarkdownFile content
  = MemStorage.fillExcerpt (frontmatter_spec [] content).
Proof.
  unfold MemStorage.parseMarkdownFile. now rewrite Mem_parseFrontmatter_spec.
Qed.

(** C4, as the specification has it, fails for [DatabaseStorage]: a file
    that is a delimiter line, a title line and a delimiter line has a front
    matter, from which [MemStorage] reads the title, while the pattern of
    [DatabaseStorage], which wants a line feed after the closing delimiter,
    finds none and answers the defaults. *)
Lemma C4_counterexample_database_parser :
  let content := join [NL] [str "---"; str "title: Hello"; str "---"] in
  frontmatterOf content = Some ([str "title: Hello"], []) /\
  Parsed.title (frontmatter_spec (str "No excerpt available") content)
  = str "Hello" /\
  Parsed.title (MemStorage.parseMarkdownFile content) = str "Hello" /\
  Parsed.title (DatabaseStorage.parseMarkdownFile content) = str "Untitled" /\
  DatabaseStorage.parseMarkdownFile content
  <> frontmatter_spec (str "No excerpt available") content.
Proof.
  cbv zeta. repeat split; try (vm_compute; reflexivity).
  intros H. apply (f_equal Parsed.title) in H. vm_compute in H. discriminate.
Qed.

(** C4, amended. [MemStorage] parses every content as the format says and
    then fills a missing excerpt. [DatabaseStorage] answers the defaults,
    with its own default excerpt, for every content without a front matter;
    for a file made of a header of regular lines and a body it answers the
    body and, for each known key, the trimmed rest of the first line that
    begins with the key and a colon, or the default when there is none,
    the tags split at commas; when the header is strict as well, that is
    what the format says. *)
Theorem C4_frontmatter_parsers (content : list N)
  (header : list (list N)) (body : list N) :
  header <> [] ->
  forallb regularLine header = true ->
  MemStorage.parseMarkdownFile content
  = MemStorage.fillExcerpt (frontmatter_spec [] content) /\
  match frontmatterOf content with
  | None =>
      DatabaseStorage.parseMarkdownFile content
      = frontmatter_spec (str "No excerpt available") content
  | Some _ => True
  end /\
  DatabaseStorage.parseMarkdownFile (withHeader header body)
  = fromHeader header body /\
  if strictHeader header
  then DatabaseStorage.parseMarkdownFile (withHeader header body)
       = frontmatter_spec (str "No excerpt available")
           (withHeader header body)
  else True.
Proof.
  intros Hne Hreg. split; [apply Mem_parse_spec|]. split; [|split].
  - destruct (frontmatterOf content) eqn:E; [exact I|].
    now apply DB_parse_without.
  - now apply DB_parse_header.
  - destruct (strictHeader header) eqn:Hs; [|exact I].
    rewrite (DB_parse_header header body Hne Hreg).
    symmetry. now apply spec_fromHeader.
Qed.

(** *** The excerpt *)

Lemma excerpt_spec_length (body : list N) :
  (length (excerpt_spec body) <= 153)%nat.
Proof.
  unfold excerpt_spec, substring0. destruct (firstNonBlank body); simpl; [|lia].
  rewrite length_app, length_take. change (length (str "...")) with 3%nat. lia.
Qed.

Lemma Mem_excerpt_generated (content : list N) :
  Parsed.excerpt (frontmatter_spec [] content) = [] ->
  Parsed.excerpt (MemStorage.parseMarkdownFile content)
  = excerpt_spec (Parsed.markdown (MemStorage.parseMarkdownFile content)).
Proof.
  intros H. rewrite Mem_parse_spec. unfold MemStorage.fillExcerpt.
  rewrite H. reflexivity.
Qed.

Lemma DB_excerpt_without (content : list N) :
  frontmatterOf content = None ->
  Parsed.excerpt (DatabaseStorage.parseMarkdownFile content)
  = str "No excerpt available".
Proof.
  intros H. rewrite (DB_parse_without content H).
  unfold frontmatter_spec. now rewrite H.
Qed.

Lemma DB_excerpt_header (header : list (list N)) (body : list N) :
  header <> [] ->
  forallb regularLine header = true ->
  firstWith (str "excerpt" ++ [COLON]) header = None ->
  Parsed.excerpt (DatabaseStorage.parseMarkdownFile (withHeader header body))
  = str "No excerpt available".
Proof.
  intros Hne Hreg Hno. rewrite (DB_parse_header header body Hne Hreg).
  unfold fromHeader. cbn [Parsed.excerpt]. unfold headerValue.
  now rewrite Hno.
Qed.

(** C5, as the specification has it, fails for [DatabaseStorage]: for a
    file that is one line of text, without front matter, the excerpt is
    the fixed text, not the line with an ellipsis. *)
Lemma C5_counterexample_database_excerpt :
  let content := str "Hello world" in
  Parsed.excerpt (frontmatter_spec [] content) = [] /\
  firstNonBlank (Parsed.markdown (DatabaseStorage.parseMarkdownFile content))
  = Some (str "Hello world") /\
  Parsed.excerpt (MemStorage.parseMarkdownFile content)
  = str "Hello world..." /\
  Parsed.excerpt (DatabaseStorage.parseMarkdownFile content)
  = str "No excerpt available" /\
  Parsed.excerpt (DatabaseStorage.parseMarkdownFile content)
  <> excerpt_spec
       (Parsed.markdown (DatabaseStorage.parseMarkdownFile content)).
Proof.
  cbv zeta. repeat split; try (vm_compute; reflexivity).
  intros H. vm_compute in H. discriminate.
Qed.

(** C5, amended. When the front matter of a content gives no excerpt, or an
    empty one, [MemStorage] answers the first line of the body that is not
    blank, cut at 150 characters and followed by an ellipsis, hence at most
    153 characters, or the empty string when every line is blank.
    [DatabaseStorage] answers the fixed text [No excerpt available] for a
    content without a front matter and for a file whose header of regular
    lines has no line beginning with [excerpt:]. *)
Theorem C5_missing_excerpt (content : list N)
  (header : list (list N)) (body : list N) :
  Parsed.excerpt (frontmatter_spec [] content) = [] ->
  header <> [] ->
  forallb regularLine header = true ->
  firstWith (str "excerpt" ++ [COLON]) header = None ->
  (Parsed.excerpt (MemStorage.parseMarkdownFile content)
   = excerpt_spec (Parsed.markdown (MemStorage.parseMarkdownFile content)) /\
   (length (Parsed.excerpt (MemStorage.parseMarkdownFile content)) <= 153)%nat)
  /\
  match frontmatterOf content with
  | None =>
      Parsed.excerpt (DatabaseStorage.parseMarkdownFile content)
      = str "No excerpt available"
  | Some _ => True
  end /\
  Parsed.excerpt (DatabaseStorage.parseMarkdownFile (withHeader header body))
  = str "No excerpt available".
Proof.
  intros Hex Hne Hreg Hno. split; [|split].
  - split; [now apply Mem_excerpt_generated|].
    rewrite (Mem_excerpt_generated content Hex). apply excerpt_spec_length.
  - destruct (frontmatterOf content) eqn:E; [exact I|].
    now apply DB_excerpt_without.
  - now apply DB_excerpt_header.
Qed.

(** ** The theorems at sample inputs *)

Lemma C1_witness :
  Some Sample.helloAgain = Some Sample.helloAgain /\
  slugTaken (requestedSlug asciiLower Sample.helloAgain) Sample.memOne /\
  slugTaken (requestedSlug asciiLower Sample.helloAgain) Sample.dbOne /\
  refusedDuplicate Sample.memOne
    (createPostRoute asciiLower Some Sample.helloAgain 5 Sample.memOne) /\
  refusedDuplicate Sample.dbOne
    (createPostRoute asciiLower Some Sample.helloAgain 5 Sample.dbOne).
Proof.
  assert (Hm : slugTaken (requestedSlug asciiLower Sample.helloAgain)
                 Sample.memOne).
  { exists Sample.helloPost. split; [left|]; vm_compute; reflexivity. }
  assert (Hd : slugTaken (requestedSlug asciiLower Sample.helloAgain)
                 Sample.dbOne).
  { exists Sample.helloPost. split; [left|]; vm_compute; reflexivity. }
  split; [reflexivity|]. split; [exact Hm|]. split; [exact Hd|].
  exact (C1_duplicate_slug_rejected asciiLower Some Sample.helloAgain
           Sample.helloAgain 5 Sample.memOne Sample.dbOne eq_refl Hm Hd).
Defined.

Lemma C2_witness :
  Some Sample.untitled = Some Sample.untitled /\
  InsertPost.slug Sample.untitled = [] /\
  createsDerived asciiLower (InsertPost.title Sample.untitled) Sample.memEmpty
    (createPostRoute asciiLower Some Sample.untitled 5 Sample.memEmpty) /\
  createsDerived asciiLower (InsertPost.title Sample.untitled) Sample.dbEmpty
    (createPostRoute asciiLower Some Sample.untitled 5 Sample.dbEmpty).
Proof.
  split; [reflexivity|]. split; [reflexivity|].
  exact (C2_slug_derived_from_title asciiLower Some Sample.untitled
           Sample.untitled 5 Sample.memEmpty Sample.dbEmpty eq_refl eq_refl).
Defined.



Lemma C7_witness :
  (~ In AT (present (ContactBody.email Sample.noAt)) \/
   ~ In DOT (afterAt (present (ContactBody.email Sample.noAt)))) /\
  statusCode (contactRoute asciiLower Sample.noAt 5 Sample.dbContact).1
  = 400%Z /\
  (contactRoute asciiLower Sample.noAt 5 Sample.dbContact).2
  = Sample.dbContact.
Proof.
  assert (H : ~ In AT (present (ContactBody.email Sample.noAt)) \/
              ~ In DOT (afterAt (present (ContactBody.email Sample.noAt)))).
  { left. vm_compute. intros H.
    repeat (destruct H as [H|H]; [discriminate H|]). exact H. }
  split; [exact H|].
  exact (C7_malformed_email_rejected asciiLower Sample.noAt 5
           Sample.dbContact H).
Defined.

Lemma C4_witness :
  Sample.header <> [] /\
  forallb regularLine Sample.header = true /\
  MemStorage.parseMarkdownFile Sample.file
  = MemStorage.fillExcerpt (frontmatter_spec [] Sample.file) /\
  match frontmatterOf Sample.file with
  | None =>
      DatabaseStorage.parseMarkdownFile Sample.file
      = frontmatter_spec (str "No excerpt available") Sample.file
  | Some _ => True
  end /\
  DatabaseStorage.parseMarkdownFile
    (withHeader Sample.header (str "Body text"))
  = fromHeader Sample.header (str "Body text") /\
  if strictHeader Sample.header
  then DatabaseStorage.parseMarkdownFile
         (withHeader Sample.header (str "Body text"))
       = frontmatter_spec (str "No excerpt available")
           (withHeader Sample.header (str "Body text"))
  else True.
Proof.
  assert (Hne : Sample.header <> []) by discriminate.
  assert (Hreg : forallb regularLine Sample.header = true)
    by (vm_compute; reflexivity).
  split; [exact Hne|]. split; [exact Hreg|].
  exact (C4_frontmatter_parsers Sample.file Sample.header (str "Body text")
           Hne Hreg).
Defined.

Lemma C5_witness :
  Parsed.excerpt (frontmatter_spec [] Sample.file) = [] /\
  Sample.header <> [] /\
  forallb regularLine Sample.header = true /\
  firstWith (str "excerpt" ++ [COLON]) Sample.header = None /\
  (Parsed.excerpt (MemStorage.parseMarkdownFile Sample.file)
   = excerpt_spec (Parsed.markdown (MemStorage.parseMarkdownFile Sample.file))
   /\
   (length (Parsed.excerpt (MemStorage.parseMarkdownFile Sample.file)) <= 153)%nat)
  /\
  match frontmatterOf Sample.file with
  | None =>
      Parsed.excerpt (DatabaseStorage.parseMarkdownFile Sample.file)
      = str "No excerpt available"
  | Some _ => True
  end /\
  Parsed.excerpt
    (DatabaseStorage.parseMarkdownFile
       (withHeader Sample.header (str "Body text")))
  = str "No excerpt available".
Proof.
  assert (Hex : Parsed.excerpt (frontmatter_spec [] Sample.file) = [])
    by (vm_compute; reflexivity).
  assert (Hne : Sample.header <> []) by discriminate.
  assert (Hreg : forallb regularLine Sample.header = true)
    by (vm_compute; reflexivity).
  assert (Hno : firstWith (str "excerpt" ++ [COLON]) Sample.header = None)
    by (vm_compute; reflexivity).
  split; [exact Hex|]. split; [exact Hne|]. split; [exact Hreg|].
  split; [exact Hno|].
  exact (C5_missing_excerpt Sample.file Sample.header (str "Body text")
           Hex Hne Hreg Hno).
Defined.

(** ** The handlers on the sample states *)

Example slug_of_sample_title :
  slugify asciiLower (str "  Hello,  World -- again!  ")
  = str "-hello-world-again-".
Proof. vm_compute. reflexivity. Qed.

Example create_sample_stores_slug :
  Post.slug <$> allPosts
    (createPostRoute asciiLower Some Sample.untitled 5 Sample.dbOne).2
  = [str "hello"; str "hello-world"].
Proof. vm_compute. reflexivity. Qed.

Example fetch_sample_counts :
  let outm := getPostRoute (str "hello") Sample.memOne in
  let outd := getPostRoute (str "hello") Sample.dbOne in
  statusCode outm.1 = 200%Z /\ statusCode outd.1 = 200%Z /\
  Post.viewCount <$> allPosts outm.2 = [1%Z] /\
  Post.viewCount <$> allPosts outd.2 = [1%Z] /\
  Post.viewCount <$> allPosts (fetchTimes 3 (str "hello") Sample.memOne)
  = [3%Z] /\
  Post.viewCount <$> allPosts (fetchTimes 3 (str "hello") Sample.dbOne)
  = [3%Z] /\
  Post.viewCount <$> sentPost outd.1 outd.2 = Some 0%Z /\
  Post.viewCount <$> sentPost outm.1 outm.2 = Some 1%Z /\
  statusCode (getPostRoute (str "other") Sample.dbOne).1 = 404%Z.
Proof. cbv zeta. repeat split; vm_compute; reflexivity. Qed.

Example delete_sample_removes :
  let outm := deletePostRoute 1 Sample.memOne in
  let outd := deletePostRoute 1 Sample.dbOne in
  mirrorFile (str "hello") Sample.memOne <> None /\
  statusCode outm.1 = 200%Z /\ allPosts outm.2 = [] /\
  mirrorFile (str "hello") outm.2 = None /\
  statusCode outd.1 = 200%Z /\ allPosts outd.2 = [] /\
  mirrorFile (str "hello") outd.2 = None /\
  statusCode (deletePostRoute 2 Sample.memOne).1 = 404%Z /\
  statusCode (deletePostRoute 2 Sample.dbOne).1 = 404%Z.
Proof.
  cbv zeta. split; [vm_compute; discriminate|].
  repeat split; vm_compute; reflexivity.
Qed.

Example mark_sample_read :
  Contact.status <$> findContact 1 Sample.memContact = Some (str "unread") /\
  Contact.status <$> findContact 1 (markReadRoute 1 Sample.memContact).2
  = Some (str "read") /\
  Contact.status <$> findContact 1 (markReadRoute 1 Sample.dbContact).2
  = Some (str "read") /\
  markReadRoute 7 Sample.dbContact = (mkResponse 200 JSuccess, Sample.dbContact).
Proof. repeat split; vm_compute; reflexivity. Qed.

Example contact_sample_accepted :
  let out := contactRoute asciiLower Sample.goodMail 5 Sample.dbEmpty in
  statusCode out.1 = 200%Z /\
  Contact.email <$> DatabaseStorage.contacts out.2 = [str "ann@example.org"] /\
  Contact.name <$> DatabaseStorage.contacts out.2 = [str "Ann"].
Proof. cbv zeta. repeat split; vm_compute; reflexivity. Qed.

Example sample_header_is_strict :
  forallb regularLine Sample.header = true /\
  strictHeader Sample.header = true /\
  Parsed.title (fromHeader Sample.header (str "Body text"))
  = str "Hello: World" /\
  Parsed.tags (fromHeader Sample.header (str "Body text"))
  = [str "a"; str "b"].
Proof. repeat split; vm_compute; reflexivity. Qed.

Example parse_sample_file :
  let m := MemStorage.parseMarkdownFile Sample.file in
  let d := DatabaseStorage.parseMarkdownFile Sample.file in
  Parsed.title m = str "Hello: World" /\ Parsed.title d = str "Hello: World" /\
  Parsed.tags m = [str "a"; str "b"; str "c"] /\
  Parsed.tags d = [str "a"; str "b"; []; str "c"] /\
  Parsed.status m = str "draft" /\ Parsed.status d = str "draft" /\
  Parsed.excerpt m = str "First line..." /\
  Parsed.excerpt d = str "No excerpt available" /\
  Parsed.markdown m = Parsed.markdown d.
Proof. cbv zeta. repeat split; vm_compute; reflexivity. Qed.

(** A key without a value makes the pattern of [parseValue] run into the
    next line: its white space takes the line feed, and the group takes the
    line that follows. [MemStorage] reads the empty value. *)
Example parse_empty_value_runs_on :
  let content :=
    join [NL] [str "---"; str "title:"; str "status: draft"; str "---";
               str "Body"] in
  Parsed.title (MemStorage.parseFrontmatter content) = [] /\
  Parsed.title (DatabaseStorage.parseMarkdownFile content)
  = str "status: draft".
Proof. cbv zeta. split; vm_compute; reflexivity. Qed.

(** The same happens on the file [savePostToFile] writes for a post without
    tags, whose tags line is blank after the colon: read back by
    [DatabaseStorage], the post is tagged with its status line. *)
Example parse_own_file_without_tags :
  let content := renderPost Sample.helloPost in
  Post.tags Sample.helloPost = None /\
  Parsed.tags (MemStorage.parseMarkdownFile content) = [] /\
  Parsed.tags (DatabaseStorage.parseMarkdownFile content)
  = [str "status: published"].
Proof. cbv zeta. repeat split; vm_compute; reflexivity. Qed.

(** * Further properties of the code *)

(** ** Sorting by a key, largest first *)

Section SortFacts.
Context {A : Type}.
Variable key : A -> Z.

Lemma Forall_List_filter (P : A -> Prop) (f : A -> bool) (l : list A) :
  List.Forall P l -> List.Forall P (List.filter f l).
Proof.
  induction 1 as [|x l Hx Hl IH]; simpl; [constructor|].
  destruct (f x); [by constructor|done].
Qed.

Lemma insertSorted_cons (x y : A) (l : list A) :
  insertSorted (largestFirst key) x (y :: l)
  = if (key y <=? key x)%Z then x :: y :: l
    else y :: insertSorted (largestFirst key) x l.
Proof.
  cbn [insertSorted]. unfold largestFirst at 1.
  destruct (key y <=? key x)%Z eqn:E.
  - apply Z.leb_le in E. rewrite (proj2 (Z.leb_le _ _)); [done|lia].
  - apply Z.leb_gt in E. rewrite (proj2 (Z.leb_gt _ _)); [done|lia].
Qed.

Lemma sortBy_cons (x : A) (l : list A) :
  sortBy (largestFirst key) (x :: l)
  = insertSorted (largestFirst key) x (sortBy (largestFirst key) l).
Proof. done. Qed.

Lemma insertSorted_perm (x : A) (l : list A) :
  insertSorted (largestFirst key) x l ≡ₚ x :: l.
Proof.
  induction l as [|y l IH]; [done|]. rewrite insertSorted_cons.
  destruct (key y <=? key x)%Z; [done|].
  rewrite IH. apply Permutation_swap.
Qed.

Lemma sortBy_perm (l : list A) : sortBy (largestFirst key) l ≡ₚ l.
Proof.
  induction l as [|x l IH]; [done|].
  rewrite sortBy_cons, insertSorted_perm. by rewrite IH.
Qed.

Lemma insertSorted_sorted (x : A) (l : list A) :
  descending key l -> descending key (insertSorted (largestFirst key) x l).
Proof.
  unfold descending. induction l as [|y l IH]; intros Hl.
  - repeat constructor.
  - apply StronglySorted_inv in Hl as [Hl Hy]. rewrite insertSorted_cons.
    destruct (key y <=? key x)%Z eqn:E.
    + apply Z.leb_le in E. constructor.
      * by constructor.
      * constructor; [lia|]. eapply List.Forall_impl; [|exact Hy].
        simpl. intros; lia.
    + apply Z.leb_gt in E. constructor; [by apply IH|].
      rewrite insertSorted_perm. constructor; [lia|exact Hy].
Qed.

Lemma sortBy_sorted (l : list A) : descending key (sortBy (largestFirst key) l).
Proof.
  induction l as [|x l IH]; [constructor|].
  rewrite sortBy_cons. by apply insertSorted_sorted.
Qed.

Lemma insertSorted_first (x : A) (l : list A) :
  List.Forall (fun z => (key z <= key x)%Z) l ->
  insertSorted (largestFirst key) x l = x :: l.
Proof.
  destruct l as [|y l]; [done|]. intros H.
  apply Forall_cons in H as [H _]. rewrite insertSorted_cons.
  rewrite (proj2 (Z.leb_le _ _)); [done|lia].
Qed.

Lemma filter_insertSorted (f : A -> bool) (x : A) (l : list A) :
  descending key l ->
  List.filter f (insertSorted (largestFirst key) x l)
  = if f x then insertSorted (largestFirst key) x (List.filter f l)
    else List.filter f l.
Proof.
  unfold descending. induction l as [|y l IH]; intros Hl.
  - simpl. by destruct (f x).
  - apply StronglySorted_inv in Hl as [Hl Hy]. rewrite insertSorted_cons.
    destruct (key y <=? key x)%Z eqn:E.
    + apply Z.leb_le in E.
      assert (Hall : List.Forall (fun z => (key z <= key x)%Z) (y :: l)).
      { constructor; [lia|]. eapply List.Forall_impl; [|exact Hy].
        simpl; intros; lia. }
      apply (Forall_List_filter _ f) in Hall.
      rewrite (insertSorted_first _ _ Hall).
      change (List.filter f (x :: y :: l))
        with (if f x then x :: List.filter f (y :: l)
              else List.filter f (y :: l)).
      done.
    + cbn [List.filter]. rewrite (IH Hl). destruct (f y), (f x); try done.
      rewrite insertSorted_cons. by rewrite E.
Qed.

Lemma filter_sortBy (f : A -> bool) (l : list A) :
  List.filter f (sortBy (largestFirst key) l)
  = sortBy (largestFirst key) (List.filter f l).
Proof.
  induction l as [|x l IH]; [done|].
  rewrite sortBy_cons, filter_insertSorted by apply sortBy_sorted.
  rewrite IH. cbn [List.filter]. by destruct (f x).
Qed.

Lemma insertSorted_fmap (g : A -> A) (x : A) (l : list A) :
  (forall y, key (g y) = key y) ->
  insertSorted (largestFirst key) (g x) (List.map g l)
  = List.map g (insertSorted (largestFirst key) x l).
Proof.
  intros Hg. induction l as [|y l IH]; [done|].
  cbn [List.map]. rewrite !insertSorted_cons, !Hg.
  destruct (key y <=? key x)%Z; [done|].
  cbn [List.map]. by rewrite IH.
Qed.

Lemma sortBy_fmap (g : A -> A) (l : list A) :
  (forall y, key (g y) = key y) ->
  sortBy (largestFirst key) (List.map g l)
  = List.map g (sortBy (largestFirst key) l).
Proof.
  intros Hg. induction l as [|x l IH]; [done|].
  cbn [List.map]. rewrite !sortBy_cons, IH.
  by apply insertSorted_fmap.
Qed.

Lemma sortBy_sorted_id (l : list A) :
  descending key l -> sortBy (largestFirst key) l = l.
Proof.
  unfold descending. induction l as [|x l IH]; [done|]. intros Hl.
  apply StronglySorted_inv in Hl as [Hl Hx].
  rewrite sortBy_cons, (IH Hl). by apply insertSorted_first.
Qed.
End SortFacts.

(** ** Derived slugs and the names of the mirror files *)

Lemma spacesToHyphen_Forall (Q : N -> Prop) (s : list N) :
  Q HYPHEN -> Forall (fun c => isSpace c = false -> Q c) s ->
  Forall Q (spacesToHyphen s).
Proof.
  intros Hh. induction 1 as [|c s Hc Hs IH]; simpl; [constructor|].
  destruct (isSpace c) eqn:E.
  - destruct s as [|c' s']; [by repeat constructor|].
    destruct (isSpace c'); [exact IH|]. by constructor.
  - constructor; [by apply Hc|exact IH].
Qed.

Lemma stripNonWord_Forall (s : list N) :
  Forall (fun c => isSpace c = false -> isWord c = true \/ c = HYPHEN)
    (stripNonWord s).
Proof.
  unfold stripNonWord. apply List.Forall_forall. intros c Hc.
  apply List.filter_In in Hc as [_ Hc]. intros Hs. rewrite Hs in Hc.
  rewrite orb_false_r in Hc. apply orb_true_iff in Hc as [Hc|Hc]; [by left|].
  right. by apply N.eqb_eq in Hc.
Qed.

Lemma collapseHyphens_head (c : N) (s : list N) :
  head (collapseHyphens (c :: s)) = Some c
  \/ (c = HYPHEN /\ head (collapseHyphens (c :: s)) = Some HYPHEN).
Proof.
  revert c. induction s as [|c' s IH]; intros c.
  - left. simpl. by destruct (c =? HYPHEN)%N.
  - change (collapseHyphens (c :: c' :: s))
      with (if (c =? HYPHEN)%N
            then if (c' =? HYPHEN)%N then collapseHyphens (c' :: s)
                 else c :: collapseHyphens (c' :: s)
            else c :: collapseHyphens (c' :: s)).
    destruct (c =? HYPHEN)%N eqn:Ec; [|by left].
    apply N.eqb_eq in Ec. subst c.
    destruct (c' =? HYPHEN)%N eqn:Ec'; [|by left].
    apply N.eqb_eq in Ec'. subst c'. right. split; [done|].
    destruct (IH HYPHEN) as [H|[_ H]]; exact H.
Qed.

Lemma collapseHyphens_no_pair (s : list N) :
  hyphenPair (collapseHyphens s) = false.
Proof.
  induction s as [|c s IH]; [done|]. destruct s as [|c' s].
  - simpl. by destruct (c =? HYPHEN)%N.
  - change (collapseHyphens (c :: c' :: s))
      with (if (c =? HYPHEN)%N
            then if (c' =? HYPHEN)%N then collapseHyphens (c' :: s)
                 else c :: collapseHyphens (c' :: s)
            else c :: collapseHyphens (c' :: s)).
    assert (Hcons : forall d, ((d =? HYPHEN)%N && (c' =? HYPHEN)%N) = false ->
              hyphenPair (d :: collapseHyphens (c' :: s)) = false).
    { intros d Hd. destruct (collapseHyphens (c' :: s)) as [|e r] eqn:E.
      - done.
      - cbn [hyphenPair] in *. rewrite IH, orb_false_r.
        destruct (collapseHyphens_head c' s) as [H|[-> H]];
          rewrite E in H; simpl in H; injection H as ->.
        + exact Hd.
        + exact Hd. }
    destruct (c =? HYPHEN)%N eqn:Ec.
    + destruct (c' =? HYPHEN)%N eqn:Ec'; [exact IH|].
      apply Hcons. by rewrite Ec.
    + apply Hcons. by rewrite Ec.
Qed.

Lemma untrimmedSlug_urlSafe (toLowerCase : list N -> list N) (title : list N) :
  urlSafe (untrimmedSlug toLowerCase title).
Proof.
  unfold untrimmedSlug, urlSafe.
  apply collapseHyphens_Forall, spacesToHyphen_Forall; [by right|].
  apply stripNonWord_Forall.
Qed.

(** X1: whatever the title and the lower-casing of the runtime, the slug
    the creation handler derives holds nothing but letters, digits,
    underscores and hyphens, and never two hyphens in a row. *)
Theorem X1_derived_slug_is_url_safe (toLowerCase : list N -> list N)
  (title : list N) :
  urlSafe (slugify toLowerCase title)
  /\ hyphenPair (slugify toLowerCase title) = false.
Proof.
  rewrite slugify_untrimmed. split.
  - apply untrimmedSlug_urlSafe.
  - apply collapseHyphens_no_pair.
Qed.

Lemma cutAt_md_end (slug : list N) :
  Forall (fun c => c <> DOT) slug ->
  cutAt (str ".md") (slug ++ str ".md") = Some (slug, []).
Proof.
  induction 1 as [|c s Hc Hs IH]; [done|].
  change (cutAt (str ".md") ((c :: s) ++ str ".md"))
    with (match stripPrefix (str ".md") (c :: s ++ str ".md") with
          | Some rest => Some ([], rest)
          | None =>
              match cutAt (str ".md") (s ++ str ".md") with
              | Some (before, after) => Some (c :: before, after)
              | None => None
              end
          end).
  rewrite IH.
  change (stripPrefix (str ".md") (c :: s ++ str ".md"))
    with (if (DOT =? c)%N then stripPrefix (str "md") (s ++ str ".md")
          else None).
  destruct (DOT =? c)%N eqn:E; [|done].
  apply N.eqb_eq in E. by subst c.
Qed.

Lemma urlSafe_no_dot (s : list N) : urlSafe s -> Forall (fun c => c <> DOT) s.
Proof.
  unfold urlSafe. apply List.Forall_impl. intros c [H|H] E; subst c.
  - vm_compute in H. discriminate.
  - vm_compute in E. discriminate.
Qed.

Lemma endsWith_mirrorName (slug : list N) :
  endsWith (mirrorName slug) (str ".md") = true.
Proof.
  unfold endsWith, mirrorName. rewrite rev_app_distr.
  by rewrite stripPrefix_app.
Qed.

Lemma fileSlug_mirrorName (slug : list N) :
  Forall (fun c => c <> DOT) slug -> fileSlug (mirrorName slug) = slug.
Proof.
  intros H. unfold fileSlug, removeFirst, mirrorName.
  rewrite (cutAt_md_end _ H). apply app_nil_r.
Qed.

(** X2: the mirror file of a url-safe slug is one the loader of either
    storage takes (its name ends in [.md]), and the slug the loader derives
    from the file name is the slug again. *)
Theorem X2_mirror_name_gives_slug_back (slug : list N) :
  urlSafe slug ->
  endsWith (mirrorName slug) (str ".md") = true
  /\ fileSlug (mirrorName slug) = slug.
Proof.
  intros H. split; [apply endsWith_mirrorName|].
  by apply fileSlug_mirrorName, urlSafe_no_dot.
Qed.

(** ** The listings of posts *)

Lemma newestFirst_eq : newestFirst = largestFirst Post.createdAt.
Proof. reflexivity. Qed.

Lemma newestContactFirst_eq :
  newestContactFirst = largestFirst Contact.createdAt.
Proof. reflexivity. Qed.

Lemma mostViewedFirst_eq :
  mostViewedFirst = largestFirst (fun p => orZero (Post.viewCount p)).
Proof. reflexivity. Qed.

Lemma List_filter_filter {A} (f g : A -> bool) (l : list A) :
  List.filter f (List.filter g l) = List.filter (fun x => g x && f x) l.
Proof.
  induction l as [|x l IH]; [done|]. cbn [List.filter].
  destruct (g x); cbn [List.filter andb]; [|exact IH].
  destruct (f x); by rewrite IH.
Qed.

Lemma List_filter_ext_in {A} (f g : A -> bool) (l : list A) :
  (forall x, In x l -> f x = g x) -> List.filter f l = List.filter g l.
Proof.
  induction l as [|x l IH]; [done|]. intros H. cbn [List.filter].
  rewrite (H x) by now left.
  rewrite IH; [done|]. intros y Hy. apply H. now right.
Qed.

Lemma List_filter_true {A} (l : list A) : List.filter (fun _ => true) l = l.
Proof. induction l as [|x l IH]; [done|]. cbn [List.filter]. by rewrite IH. Qed.

(** X3: the listing of [MemStorage] holds the published posts, each as
    often as the store has it and no other post, the newest first. *)
Theorem X3_mem_lists_published_newest_first (s : MemStorage.State) :
  MemStorage.getAllPosts s ≡ₚ List.filter isPublished (MemStorage.allPosts s)
  /\ descending Post.createdAt (MemStorage.getAllPosts s).
Proof.
  unfold MemStorage.getAllPosts. rewrite newestFirst_eq. split.
  - apply sortBy_perm.
  - apply sortBy_sorted.
Qed.

(** X4: the listing of [DatabaseStorage], the storage the handlers are
    bound to, holds every row of the table, drafts included, the newest
    first: unlike [MemStorage], it does not look at the status. *)
Theorem X4_database_lists_all_rows (s : DatabaseStorage.State) :
  DatabaseStorage.getAllPosts s ≡ₚ DatabaseStorage.posts s
  /\ descending Post.createdAt (DatabaseStorage.getAllPosts s)
  /\ List.filter isDraft (DatabaseStorage.getAllPosts s)
     ≡ₚ List.filter isDraft (DatabaseStorage.posts s).
Proof.
  unfold DatabaseStorage.getAllPosts. rewrite newestFirst_eq.
  split; [apply sortBy_perm|]. split; [apply sortBy_sorted|].
  rewrite filter_sortBy. apply sortBy_perm.
Qed.

(** X5: the posts under a tag are the published posts of the listing that
    carry the tag: with [MemStorage] in the order of the listing, with
    [DatabaseStorage] the newest first. *)
Theorem X5_posts_by_tag_filter_the_listing (tag : list N)
  (sm : MemStorage.State) (sd : DatabaseStorage.State) :
  MemStorage.getPostsByTag tag sm
  = List.filter (hasTag tag) (MemStorage.getAllPosts sm)
  /\ DatabaseStorage.getPostsByTag tag sd
     ≡ₚ List.filter (fun post => hasTag tag post && isPublished post)
          (DatabaseStorage.getAllPosts sd)
  /\ descending Post.createdAt (DatabaseStorage.getPostsByTag tag sd).
Proof.
  unfold MemStorage.getPostsByTag, MemStorage.getAllPosts,
    DatabaseStorage.getPostsByTag, DatabaseStorage.getAllPosts.
  rewrite newestFirst_eq, !filter_sortBy, List_filter_filter.
  split; [done|]. split; [done|]. apply sortBy_sorted.
Qed.

(** *** Searching *)

Lemma includes_cons (c : N) (s t : list N) :
  includes (c :: s) t
  = match stripPrefix t (c :: s) with
    | Some _ => true
    | None => includes s t
    end.
Proof. done. Qed.

Lemma includes_nil (s : list N) : includes s [] = true.
Proof. by destruct s. Qed.

Lemma includes_app (s t : list N) :
  includes s t = true <-> exists a b, s = a ++ t ++ b.
Proof.
  split.
  - induction s as [|c s IH].
    + cbn [includes]. destruct (stripPrefix t []) as [r|] eqn:E; [|done].
      intros _. exists [], r. by apply stripPrefix_some in E.
    + rewrite includes_cons.
      destruct (stripPrefix t (c :: s)) as [r|] eqn:E.
      * intros _. exists [], r. by apply stripPrefix_some in E.
      * intros H. destruct (IH H) as (a & b & ->). by exists (c :: a), b.
  - intros (a & b & ->). induction a as [|c a IH].
    + destruct t as [|d t]; [apply includes_nil|].
      cbn [app]. rewrite includes_cons.
      change (d :: t ++ b) with ((d :: t) ++ b).
      by rewrite stripPrefix_app.
    + cbn [app]. rewrite includes_cons, IH. by destruct (stripPrefix _ _).
Qed.

Lemma includes_trans (s t u : list N) :
  includes s t = true -> includes t u = true -> includes s u = true.
Proof.
  rewrite !includes_app. intros (a & b & ->) (a' & b' & ->).
  exists (a ++ a'), (b' ++ b). by rewrite <- !app_assoc.
Qed.

Lemma mentions_narrower (toLowerCase : list N -> list N)
  (term term' : list N) (post : Post.t) :
  includes term' term = true ->
  mentions toLowerCase term' post = true ->
  mentions toLowerCase term post = true.
Proof.
  intros Hi. unfold mentions. rewrite !orb_true_iff.
  intros [[H|H]|H].
  - left; left. by eapply includes_trans.
  - left; right. by eapply includes_trans.
  - right. destruct (Post.excerpt post); [|done]. by eapply includes_trans.
Qed.

Lemma Mem_searchPosts_filter (toLowerCase : list N -> list N)
  (query : list N) (s : MemStorage.State) :
  MemStorage.searchPosts toLowerCase query s
  = List.filter (mentions toLowerCase (toLowerCase query))
      (MemStorage.getAllPosts s).
Proof.
  unfold MemStorage.searchPosts, MemStorage.getAllPosts.
  rewrite newestFirst_eq, filter_sortBy, List_filter_filter. done.
Qed.

(** X6: a search of [MemStorage] for a query that holds an earlier query,
    both taken in lower case, finds what filtering the earlier result by
    the new query gives: a longer query never finds more, and keeps the
    order. *)
Theorem X6_longer_query_narrows_search (toLowerCase : list N -> list N)
  (query query' : list N) (s : MemStorage.State) :
  includes (toLowerCase query') (toLowerCase query) = true ->
  MemStorage.searchPosts toLowerCase query' s
  = List.filter (mentions toLowerCase (toLowerCase query'))
      (MemStorage.searchPosts toLowerCase query s).
Proof.
  intros Hi. rewrite !Mem_searchPosts_filter, List_filter_filter.
  apply List_filter_ext_in. intros post _.
  destruct (mentions toLowerCase (toLowerCase query') post) eqn:E.
  - by rewrite (mentions_narrower _ _ _ _ Hi E).
  - by rewrite andb_false_r.
Qed.

(** X7: when the lower case of the empty string is the empty string, the
    search of [MemStorage] for the empty query gives the whole listing. *)
Theorem X7_empty_query_finds_the_listing (toLowerCase : list N -> list N)
  (s : MemStorage.State) :
  toLowerCase [] = [] ->
  MemStorage.searchPosts toLowerCase [] s = MemStorage.getAllPosts s.
Proof.
  intros H0. rewrite Mem_searchPosts_filter, H0.
  rewrite (List_filter_ext_in _ (fun _ => true)).
  - apply List_filter_true.
  - intros post _. unfold mentions. by rewrite includes_nil.
Qed.

(** ** The maps of MemStorage stay in order *)

Lemma JSMap_set_new {V} (k : Z) (l : V) (m : list (Z * V)) :
  ~ In k (List.map fst m) -> JSMap.set k l m = m ++ [(k, l)].
Proof.
  induction m as [|e m IH]; [done|]. cbn [List.map In JSMap.set]. intros H.
  destruct (e.1 =? k)%Z eqn:E.
  - apply Z.eqb_eq in E. tauto.
  - cbn [app]. rewrite IH; [done|tauto].
Qed.

Lemma JSMap_get_set_eq {V} (k : Z) (v : V) (m : list (Z * V)) :
  JSMap.get k (JSMap.set k v m) = Some v.
Proof.
  unfold JSMap.get. induction m as [|e m IH]; cbn [JSMap.set List.find].
  - cbn. by rewrite Z.eqb_refl.
  - destruct (e.1 =? k)%Z eqn:E; cbn [List.find fst].
    + by rewrite Z.eqb_refl.
    + by rewrite E.
Qed.

Lemma JSMap_get_set_ne {V} (k k' : Z) (v : V) (m : list (Z * V)) :
  k' <> k -> JSMap.get k' (JSMap.set k v m) = JSMap.get k' m.
Proof.
  intros Hne. unfold JSMap.get.
  induction m as [|e m IH]; cbn [JSMap.set List.find].
  - cbn. by rewrite (proj2 (Z.eqb_neq _ _)) by congruence.
  - destruct (e.1 =? k)%Z eqn:E; cbn [List.find fst].
    + apply Z.eqb_eq in E.
      by rewrite !(proj2 (Z.eqb_neq _ _)) by congruence.
    + destruct (e.1 =? k')%Z; [done|exact IH].
Qed.

Lemma JSMap_get_split {V} (k : Z) (l0 : V) (m : list (Z * V)) :
  JSMap.get k m = Some l0 ->
  exists m1 m2,
    m = m1 ++ (k, l0) :: m2 /\ ~ In k (List.map fst m1)
    /\ forall l, JSMap.set k l m = m1 ++ (k, l) :: m2.
Proof.
  unfold JSMap.get. induction m as [|e m IH]; [done|]. cbn [List.find].
  destruct (e.1 =? k)%Z eqn:E.
  - apply Z.eqb_eq in E. cbn. intros [= <-]. exists [], m.
    split; [destruct e; cbn in *; by subst|]. split; [by intros []|].
    intros l. cbn [JSMap.set app]. by rewrite (proj2 (Z.eqb_eq _ _) E).
  - intros H. destruct (IH H) as (m1 & m2 & -> & Hn & Hs).
    exists (e :: m1), m2. split; [done|]. split.
    + cbn [List.map In]. apply Z.eqb_neq in E. tauto.
    + intros l. cbn [JSMap.set app]. by rewrite E, Hs.
Qed.

Lemma JSMap_get_In {V} (k : Z) (l : V) (m : list (Z * V)) :
  JSMap.get k m = Some l -> In (k, l) m.
Proof.
  intros H. destruct (JSMap_get_split k l m H) as (m1 & m2 & -> & _).
  apply in_or_app. right. by left.
Qed.

Lemma JSMap_In_get {V} (k : Z) (l : V) (m : list (Z * V)) :
  List.NoDup (List.map fst m) -> In (k, l) m -> JSMap.get k m = Some l.
Proof.
  unfold JSMap.get. induction m as [|e m IH]; [done|].
  cbn [List.map List.find In]. intros Hnd [->|H].
  - cbn [fst]. by rewrite Z.eqb_refl.
  - apply List.NoDup_cons_iff in Hnd as [Hn Hnd].
    destruct (e.1 =? k)%Z eqn:E; [|by apply IH].
    apply Z.eqb_eq in E. exfalso. apply Hn. rewrite E.
    apply in_map_iff. by exists (k, l).
Qed.

Lemma JSMap_get_none {V} (k : Z) (m : list (Z * V)) :
  JSMap.get k m = None -> ~ In k (List.map fst m).
Proof.
  unfold JSMap.get. induction m as [|e m IH]; [intros _ []|].
  cbn [List.find List.map In]. destruct (e.1 =? k)%Z eqn:E; [done|].
  apply Z.eqb_neq in E. intros H [H'|H']; [done|]. by apply IH.
Qed.

Lemma JSMap_delete_absent {V} (k : Z) (m : list (Z * V)) :
  ~ In k (List.map fst m) -> JSMap.delete k m = m.
Proof.
  unfold JSMap.delete. induction m as [|e m IH]; [done|].
  cbn [List.map In List.filter]. intros H.
  destruct (e.1 =? k)%Z eqn:E.
  - apply Z.eqb_eq in E. tauto.
  - cbn [negb]. rewrite IH; [done|tauto].
Qed.


Section MapFacts.
Context {V : Type}.
Variable idOf : V -> Z.

Lemma entryOf_key_below (objs : gmap positive V) (next : Z)
  (m : list (Z * positive)) :
  List.Forall (entryOf idOf objs next) m -> ~ In next (List.map fst m).
Proof.
  intros H Hin. apply in_map_iff in Hin as (e & He & Hin).
  pose proof (proj1 (List.Forall_forall _ _) H e Hin) as [Hlt _]. lia.
Qed.

Lemma entryOf_value_known (objs : gmap positive V) (next : Z)
  (m : list (Z * positive)) (l : positive) :
  List.Forall (entryOf idOf objs next) m -> objs !! l = None ->
  ~ In l (JSMap.values m).
Proof.
  intros H Hl Hin. apply in_map_iff in Hin as (e & He & Hin).
  pose proof (proj1 (List.Forall_forall _ _) H e Hin) as [_ (v & Hv & _)].
  congruence.
Qed.

Lemma entryOf_insert_other (objs : gmap positive V) (next next' : Z)
  (l : positive) (v : V) (m : list (Z * positive)) :
  (next <= next')%Z -> ~ In l (JSMap.values m) ->
  List.Forall (entryOf idOf objs next) m ->
  List.Forall (entryOf idOf (<[l := v]> objs) next') m.
Proof.
  intros Hle Hl H. apply List.Forall_forall. intros e He.
  pose proof (proj1 (List.Forall_forall _ _) H e He) as [Hlt (w & Hw & Hid)].
  split; [lia|]. exists w. split; [|done].
  rewrite lookup_insert_ne; [done|]. intros ->. apply Hl.
  apply in_map_iff. by exists e.
Qed.

(** A new entry under the next id, for a new object. *)
Lemma mapInOrder_new (objs : gmap positive V) (next : Z)
  (m : list (Z * positive)) (l : positive) (v : V) :
  mapInOrder idOf objs next m -> objs !! l = None -> idOf v = next ->
  mapInOrder idOf (<[l := v]> objs) (next + 1) (JSMap.set next l m).
Proof.
  intros (Hk & Hv & He) Hl Hid.
  pose proof (entryOf_key_below _ _ _ He) as Hnk.
  pose proof (entryOf_value_known _ _ _ l He Hl) as Hnv.
  rewrite (JSMap_set_new _ _ _ Hnk). unfold mapInOrder, JSMap.values.
  rewrite !List.map_app. cbn [List.map fst snd]. split; [|split].
  - apply List.NoDup_app; [done|repeat constructor; by intros []|].
    intros a Ha [<-|[]]. done.
  - apply List.NoDup_app; [done|repeat constructor; by intros []|].
    intros a Ha [<-|[]]. done.
  - apply List.Forall_app. split.
    + apply (entryOf_insert_other objs next (next + 1) l v m);
        [lia|done|done].
    + constructor; [|constructor]. split; [cbn; lia|].
      exists v. split; [apply lookup_insert_eq|done].
Qed.



End MapFacts.

Lemma Mem_fresh_post (s : MemStorage.State) :
  MemStorage.postObjs s !! fresh (dom (MemStorage.postObjs s)) = None.
Proof. apply not_elem_of_dom, is_fresh. Qed.

Lemma Mem_fresh_contact (s : MemStorage.State) :
  MemStorage.contactObjs s !! fresh (dom (MemStorage.contactObjs s)) = None.
Proof. apply not_elem_of_dom, is_fresh. Qed.


Lemma inOrder_loadFile (file content : list N) (now : Z)
  (s : MemStorage.State) :
  inOrder s -> inOrder (MemStorage.loadFile file content now s).
Proof.
  intros [Hp Hc]. split; [|exact Hc]. cbn.
  apply mapInOrder_new; [exact Hp|apply Mem_fresh_post|done].
Qed.

Lemma inOrder_loadMarkdownFiles (files : list (list N)) (clock : nat -> Z)
  (s : MemStorage.State) :
  inOrder s -> inOrder (MemStorage.loadMarkdownFiles files clock s).
Proof.
  revert clock s. induction files as [|file files IH]; intros clock s H;
    [done|].
  cbn [MemStorage.loadMarkdownFiles].
  destruct (Fs.readFile _ (MemStorage.files s)); [|done].
  by apply IH, inOrder_loadFile.
Qed.




Lemma inOrder_createContact (c : InsertContact.t) (now : Z)
  (s : MemStorage.State) :
  inOrder s -> inOrder (MemStorage.createContact c now s).2.
Proof.
  intros [Hp Hc]. split; [exact Hp|]. cbn.
  apply mapInOrder_new; [exact Hc|apply Mem_fresh_contact|done].
Qed.



Lemma inOrder_empty (dir : Path.t) (fs : Fs.t) :
  inOrder (MemStorage.mkState ∅ ∅ [] [] 1 1 dir fs).
Proof. repeat split; constructor. Qed.


(** ** Contacts: submission, listing, deletion *)

Lemma matches_classes (p : list ((N -> bool) * quant)) (s : list N) :
  matches p s = true ->
  List.Forall (fun c => exists cls q, In (cls, q) p /\ cls c = true) s.
Proof.
  revert s. induction p as [|[cls q] p IH]; intros s H.
  - apply matches_nil in H. subst. constructor.
  - destruct q.
    + apply matches_one in H as (c & s' & -> & Hc & H). constructor.
      * exists cls, One. split; [by left|done].
      * eapply List.Forall_impl; [|exact (IH _ H)].
        intros a (cls' & q' & Hin & Ha). exists cls', q'. split; [by right|done].
    + apply matches_plus in H as (a & b & -> & _ & Ha & H).
      apply List.Forall_app. split.
      * eapply List.Forall_impl; [|exact Ha]. intros c Hc.
        exists cls, Plus. split; [by left|done].
      * eapply List.Forall_impl; [|exact (IH _ H)].
        intros c (cls' & q' & Hin & Hc). exists cls', q'. split; [by right|done].
Qed.

Lemma emailRegex_no_space (e : list N) :
  matches emailRegex e = true -> Forall (fun c => isSpace c = false) e.
Proof.
  intros H. apply matches_classes in H.
  eapply List.Forall_impl; [|exact H]. intros c (cls & q & Hin & Hc).
  unfold emailRegex in Hin. cbn [In] in Hin.
  destruct Hin as [E|[E|[E|[E|[E|[]]]]]]; injection E as <- _.
  - unfold notSpaceAt in Hc. apply negb_true_iff, orb_false_iff in Hc. tauto.
  - apply N.eqb_eq in Hc. by subst c.
  - unfold notSpaceAt in Hc. apply negb_true_iff, orb_false_iff in Hc. tauto.
  - apply N.eqb_eq in Hc. by subst c.
  - unfold notSpaceAt in Hc. apply negb_true_iff, orb_false_iff in Hc. tauto.
Qed.

Lemma isUnread_unread (c : Contact.t) :
  Contact.status c = str "unread" -> isUnread c = true.
Proof. unfold isUnread. intros ->. apply eqs_refl. Qed.

Section ContactFacts.
Variable toLowerCase : list N -> list N.

Lemma contactRoute_accepts {St Ref : Type} `{!IStorage St Ref}
  (b : ContactBody.t) (now : Z) (s : St) :
  falsy (ContactBody.name b) = false ->
  falsy (ContactBody.email b) = false ->
  falsy (ContactBody.subject b) = false ->
  falsy (ContactBody.message b) = false ->
  matches emailRegex (present (ContactBody.email b)) = true ->
  contactRoute toLowerCase b now s
  = let out :=
      createContact
        (InsertContact.mk (trim (present (ContactBody.name b)))
           (toLowerCase (present (ContactBody.email b)))
           (trim (present (ContactBody.subject b)))
           (trim (present (ContactBody.message b)))) now s in
    (mkResponse 200
       (JSent (str "Message sent successfully") (Contact.id out.1)), out.2).
Proof.
  intros H1 H2 H3 H4 Hm. unfold contactRoute.
  rewrite H1, H2, H3, H4, Hm. cbn [orb negb].
  rewrite (trim_no_space _ (emailRegex_no_space _ Hm)).
  by destruct (createContact _ now s).
Qed.

(** X9: a contact request with four non-empty fields and an address the
    pattern accepts is answered 200 with the id of the new contact, and
    the contact is then among the unread ones of either storage with its
    name, subject and message trimmed and its address in lower case. The
    fields are tested before they are trimmed: one of white space only
    passes, and is stored empty. *)
Theorem X9_accepted_contact_is_stored_trimmed (b : ContactBody.t) (now : Z)
  (sm : MemStorage.State) (sd : DatabaseStorage.State) :
  falsy (ContactBody.name b) = false ->
  falsy (ContactBody.email b) = false ->
  falsy (ContactBody.subject b) = false ->
  falsy (ContactBody.message b) = false ->
  matches emailRegex (present (ContactBody.email b)) = true ->
  ((contactRoute toLowerCase b now sm).1
   = mkResponse 200 (JSent (str "Message sent successfully")
                        (MemStorage.currentContactId sm))
   /\ In (storedContact toLowerCase b (MemStorage.currentContactId sm) now)
        (MemStorage.getUnreadContacts (contactRoute toLowerCase b now sm).2))
  /\ ((contactRoute toLowerCase b now sd).1
      = mkResponse 200 (JSent (str "Message sent successfully")
                          (DatabaseStorage.contacts_id_seq sd))
      /\ In (storedContact toLowerCase b
               (DatabaseStorage.contacts_id_seq sd) now)
           (DatabaseStorage.getUnreadContacts
              (contactRoute toLowerCase b now sd).2)).
Proof.
  intros H1 H2 H3 H4 Hm. split.
  - rewrite (contactRoute_accepts b now sm H1 H2 H3 H4 Hm).
    split; [done|]. cbn [snd].
    unfold MemStorage.getUnreadContacts. rewrite newestContactFirst_eq.
    apply (Permutation_in _ (Permutation_sym (sortBy_perm _ _))).
    apply List.filter_In. split; [|by apply isUnread_unread].
    unfold MemStorage.allContacts. apply list_elem_of_In, list_elem_of_omap.
    exists (fresh (dom (MemStorage.contactObjs sm))). split.
    + apply list_elem_of_In. cbn. apply JSMap_set_values.
    + cbn. apply lookup_insert_eq.
  - rewrite (contactRoute_accepts b now sd H1 H2 H3 H4 Hm).
    split; [done|]. cbn [snd].
    unfold DatabaseStorage.getUnreadContacts. rewrite newestContactFirst_eq.
    apply (Permutation_in _ (Permutation_sym (sortBy_perm _ _))).
    apply List.filter_In. split; [|by apply isUnread_unread].
    cbn. apply in_or_app. right. by left.
Qed.

Lemma trim_nil_of_nil : trim [] = [].
Proof. reflexivity. Qed.

Lemma falsy_of_trim (x : list N) :
  isEmpty (trim x) = false -> falsy (Some x) = false.
Proof. destruct x; [by rewrite trim_nil_of_nil|done]. Qed.

(** X10: what the contact form sends passes the checks of the server. When
    [handleSubmit] ends in the request, the data sent are the form's, and
    the handler of [POST /api/contact] answers 200 to them, whatever the
    storage. *)
Theorem X10_submitted_form_is_accepted {St Ref : Type} `{!IStorage St Ref}
  (formData data : ContactFormData.t) (now : Z) (s : St) :
  handleSubmit formData = Mutate data ->
  data = formData
  /\ statusCode (contactRoute toLowerCase (requestBody data) now s).1 = 200%Z.
Proof.
  unfold handleSubmit.
  destruct (isEmpty (trim (ContactFormData.name formData))) eqn:E1;
    [done|].
  destruct (isEmpty (trim (ContactFormData.email formData))) eqn:E2;
    [done|].
  destruct (isEmpty (trim (ContactFormData.subject formData))) eqn:E3;
    [done|].
  destruct (isEmpty (trim (ContactFormData.message formData))) eqn:E4;
    [done|].
  cbn [orb].
  destruct (matches emailRegex (ContactFormData.email formData)) eqn:Em;
    [|done].
  cbn [negb]. intros [= <-]. split; [done|].
  rewrite contactRoute_accepts; [done|..]; cbn;
    try by apply falsy_of_trim.
  exact Em.
Qed.
End ContactFacts.

(** *** Reading and deleting contacts *)

Lemma readIf_createdAt (id : Z) (c : Contact.t) :
  Contact.createdAt (readIf id c) = Contact.createdAt c.
Proof. unfold readIf. by destruct (Contact.id c =? id)%Z. Qed.

Lemma unread_after_readIf (id : Z) (l : list Contact.t) :
  List.filter isUnread (List.map (readIf id) l)
  = List.filter (notUnder id) (List.filter isUnread l).
Proof.
  induction l as [|c l IH]; [done|]. cbn [List.map List.filter].
  rewrite IH. destruct (Contact.id c =? id)%Z eqn:E.
  - assert (R : readIf id c = asRead c) by (unfold readIf; by rewrite E).
    assert (U : notUnder id c = false) by (unfold notUnder; by rewrite E).
    rewrite R. change (isUnread (asRead c)) with false. cbv iota.
    destruct (isUnread c); [|done]. cbn [List.filter]. by rewrite U.
  - assert (R : readIf id c = c) by (unfold readIf; by rewrite E).
    assert (U : notUnder id c = true) by (unfold notUnder; by rewrite E).
    rewrite R. destruct (isUnread c); [|done]. cbn [List.filter].
    by rewrite U.
Qed.

(** The unread rows after the update that marks the rows under [id]. *)
Lemma unread_after_update (id : Z) (l : list Contact.t) :
  List.filter isUnread
    (updateWhere (fun c => (Contact.id c =? id)%Z) asRead l)
  = List.filter (notUnder id) (List.filter isUnread l).
Proof.
  unfold updateWhere. rewrite List.filter_app.
  assert (E : List.filter isUnread
                (List.map asRead
                   (List.filter (fun c => (Contact.id c =? id)%Z) l)) = []).
  { induction l as [|c l IH]; [done|]. cbn [List.filter].
    destruct (Contact.id c =? id)%Z; [|exact IH]. exact IH. }
  rewrite E, app_nil_r, !List_filter_filter.
  apply List.filter_ext. intros c. unfold notUnder. apply andb_comm.
Qed.

(** With the maps in order, marking a contact changes that contact, and no
    other, in the sequence of all contacts. *)
Lemma Mem_allContacts_mark (id : Z) (s : MemStorage.State) :
  inOrder s ->
  MemStorage.allContacts (MemStorage.markContactAsRead id s)
  = List.map (readIf id) (MemStorage.allContacts s).
Proof.
  intros [_ (Hk & Hv & He)].
  assert (Hother : forall (h : gmap positive Contact.t) (m : list (Z * positive)),
            List.Forall (fun e => exists v, h !! e.2 = Some v /\
                                            Contact.id v = e.1 /\ e.1 <> id) m ->
            List.map (readIf id) (omap (fun l => h !! l) (JSMap.values m))
            = omap (fun l => h !! l) (JSMap.values m)).
  { intros h m. induction 1 as [|e m (v & Hlv & Hid & Hne) _ IH]; [done|].
    unfold JSMap.values in *. cbn [List.map]. rewrite omap_cons_eq, Hlv.
    cbn [List.map]. rewrite IH. unfold readIf.
    rewrite (proj2 (Z.eqb_neq _ _)); [done|congruence]. }
  unfold MemStorage.markContactAsRead.
  destruct (JSMap.get id (MemStorage.contacts s)) as [l|] eqn:Hg.
  - pose proof (JSMap_get_In _ _ _ Hg) as Hin.
    pose proof (proj1 (List.Forall_forall _ _) He _ Hin) as [_ (c & Hc & Hidc)].
    cbn [fst snd] in Hc, Hidc. rewrite Hc.
    unfold MemStorage.allContacts. cbn.
    assert (Hgen : forall m : list (Z * positive),
              (forall e, In e m -> In e (MemStorage.contacts s)) ->
              omap (fun l0 => <[l := Contact.with_status (str "read") c]>
                                (MemStorage.contactObjs s) !! l0)
                (JSMap.values m)
              = List.map (readIf id)
                  (omap (fun l0 => MemStorage.contactObjs s !! l0)
                     (JSMap.values m))).
    { intros m. induction m as [|e m IH]; [done|]. intros Hall.
      assert (Hem : In e (MemStorage.contacts s)) by (apply Hall; by left).
      unfold JSMap.values in *. cbn [List.map].
      rewrite !omap_cons_eq, IH by (intros; apply Hall; by right).
      pose proof (proj1 (List.Forall_forall _ _) He _ Hem)
        as [_ (w & Hw & Hidw)].
      destruct (decide (e.2 = l)) as [El|Nl].
      + assert (Ee : e = (id, l)).
        { apply (NoDup_map_inj_in snd (MemStorage.contacts s)); auto. }
        subst e. cbn [fst snd] in *. rewrite lookup_insert_eq, Hc.
        cbn [List.map]. unfold readIf at 2.
        by rewrite (proj2 (Z.eqb_eq _ _) Hidc).
      + rewrite lookup_insert_ne by done. rewrite Hw. cbn [List.map].
        unfold readIf at 2.
        assert (Hne : e.1 <> id).
        { intros Ek. apply Nl.
          assert (Ee : e = (id, l)).
          { apply (NoDup_map_inj_in fst (MemStorage.contacts s)); auto. }
          by subst e. }
        rewrite (proj2 (Z.eqb_neq _ _)); [done|congruence]. }
    by apply Hgen.
  - symmetry. apply Hother. apply List.Forall_forall. intros e Hin.
    pose proof (proj1 (List.Forall_forall _ _) He _ Hin) as [_ (w & Hw & Hidw)].
    exists w. split; [done|]. split; [done|].
    intros Ek. apply (JSMap_get_none _ _ Hg). apply in_map_iff. by exists e.
Qed.

(** X11: marking a contact as read takes it, and no other, out of the
    unread contacts, and shows it as read among all contacts: with
    [MemStorage], as long as its maps are in order, at its place in both
    listings; with [DatabaseStorage] in listings that hold the same
    contacts, the newest first. *)
Theorem X11_marked_contact_leaves_the_unread (id : Z)
  (sm : MemStorage.State) (sd : DatabaseStorage.State) :
  inOrder sm ->
  (MemStorage.getUnreadContacts (MemStorage.markContactAsRead id sm)
   = List.filter (notUnder id) (MemStorage.getUnreadContacts sm)
   /\ MemStorage.getAllContacts (MemStorage.markContactAsRead id sm)
      = List.map (readIf id) (MemStorage.getAllContacts sm))
  /\ (DatabaseStorage.getUnreadContacts
        (DatabaseStorage.markContactAsRead id sd)
      ≡ₚ List.filter (notUnder id) (DatabaseStorage.getUnreadContacts sd)
      /\ DatabaseStorage.getAllContacts
           (DatabaseStorage.markContactAsRead id sd)
         ≡ₚ List.map (readIf id) (DatabaseStorage.getAllContacts sd)).
Proof.
  intros Hm.
  unfold MemStorage.getUnreadContacts, MemStorage.getAllContacts,
    DatabaseStorage.getUnreadContacts, DatabaseStorage.getAllContacts.
  rewrite newestContactFirst_eq, (Mem_allContacts_mark id sm Hm).
  rewrite DB_markContactAsRead. cbn [DatabaseStorage.contacts].
  rewrite unread_after_readIf, unread_after_update, !filter_sortBy.
  rewrite !(sortBy_fmap _ _ _ (readIf_createdAt id)).
  split; [done|]. split; [done|].
  rewrite sortBy_perm, updateWhere_perm. symmetry.
  apply Permutation_map, sortBy_perm.
Qed.

Lemma filter_out_absent {A} (f : A -> bool) (l : list A) :
  head (List.filter f l) = None ->
  List.filter (fun x => negb (f x)) l = l.
Proof.
  induction l as [|x l IH]; [done|]. cbn [List.filter].
  destruct (f x); [done|]. cbn [negb]. intros H. by rewrite IH.
Qed.

Lemma Mem_contact_deleted (rowCount : nat -> option Z) (id : Z)
  (sm : MemStorage.State) :
  inOrder sm -> contactDeleted rowCount id sm.
Proof.
  intros [_ (Hk & Hv & He)]. unfold contactDeleted, deleteContactRoute.
  change (findContact id sm) with (MemStorage.getContact id sm).
  change (deleteContact rowCount id sm)
    with (MemStorage.deleteContact id sm).
  unfold MemStorage.deleteContact, MemStorage.getContact.
  destruct (JSMap.get id (MemStorage.contacts sm)) as [l|] eqn:Hg.
  - pose proof (JSMap_get_In _ _ _ Hg) as Hin.
    pose proof (proj1 (List.Forall_forall _ _) He _ Hin) as [_ (c & Hc & _)].
    cbn [fst snd mbind option_bind] in *. rewrite Hc.
    rewrite bool_decide_eq_true_2 by eauto. cbn [fst snd].
    split; [done|]. split.
    + change (MemStorage.getContact id
                (MemStorage.mkState (MemStorage.postObjs sm)
                   (MemStorage.contactObjs sm) (MemStorage.posts sm)
                   (JSMap.delete id (MemStorage.contacts sm))
                   (MemStorage.currentPostId sm)
                   (MemStorage.currentContactId sm) (MemStorage.postsDir sm)
                   (MemStorage.files sm))
              = None).
      unfold MemStorage.getContact.
      cbn [MemStorage.contacts MemStorage.contactObjs].
      by rewrite JSMap_get_delete.
    + intros k Hne.
      change (MemStorage.getContact k
                (MemStorage.mkState (MemStorage.postObjs sm)
                   (MemStorage.contactObjs sm) (MemStorage.posts sm)
                   (JSMap.delete id (MemStorage.contacts sm))
                   (MemStorage.currentPostId sm)
                   (MemStorage.currentContactId sm) (MemStorage.postsDir sm)
                   (MemStorage.files sm))
              = MemStorage.getContact k sm).
      unfold MemStorage.getContact.
      cbn [MemStorage.contacts MemStorage.contactObjs].
      by rewrite JSMap_get_delete_ne.
  - cbn [mbind option_bind].
    rewrite bool_decide_eq_false_2 by (intros [? ?]; done).
    rewrite (JSMap_delete_absent _ _ (JSMap_get_none _ _ Hg)).
    by destruct sm.
Qed.

(** The rows of [DatabaseStorage] after a deletion, whatever the driver
    reports. *)
Lemma DB_contact_removed (rowCount : nat -> option Z) (id : Z)
  (sd : DatabaseStorage.State) :
  findContact id (deleteContactRoute rowCount id sd).2 = None
  /\ forall k, k <> id ->
               findContact k (deleteContactRoute rowCount id sd).2
               = findContact k sd.
Proof.
  unfold deleteContactRoute.
  change (deleteContact rowCount id sd)
    with (DatabaseStorage.deleteContact rowCount id sd).
  unfold DatabaseStorage.deleteContact.
  destruct (match rowCount _ with Some n => _ | None => _ end);
    cbn [snd]; split.
  - cbn. apply (head_filter_filter_out (fun c => (Contact.id c =? id)%Z)).
  - intros k Hne. cbn. apply head_filter_filter.
    intros x Hx. apply Z.eqb_eq in Hx. apply negb_true_iff, Z.eqb_neq.
    congruence.
  - cbn. apply (head_filter_filter_out (fun c => (Contact.id c =? id)%Z)).
  - intros k Hne. cbn. apply head_filter_filter.
    intros x Hx. apply Z.eqb_eq in Hx. apply negb_true_iff, Z.eqb_neq.
    congruence.
Qed.

Lemma DB_contact_deleted (rowCount : nat -> option Z) (id : Z)
  (sd : DatabaseStorage.State) :
  reportsRows rowCount -> contactDeleted rowCount id sd.
Proof.
  intros Hrows. unfold contactDeleted.
  destruct (DB_contact_removed rowCount id sd) as [Hgone Hothers].
  destruct (findContact id sd) as [c|] eqn:Hf.
  - split; [|by split].
    unfold deleteContactRoute.
    change (deleteContact rowCount id sd)
      with (DatabaseStorage.deleteContact rowCount id sd).
    unfold DatabaseStorage.deleteContact. rewrite Hrows.
    change (findContact id sd)
      with (head (List.filter (fun c => (Contact.id c =? id)%Z)
                    (DatabaseStorage.contacts sd))) in Hf.
    destruct (List.filter _ (DatabaseStorage.contacts sd)); [done|].
    done.
  - unfold deleteContactRoute.
    change (deleteContact rowCount id sd)
      with (DatabaseStorage.deleteContact rowCount id sd).
    unfold DatabaseStorage.deleteContact. rewrite Hrows.
    change (findContact id sd)
      with (head (List.filter (fun c => (Contact.id c =? id)%Z)
                    (DatabaseStorage.contacts sd))) in Hf.
    rewrite (filter_out_absent _ _ Hf).
    apply head_filter_none in Hf. rewrite Hf. by destruct sd.
Qed.

(** X12: the handler of [DELETE /api/admin/contacts/:id] answers 404 and
    leaves the state as it was when no contact has the id; otherwise it
    answers success, the contact is gone, and every other contact is found
    as before. This holds with [MemStorage] as long as its maps are in
    order, and with [DatabaseStorage] on a driver whose results carry the
    number of rows touched as [rowCount]. *)
Theorem X12_delete_contact_outcome (rowCount : nat -> option Z) (id : Z)
  (sm : MemStorage.State) (sd : DatabaseStorage.State) :
  inOrder sm -> reportsRows rowCount ->
  contactDeleted rowCount id sm /\ contactDeleted rowCount id sd.
Proof.
  intros Hm Hr. split.
  - by apply Mem_contact_deleted.
  - by apply DB_contact_deleted.
Qed.

(** X29: on a driver whose results have no [rowCount], as those of the
    postgres-js driver that [db.ts] sets up, which carry [count], the
    same handler answers 404 to every request, also to one whose contact
    it has just deleted: the row is gone, the others are as before, and
    the answer is [Contact not found]. *)
Theorem X29_delete_contact_without_row_count (rowCount : nat -> option Z)
  (id : Z) (sd : DatabaseStorage.State) :
  reportsNothing rowCount ->
  (deleteContactRoute rowCount id sd).1
  = mkResponse 404 (JError (str "Contact not found"))
  /\ findContact id (deleteContactRoute rowCount id sd).2 = None
  /\ forall k, k <> id ->
               findContact k (deleteContactRoute rowCount id sd).2
               = findContact k sd.
Proof.
  intros Hn. split; [|apply DB_contact_removed].
  unfold deleteContactRoute.
  change (deleteContact rowCount id sd)
    with (DatabaseStorage.deleteContact rowCount id sd).
  unfold DatabaseStorage.deleteContact. by rewrite Hn.
Qed.

(** ** The login *)

Lemma ADMIN_PASSWORD_not_empty (env : option (list N)) :
  ADMIN_PASSWORD env <> [].
Proof. by destruct env as [[|c s]|]. Qed.

(** X13: the login handler never accepts the empty password, whatever the
    environment holds; and a server whose [ADMIN_PASSWORD] is unset, or
    set to the empty string, accepts [admin123]. *)
Theorem X13_login_password {Ref : Type} (env : option (list N)) :
  @loginRoute Ref env (Some [])
  = mkResponse 401 (JError (str "Invalid password"))
  /\ @loginRoute Ref None (Some (str "admin123")) = mkResponse 200 JSuccess
  /\ @loginRoute Ref (Some []) (Some (str "admin123"))
     = mkResponse 200 JSuccess.
Proof.
  split; [|by split]. unfold loginRoute, eqs.
  rewrite bool_decide_eq_false_2; [done|].
  intros H. by apply (ADMIN_PASSWORD_not_empty env).
Qed.

(** ** Updating a post *)

Lemma applyUpdate_id (p : Post.t) (u : PartialPost.t) :
  Post.id (applyUpdate p u) = Post.id p.
Proof. done. Qed.

(** What the update does to a post, column by column. *)
Lemma updatedFrom_applyUpdate (u : PartialPost.t) (p : Post.t) :
  updatedFrom u p (applyUpdate p u).
Proof. unfold updatedFrom. repeat split; reflexivity. Qed.

Lemma updatedFrom_with_updatedAt (u : PartialPost.t) (p p' : Post.t)
  (now : Z) :
  updatedFrom u p p' -> updatedFrom u p (with_updatedAt now p').
Proof. unfold updatedFrom. cbn. tauto. Qed.

(** A file written by [savePostToFile], and one that was not. *)
Lemma savePostToFile_written (dir : Path.t) (post : Post.t) (fs fs' : Fs.t) :
  savePostToFile dir post fs = Some fs' ->
  Fs.canWrite (mirrorPath dir (Post.slug post)) fs = true
  /\ Fs.readFile (mirrorPath dir (Post.slug post)) fs'
     = Some (toWellFormed (renderPost post))
  /\ forall path,
       Fs.locate path <> Fs.locate (mirrorPath dir (Post.slug post)) ->
       Fs.readFile path fs' = Fs.readFile path fs.
Proof.
  unfold savePostToFile. intros Hw. split; [|split].
  - rewrite writeFile_canWrite in Hw.
    by destruct (Fs.canWrite _ fs).
  - by apply (readFile_written _ _ fs).
  - intros path Hne. by apply (readFile_write_other _ _ _ _ _ Hw).
Qed.

Lemma savePostToFile_refused (dir : Path.t) (post : Post.t) (fs : Fs.t) :
  savePostToFile dir post fs = None ->
  Fs.canWrite (mirrorPath dir (Post.slug post)) fs = false.
Proof.
  unfold savePostToFile. rewrite writeFile_canWrite.
  by destruct (Fs.canWrite _ fs).
Qed.

(** The row under [id] after an update of the rows under [id], and the
    rows under another id. *)
Lemma DB_update_find (id : Z) (u : PartialPost.t) (rows : list Post.t) :
  head (List.filter (fun p => (Post.id p =? id)%Z)
          (updateWhere (fun p => (Post.id p =? id)%Z)
             (fun p => applyUpdate p u) rows))
  = (fun p => applyUpdate p u)
    <$> head (List.filter (fun p => (Post.id p =? id)%Z) rows).
Proof. rewrite filter_updateWhere by done. apply head_map. Qed.

Lemma DB_update_others (id k : Z) (u : PartialPost.t) (rows : list Post.t) :
  k <> id ->
  List.filter (fun p => (Post.id p =? k)%Z)
    (updateWhere (fun p => (Post.id p =? id)%Z)
       (fun p => applyUpdate p u) rows)
  = List.filter (fun p => (Post.id p =? k)%Z) rows.
Proof.
  intros Hne. apply filter_other_updateWhere.
  - intros x Hx. apply Z.eqb_eq in Hx. apply Z.eqb_neq. congruence.
  - induction rows as [|p rows IH]; [done|]. cbn [List.filter].
    destruct (Post.id p =? id)%Z eqn:E; [|exact IH].
    cbn [List.map List.filter]. rewrite applyUpdate_id.
    apply Z.eqb_eq in E. rewrite (proj2 (Z.eqb_neq _ _)); [exact IH|].
    congruence.
Qed.

Section UpdateFacts.
Context {ReqBody : Type}.
Variable parse : ReqBody -> Z -> option PartialPost.t.

Lemma Mem_update_found (reqBody : ReqBody) (id : Z) (u : PartialPost.t)
  (now : Z) (p : Post.t) (s : MemStorage.State) :
  parse reqBody id = Some u -> findPost id s = Some p ->
  updatedTo id u now p s (updatePostRoute parse reqBody id now s).
Proof.
  intros Hp Hf. unfold updatedTo, updatePostRoute. rewrite Hp.
  change (updatePost id u now s) with (MemStorage.updatePost id u now s).
  change (findPost id s) with (MemStorage.getPost id s) in Hf.
  unfold MemStorage.updatePost. rewrite Hf.
  set (p' := with_updatedAt now (applyUpdate p u)).
  set (l := fresh (dom (MemStorage.postObjs s))).
  set (stored := MemStorage.mkState _ _ _ _ _ _ _ _).
  exists p'.
  split; [apply updatedFrom_with_updatedAt, updatedFrom_applyUpdate|].
  split; [done|].
  assert (Hfound : forall fs, MemStorage.getPost id
                                (MemStorage.with_files fs stored) = Some p').
  { intros fs. unfold MemStorage.getPost, MemStorage.with_files, stored.
    cbn [MemStorage.posts MemStorage.postObjs].
    rewrite JSMap_get_set_eq. cbn. apply lookup_insert_eq. }
  assert (Hothers : forall fs k q, k <> id ->
            MemStorage.getPost k s = Some q ->
            MemStorage.getPost k (MemStorage.with_files fs stored) = Some q).
  { intros fs k q Hne Hq.
    unfold MemStorage.getPost, MemStorage.with_files, stored in *.
    cbn [MemStorage.posts MemStorage.postObjs].
    rewrite JSMap_get_set_ne by done.
    destruct (JSMap.get k (MemStorage.posts s)) as [lk|]; [|done].
    cbn [mbind option_bind] in *. rewrite lookup_insert_ne; [done|].
    intros <-. unfold l in Hq. by rewrite Mem_fresh_post in Hq. }
  change (savable (Post.slug p') s)
    with (Fs.canWrite (mirrorPath (MemStorage.postsDir s) (Post.slug p'))
            (MemStorage.files s)).
  destruct (savePostToFile (MemStorage.postsDir s) p' (MemStorage.files s))
    as [fs'|] eqn:Hw; cbn [fst snd].
  - destruct (savePostToFile_written _ _ _ _ Hw) as (Hcan & Hread & Hrest).
    rewrite Hcan.
    split; [apply Hfound|]. split; [apply Hothers|]. split; [done|].
    split; [done|]. split; [apply lookup_insert_eq|].
    split; [exact Hread|exact Hrest].
  - rewrite (savePostToFile_refused _ _ _ Hw).
    split; [apply (Hfound (MemStorage.files s))|].
    split; [apply (Hothers (MemStorage.files s))|]. done.
Qed.

Lemma DB_update_found (reqBody : ReqBody) (id : Z) (u : PartialPost.t)
  (now : Z) (p : Post.t) (s : DatabaseStorage.State) :
  parse reqBody id = Some u -> PartialPost.isEmpty u = false ->
  findPost id s = Some p ->
  updatedTo id u (Post.updatedAt p) p s
    (updatePostRoute parse reqBody id now s).
Proof.
  intros Hp He Hf. unfold updatedTo, updatePostRoute. rewrite Hp.
  change (updatePost id u now s) with (DatabaseStorage.updatePost id u s).
  change (findPost id s)
    with (head (DatabaseStorage.selectById id s)) in Hf.
  unfold DatabaseStorage.selectById in Hf. rewrite head_take_1 in Hf.
  unfold DatabaseStorage.updatePost. rewrite He.
  set (updated := DatabaseStorage.mkState _ _ _ _ _ _).
  destruct (List.filter _ (DatabaseStorage.posts s)) as [|p0 rest] eqn:E;
    [done|].
  injection Hf as ->. cbn [List.map].
  set (p' := applyUpdate p u).
  exists p'. split; [apply updatedFrom_applyUpdate|]. split; [done|].
  assert (Hfound : forall fs,
            head (DatabaseStorage.selectById id
                    (DatabaseStorage.with_files fs updated)) = Some p').
  { intros fs.
    unfold DatabaseStorage.selectById, DatabaseStorage.with_files, updated.
    cbn [DatabaseStorage.posts].
    by rewrite head_take_1, DB_update_find, E. }
  assert (Hothers : forall fs k q, k <> id ->
            head (DatabaseStorage.selectById k s) = Some q ->
            head (DatabaseStorage.selectById k
                    (DatabaseStorage.with_files fs updated)) = Some q).
  { intros fs k q Hne Hq.
    unfold DatabaseStorage.selectById, DatabaseStorage.with_files, updated
      in *.
    cbn [DatabaseStorage.posts]. by rewrite DB_update_others. }
  change (savable (Post.slug p') s)
    with (Fs.canWrite (mirrorPath (DatabaseStorage.postsDir s) (Post.slug p'))
            (DatabaseStorage.files s)).
  destruct (savePostToFile (DatabaseStorage.postsDir s) p'
              (DatabaseStorage.files s)) as [fs'|] eqn:Hw; cbn [fst snd].
  - destruct (savePostToFile_written _ _ _ _ Hw) as (Hcan & Hread & Hrest).
    rewrite Hcan.
    split; [apply Hfound|]. split; [apply Hothers|]. split; [done|].
    split; [done|]. split; [done|].
    split; [exact Hread|exact Hrest].
  - rewrite (savePostToFile_refused _ _ _ Hw).
    split; [apply (Hfound (DatabaseStorage.files s))|].
    split; [apply (Hothers (DatabaseStorage.files s))|]. done.
Qed.

(** X14: an update request that finds its post leaves it stored as
    updated: each key of the body replaces the column it names, the
    other columns, the id, the view count and the creation time stay
    ([MemStorage] sets the time of the update, [DatabaseStorage], which
    gets at least one column to set, leaves it). The post is then found so
    under its id, and the other posts are found as before. When the mirror
    file of the slug the post now carries can be written, the answer is
    200 with the post, and the file holds its text, the other files being
    as they were; when it cannot, the answer is 500 and no file has
    changed, the post staying updated. *)
Theorem X14_update_replaces_given_columns (reqBody : ReqBody) (id : Z)
  (u : PartialPost.t) (now : Z) (pm pd : Post.t)
  (sm : MemStorage.State) (sd : DatabaseStorage.State) :
  parse reqBody id = Some u -> PartialPost.isEmpty u = false ->
  findPost id sm = Some pm -> findPost id sd = Some pd ->
  updatedTo id u now pm sm (updatePostRoute parse reqBody id now sm)
  /\ updatedTo id u (Post.updatedAt pd) pd sd
       (updatePostRoute parse reqBody id now sd).
Proof.
  intros Hp He Hm Hd. split.
  - by apply Mem_update_found.
  - by apply DB_update_found.
Qed.

(** X15: an update request for an id no post has is answered 404, and the
    state stays as it was, with either storage ([DatabaseStorage] getting
    at least one column to set). *)
Theorem X15_update_of_absent_post (reqBody : ReqBody) (id : Z)
  (u : PartialPost.t) (now : Z)
  (sm : MemStorage.State) (sd : DatabaseStorage.State) :
  parse reqBody id = Some u -> PartialPost.isEmpty u = false ->
  findPost id sm = None -> findPost id sd = None ->
  updatePostRoute parse reqBody id now sm
  = (mkResponse 404 (JError (str "Post not found")), sm)
  /\ updatePostRoute parse reqBody id now sd
     = (mkResponse 404 (JError (str "Post not found")), sd).
Proof.
  intros Hp He Hm Hd. unfold updatePostRoute. rewrite Hp. split.
  - change (updatePost id u now sm) with (MemStorage.updatePost id u now sm).
    change (findPost id sm) with (MemStorage.getPost id sm) in Hm.
    unfold MemStorage.updatePost. by rewrite Hm.
  - change (updatePost id u now sd) with (DatabaseStorage.updatePost id u sd).
    change (findPost id sd)
      with (head (DatabaseStorage.selectById id sd)) in Hd.
    unfold DatabaseStorage.selectById in Hd. rewrite head_take_1 in Hd.
    unfold DatabaseStorage.updatePost. rewrite He.
    apply head_filter_none in Hd.
    rewrite (updateWhere_none _ _ _ Hd), Hd. cbn. by destruct sd.
Qed.

(** What an update that finds its post and gives it a slug does to the
    mirror. *)
Lemma updatedTo_renamedTo {St Ref : Type} `{!IStorage St Ref}
  `{!IStorageRest St Ref} (id : Z) (u : PartialPost.t) (stamp : Z)
  (slug' : list N) (p : Post.t) (s : St) (out : Response Ref * St) :
  PartialPost.slug u = Some slug' -> otherFile slug' (Post.slug p) s ->
  updatedTo id u stamp p s out -> renamedTo id (Post.slug p) slug' s out.
Proof.
  intros Hs Hother (p' & Hfrom & _ & Hfound & _ & Hdir & Hfile).
  assert (Hslug : Post.slug p' = slug').
  { destruct Hfrom as (_ & _ & E & _). rewrite E, Hs. done. }
  rewrite Hslug in Hfile. unfold renamedTo, mirrorFile. rewrite Hdir.
  destruct (savable slug' s).
  - destruct Hfile as (Hcode & _ & Hread & Hrest). split.
    + apply Hrest. intros E. by apply Hother.
    + exists p'. unfold mirrorFile in Hread. rewrite Hdir in Hread. done.
  - destruct Hfile as (Hresp & Hmirror). rewrite Hmirror. split; [done|].
    exists p'. by rewrite Hresp.
Qed.

(** X16: an update that gives a post a slug whose mirror file is another
    file than that of the slug it had leaves the old file as it was, with
    either storage: it is neither removed nor rewritten. The post is found
    under its new slug; the file of the new slug holds its text when it
    can be written, the answer being 200, and is as it was when it cannot,
    the answer being 500. *)
Theorem X16_rename_leaves_old_mirror_file (reqBody : ReqBody) (id : Z)
  (u : PartialPost.t) (now : Z) (slug' : list N) (pm pd : Post.t)
  (sm : MemStorage.State) (sd : DatabaseStorage.State) :
  parse reqBody id = Some u -> PartialPost.slug u = Some slug' ->
  findPost id sm = Some pm -> findPost id sd = Some pd ->
  otherFile slug' (Post.slug pm) sm -> otherFile slug' (Post.slug pd) sd ->
  renamedTo id (Post.slug pm) slug' sm
    (updatePostRoute parse reqBody id now sm)
  /\ renamedTo id (Post.slug pd) slug' sd
       (updatePostRoute parse reqBody id now sd).
Proof.
  intros Hp Hs Hm Hd Hom Hod.
  assert (He : PartialPost.isEmpty u = false).
  { unfold PartialPost.isEmpty. rewrite Hs. by destruct (PartialPost.title u). }
  split.
  - apply (updatedTo_renamedTo id u now slug' pm); [done|done|].
    by apply Mem_update_found.
  - apply (updatedTo_renamedTo id u (Post.updatedAt pd) slug' pd);
      [done|done|].
    by apply DB_update_found.
Qed.

(** X17: the update handler does not look whether the new slug is taken.
    An update that gives a post the slug of another post leaves, with
    either storage, two posts under one slug; the answer is 200 when the
    mirror file of that slug can be written, and 500 when it cannot. *)
Theorem X17_update_can_duplicate_a_slug (reqBody : ReqBody) (id id2 : Z)
  (u : PartialPost.t) (now : Z) (pm pm2 pd pd2 : Post.t)
  (sm : MemStorage.State) (sd : DatabaseStorage.State) :
  parse reqBody id = Some u -> id2 <> id ->
  findPost id sm = Some pm -> findPost id2 sm = Some pm2 ->
  PartialPost.slug u = Some (Post.slug pm2) ->
  findPost id sd = Some pd -> findPost id2 sd = Some pd2 ->
  Post.slug pd2 = Post.slug pm2 ->
  (sharedSlug id id2 (updatePostRoute parse reqBody id now sm).2
   /\ statusCode (updatePostRoute parse reqBody id now sm).1
      = if savable (Post.slug pm2) sm then 200%Z else 500%Z)
  /\ (sharedSlug id id2 (updatePostRoute parse reqBody id now sd).2
      /\ statusCode (updatePostRoute parse reqBody id now sd).1
         = if savable (Post.slug pm2) sd then 200%Z else 500%Z).
Proof.
  intros Hp Hne Hm Hm2 Hs Hd Hd2 Hsd.
  assert (He : PartialPost.isEmpty u = false).
  { unfold PartialPost.isEmpty. rewrite Hs. by destruct (PartialPost.title u). }
  destruct (Mem_update_found reqBody id u now pm sm Hp Hm)
    as (qm & Fm & _ & Im & Om & _ & Cm).
  destruct (DB_update_found reqBody id u now pd sd Hp He Hd)
    as (qd & Fd & _ & Id & Od & _ & Cd).
  assert (Em : Post.slug qm = Post.slug pm2).
  { destruct Fm as (_ & _ & E & _). by rewrite E, Hs. }
  assert (Ed : Post.slug qd = Post.slug pm2).
  { destruct Fd as (_ & _ & E & _). by rewrite E, Hs. }
  rewrite Em in Cm. rewrite Ed in Cd. split; split.
  - exists qm, pm2. split; [done|]. split; [by apply Om|done].
  - destruct (savable (Post.slug pm2) sm); [by destruct Cm|].
    destruct Cm as [-> _]. done.
  - exists qd, pd2. split; [done|]. split; [by apply Od|congruence].
  - destruct (savable (Post.slug pm2) sd); [by destruct Cd|].
    destruct Cd as [-> _]. done.
Qed.
End UpdateFacts.

(** ** Loading the mirror at start *)

(** *** DatabaseStorage *)

Lemma DB_loadFile_present (file content : list N) (now : Z)
  (s : DatabaseStorage.State) :
  is_Some (DatabaseStorage.getPostBySlug (fileSlug file) s) ->
  DatabaseStorage.loadFile file content now s = s.
Proof.
  unfold DatabaseStorage.loadFile, DatabaseStorage.getPostBySlug.
  destruct (List.filter _ (DatabaseStorage.posts s)); [|done].
  by intros [? ?].
Qed.

Lemma DB_loadFile_absent (file content : list N) (now : Z)
  (s : DatabaseStorage.State) :
  DatabaseStorage.getPostBySlug (fileSlug file) s = None ->
  DatabaseStorage.loadFile file content now s
  = DatabaseStorage.mkState
      (DatabaseStorage.posts s
       ++ [loadedPost (DatabaseStorage.posts_id_seq s) (fileSlug file)
             (DatabaseStorage.parseMarkdownFile content) now])
      (DatabaseStorage.contacts s) (DatabaseStorage.posts_id_seq s + 1)
      (DatabaseStorage.contacts_id_seq s) (DatabaseStorage.postsDir s)
      (DatabaseStorage.files s).
Proof.
  unfold DatabaseStorage.loadFile, DatabaseStorage.getPostBySlug.
  by destruct (List.filter _ (DatabaseStorage.posts s)).
Qed.

Lemma DB_getPostBySlug_app (slug : list N) (s : DatabaseStorage.State)
  (rows : list Post.t) c n m dir fs :
  is_Some (DatabaseStorage.getPostBySlug slug s) ->
  is_Some (DatabaseStorage.getPostBySlug slug
             (DatabaseStorage.mkState (DatabaseStorage.posts s ++ rows)
                c n m dir fs)).
Proof.
  unfold DatabaseStorage.getPostBySlug. cbn [DatabaseStorage.posts].
  rewrite List.filter_app.
  destruct (List.filter _ (DatabaseStorage.posts s)); [|by eauto].
  by intros [? ?].
Qed.

Lemma DB_loadFile_keeps (slug file content : list N) (now : Z)
  (s : DatabaseStorage.State) :
  is_Some (DatabaseStorage.getPostBySlug slug s) ->
  is_Some (DatabaseStorage.getPostBySlug slug
             (DatabaseStorage.loadFile file content now s)).
Proof.
  intros H.
  destruct (DatabaseStorage.getPostBySlug (fileSlug file) s) eqn:E.
  - by rewrite DB_loadFile_present by eauto.
  - rewrite (DB_loadFile_absent _ _ _ _ E). by apply DB_getPostBySlug_app.
Qed.

Lemma DB_loadFile_serves (file content : list N) (now : Z)
  (s : DatabaseStorage.State) :
  is_Some (DatabaseStorage.getPostBySlug (fileSlug file)
             (DatabaseStorage.loadFile file content now s)).
Proof.
  destruct (DatabaseStorage.getPostBySlug (fileSlug file) s) eqn:E.
  - rewrite DB_loadFile_present by eauto. by rewrite E.
  - rewrite (DB_loadFile_absent _ _ _ _ E).
    unfold DatabaseStorage.getPostBySlug. cbn [DatabaseStorage.posts].
    rewrite List.filter_app. cbn [List.filter loadedPost Post.slug].
    rewrite eqs_refl.
    destruct (List.filter _ (DatabaseStorage.posts s)); by eauto.
Qed.

Lemma DB_loadFile_files (file content : list N) (now : Z)
  (s : DatabaseStorage.State) :
  DatabaseStorage.files (DatabaseStorage.loadFile file content now s)
  = DatabaseStorage.files s.
Proof.
  unfold DatabaseStorage.loadFile.
  by destruct (take 1 _).
Qed.

Lemma DB_loadFile_postsDir (file content : list N) (now : Z)
  (s : DatabaseStorage.State) :
  DatabaseStorage.postsDir (DatabaseStorage.loadFile file content now s)
  = DatabaseStorage.postsDir s.
Proof.
  unfold DatabaseStorage.loadFile.
  by destruct (take 1 _).
Qed.

Lemma DB_load_files (files : list (list N)) (clock : nat -> Z)
  (s : DatabaseStorage.State) :
  DatabaseStorage.files (DatabaseStorage.loadMarkdownFiles files clock s)
  = DatabaseStorage.files s
  /\ DatabaseStorage.postsDir
       (DatabaseStorage.loadMarkdownFiles files clock s)
     = DatabaseStorage.postsDir s.
Proof.
  revert clock s. induction files as [|file files IH]; intros clock s; [done|].
  cbn [DatabaseStorage.loadMarkdownFiles].
  destruct (Fs.readFile _ (DatabaseStorage.files s)) as [content|]; [|done].
  destruct (IH (fun i => clock (S i))
              (DatabaseStorage.loadFile file content (clock 0%nat) s))
    as [E1 E2].
  by rewrite E1, E2, DB_loadFile_files, DB_loadFile_postsDir.
Qed.

Lemma DB_load_keeps (slug : list N) (files : list (list N))
  (clock : nat -> Z) (s : DatabaseStorage.State) :
  is_Some (DatabaseStorage.getPostBySlug slug s) ->
  is_Some (DatabaseStorage.getPostBySlug slug
             (DatabaseStorage.loadMarkdownFiles files clock s)).
Proof.
  revert clock s. induction files as [|file files IH]; intros clock s H;
    [done|].
  cbn [DatabaseStorage.loadMarkdownFiles].
  destruct (Fs.readFile _ (DatabaseStorage.files s)); [|done].
  by apply IH, DB_loadFile_keeps.
Qed.

Lemma DB_load_again (files : list (list N)) (clock clock' : nat -> Z)
  (s : DatabaseStorage.State) :
  DatabaseStorage.loadMarkdownFiles files clock'
    (DatabaseStorage.loadMarkdownFiles files clock s)
  = DatabaseStorage.loadMarkdownFiles files clock s.
Proof.
  revert clock clock' s.
  induction files as [|file files IH]; intros clock clock' s; [done|].
  cbn [DatabaseStorage.loadMarkdownFiles].
  destruct (Fs.readFile (Path.join (DatabaseStorage.postsDir s) file)
              (DatabaseStorage.files s)) as [content|] eqn:E.
  - destruct (DB_load_files files (fun i => clock (S i))
                (DatabaseStorage.loadFile file content (clock 0%nat) s))
      as [E1 E2].
    rewrite E1, E2, DB_loadFile_files, DB_loadFile_postsDir, E.
    rewrite DB_loadFile_present; [apply IH|].
    apply DB_load_keeps, DB_loadFile_serves.
  - cbn [DatabaseStorage.loadMarkdownFiles]. by rewrite E.
Qed.

(** X18: the import of [DatabaseStorage] can be run again: a second run
    over the same listing, at any later time, changes nothing. *)
Theorem X18_database_import_runs_once (listing : list (list N))
  (clock clock' : nat -> Z) (s : DatabaseStorage.State) :
  DatabaseStorage.loadPostsFromFiles listing clock'
    (DatabaseStorage.loadPostsFromFiles listing clock s)
  = DatabaseStorage.loadPostsFromFiles listing clock s.
Proof. apply DB_load_again. Qed.

Lemma DB_getPostBySlug_none (slug : list N) (s : DatabaseStorage.State) :
  DatabaseStorage.getPostBySlug slug s = None ->
  List.Forall (fun q => Post.slug q <> slug) (DatabaseStorage.posts s).
Proof.
  unfold DatabaseStorage.getPostBySlug. intros H.
  apply List.Forall_forall. intros q Hq E.
  assert (Hin : In q (List.filter (fun p => eqs (Post.slug p) slug)
                        (DatabaseStorage.posts s))).
  { apply List.filter_In. split; [done|]. rewrite E. apply eqs_refl. }
  by destruct (List.filter _ (DatabaseStorage.posts s)).
Qed.

Lemma DB_load_adds (files : list (list N)) (clock : nat -> Z)
  (s : DatabaseStorage.State) :
  exists added,
    DatabaseStorage.posts (DatabaseStorage.loadMarkdownFiles files clock s)
    = DatabaseStorage.posts s ++ added
    /\ List.Forall (imported s) added
    /\ List.NoDup (List.map Post.slug added)
    /\ DatabaseStorage.contacts
         (DatabaseStorage.loadMarkdownFiles files clock s)
       = DatabaseStorage.contacts s.
Proof.
  revert clock s. induction files as [|file files IH]; intros clock s.
  { exists []. rewrite app_nil_r. repeat split; constructor. }
  cbn [DatabaseStorage.loadMarkdownFiles].
  destruct (Fs.readFile _ (DatabaseStorage.files s)) as [content|];
    [|exists []; rewrite app_nil_r; repeat split; constructor].
  destruct (DatabaseStorage.getPostBySlug (fileSlug file) s) eqn:E.
  - rewrite DB_loadFile_present by eauto. apply IH.
  - pose proof (DB_loadFile_serves file content (clock 0%nat) s) as Hs.
    rewrite (DB_loadFile_absent _ _ _ _ E) in *.
    set (post := loadedPost _ _ _ _) in *.
    set (s1 := DatabaseStorage.mkState _ _ _ _ _ _) in *.
    destruct (IH (fun i => clock (S i)) s1) as (added & Hp & Hi & Hn & Hc).
    assert (Hweak : forall slug,
              DatabaseStorage.getPostBySlug slug s1 = None ->
              DatabaseStorage.getPostBySlug slug s = None).
    { intros slug H1.
      destruct (DatabaseStorage.getPostBySlug slug s) eqn:E'; [|done].
      assert (H2 : is_Some (DatabaseStorage.getPostBySlug slug s1))
        by (apply DB_getPostBySlug_app; eauto).
      rewrite H1 in H2. by destruct H2. }
    exists (post :: added). split; [|split; [|split]].
    + rewrite Hp. unfold s1. cbn [DatabaseStorage.posts].
      by rewrite <- app_assoc.
    + constructor; [by split|].
      eapply List.Forall_impl; [|exact Hi]. intros q [Hv Hq].
      split; [done|by apply Hweak].
    + cbn [List.map]. apply List.NoDup_cons; [|done].
      intros Hin. apply in_map_iff in Hin as (q & Eq & Hin).
      pose proof (proj1 (List.Forall_forall _ _) Hi q Hin) as [_ Hq].
      rewrite Eq in Hq. change (Post.slug post) with (fileSlug file) in Hq.
      rewrite Hq in Hs. by destruct Hs.
    + by rewrite Hc.
Qed.

(** X19: the import of [DatabaseStorage] only adds rows. The rows of the
    table stay as they are and where they are; each row added starts at
    zero views under a slug the table did not have, and no two of them
    share a slug, so that slugs that were unique stay unique; contacts and
    files are not touched. *)
Theorem X19_database_import_adds_missing_slugs (listing : list (list N))
  (clock : nat -> Z) (s : DatabaseStorage.State) :
  exists added,
    DatabaseStorage.posts (DatabaseStorage.loadPostsFromFiles listing clock s)
    = DatabaseStorage.posts s ++ added
    /\ List.Forall (imported s) added
    /\ List.NoDup (List.map Post.slug added)
    /\ (uniqueSlugs s ->
        uniqueSlugs (DatabaseStorage.loadPostsFromFiles listing clock s))
    /\ DatabaseStorage.contacts
         (DatabaseStorage.loadPostsFromFiles listing clock s)
       = DatabaseStorage.contacts s
    /\ DatabaseStorage.files
         (DatabaseStorage.loadPostsFromFiles listing clock s)
       = DatabaseStorage.files s.
Proof.
  unfold DatabaseStorage.loadPostsFromFiles.
  destruct (DB_load_adds (markdownFiles listing) clock s)
    as (added & Hp & Hi & Hn & Hc).
  exists added. split; [exact Hp|]. split; [exact Hi|]. split; [exact Hn|].
  split; [|split; [exact Hc|apply DB_load_files]].
  unfold uniqueSlugs.
  change (allPosts (DatabaseStorage.loadMarkdownFiles
                      (List.filter (fun file => endsWith file (str ".md"))
                         listing) clock s))
    with (DatabaseStorage.posts
            (DatabaseStorage.loadMarkdownFiles (markdownFiles listing)
               clock s)).
  change (allPosts s) with (DatabaseStorage.posts s).
  intros Hu. rewrite Hp, List.map_app.
  apply List.NoDup_app; [done|done|].
  intros a Ha Ha'. apply in_map_iff in Ha as (q & <- & Hq).
  apply in_map_iff in Ha' as (q' & Eq & Hq').
  pose proof (proj1 (List.Forall_forall _ _) Hi q' Hq') as [_ Hnone].
  apply DB_getPostBySlug_none in Hnone.
  by apply (proj1 (List.Forall_forall _ _) Hnone q Hq).
Qed.

Lemma DB_load_serves (files : list (list N)) (clock : nat -> Z)
  (s : DatabaseStorage.State) (file : list N) :
  readableIn (DatabaseStorage.postsDir s) (DatabaseStorage.files s) files ->
  In file files ->
  is_Some (DatabaseStorage.getPostBySlug (fileSlug file)
             (DatabaseStorage.loadMarkdownFiles files clock s)).
Proof.
  revert clock s. induction files as [|f files IH]; intros clock s Hr Hin;
    [done|].
  apply Forall_cons in Hr as [[content Hf] Hr].
  cbn [DatabaseStorage.loadMarkdownFiles]. rewrite Hf.
  destruct Hin as [->|Hin].
  - apply DB_load_keeps, DB_loadFile_serves.
  - apply IH; [|done]. by rewrite DB_loadFile_files, DB_loadFile_postsDir.
Qed.

Lemma readableIn_markdownFiles (dir : Path.t) (fs : Fs.t)
  (listing : list (list N)) :
  readableIn dir fs listing -> readableIn dir fs (markdownFiles listing).
Proof. apply Forall_List_filter. Qed.

(** *** MemStorage *)

Lemma Mem_loadFile_allPosts (file content : list N) (now : Z)
  (s : MemStorage.State) :
  inOrder s ->
  MemStorage.allPosts (MemStorage.loadFile file content now s)
  = MemStorage.allPosts s
    ++ [loadedPost (MemStorage.currentPostId s) (fileSlug file)
          (MemStorage.parseMarkdownFile content) now].
Proof.
  intros [(Hk & Hv & He) _]. unfold MemStorage.allPosts, MemStorage.loadFile.
  cbn [MemStorage.posts MemStorage.postObjs].
  rewrite (JSMap_set_new _ _ _ (entryOf_key_below _ _ _ _ He)).
  unfold JSMap.values. rewrite List.map_app, omap_app. cbn [List.map snd].
  rewrite omap_insert_other
    by apply (entryOf_value_known _ _ _ _ _ He (Mem_fresh_post s)).
  by rewrite omap_cons_eq, lookup_insert_eq.
Qed.

Lemma bootPosts_cons (dir : Path.t) (fs : Fs.t) (clock : nat -> Z)
  (first : Z) (file : list N) (files : list (list N)) :
  bootPosts dir fs clock first (file :: files)
  = loadedPost first (fileSlug file)
      (MemStorage.parseMarkdownFile
         (default [] (Fs.readFile (Path.join dir file) fs))) (clock 0%nat)
    :: bootPosts dir fs (fun i => clock (S i)) (first + 1) files.
Proof.
  unfold bootPosts. rewrite imap_cons. rewrite Z.add_0_r. f_equal.
  apply imap_ext. intros i f _. cbn. f_equal. lia.
Qed.

Lemma Mem_load_allPosts (files : list (list N)) (clock : nat -> Z)
  (s : MemStorage.State) :
  inOrder s ->
  readableIn (MemStorage.postsDir s) (MemStorage.files s) files ->
  MemStorage.allPosts (MemStorage.loadMarkdownFiles files clock s)
  = MemStorage.allPosts s
    ++ bootPosts (MemStorage.postsDir s) (MemStorage.files s) clock
         (MemStorage.currentPostId s) files
  /\ MemStorage.currentPostId (MemStorage.loadMarkdownFiles files clock s)
     = (MemStorage.currentPostId s + Z.of_nat (length files))%Z.
Proof.
  revert clock s. induction files as [|file files IH]; intros clock s Ho Hr.
  { cbn. rewrite app_nil_r. split; [done|lia]. }
  apply Forall_cons in Hr as [[content Hf] Hr].
  cbn [MemStorage.loadMarkdownFiles]. rewrite Hf.
  destruct (IH (fun i => clock (S i))
              (MemStorage.loadFile file content (clock 0%nat) s)
              (inOrder_loadFile _ _ _ _ Ho) Hr) as [E1 E2].
  rewrite E1, E2, (Mem_loadFile_allPosts _ _ _ _ Ho), bootPosts_cons, Hf.
  cbn [MemStorage.loadFile MemStorage.currentPostId MemStorage.files
       MemStorage.postsDir default length].
  rewrite <- app_assoc. split; [done|lia].
Qed.

(** [mkdir] makes directories and leaves the files alone. *)
Lemma readFile_mkdir (dir path : Path.t) (fs : Fs.t) :
  Fs.readFile path (default fs (Fs.mkdir_recursive dir fs))
  = Fs.readFile path fs.
Proof.
  unfold Fs.mkdir_recursive. by destruct (_ && _).
Qed.

Lemma readableIn_mkdir (made dir : Path.t) (fs : Fs.t)
  (listing : list (list N)) :
  readableIn dir fs listing ->
  readableIn dir (default fs (Fs.mkdir_recursive made fs)) listing.
Proof.
  apply List.Forall_impl. intros file. by rewrite readFile_mkdir.
Qed.

Lemma bootPosts_mkdir (made dir : Path.t) (fs : Fs.t) (clock : nat -> Z)
  (first : Z) (files : list (list N)) :
  bootPosts dir (default fs (Fs.mkdir_recursive made fs)) clock first files
  = bootPosts dir fs clock first files.
Proof.
  unfold bootPosts. apply imap_ext. intros i file _. cbn.
  by rewrite readFile_mkdir.
Qed.

Lemma Mem_new_posts
  (cwd : Path.t) (fs : Fs.t) (listing : list (list N)) (clock : nat -> Z) :
  readableIn (Path.join cwd (str "posts")) fs listing ->
  MemStorage.allPosts (MemStorage.new cwd fs listing clock)
  = bootPosts (Path.join cwd (str "posts")) fs clock 1
      (markdownFiles listing)
  /\ MemStorage.currentPostId (MemStorage.new cwd fs listing clock)
     = (1 + Z.of_nat (length (markdownFiles listing)))%Z
  /\ inOrder (MemStorage.new cwd fs listing clock).
Proof.
  intros Hr. unfold MemStorage.new, MemStorage.loadPostsFromFiles.
  cbv zeta. fold (markdownFiles listing).
  set (dir := Path.join cwd (str "posts")) in *.
  set (fs' := default fs (Fs.mkdir_recursive dir fs)).
  destruct (Mem_load_allPosts (markdownFiles listing) clock
              (MemStorage.mkState ∅ ∅ [] [] 1 1 dir fs')
              (inOrder_empty dir fs')
              (readableIn_markdownFiles _ _ _ (readableIn_mkdir _ _ _ _ Hr)))
    as [E1 E2].
  split; [|split; [exact E2|]].
  - rewrite E1. cbn [MemStorage.allPosts MemStorage.postsDir MemStorage.files
                     MemStorage.currentPostId].
    apply bootPosts_mkdir.
  - apply inOrder_loadMarkdownFiles, inOrder_empty.
Qed.

(** X20: what [new MemStorage()] holds when the files of the directory
    [posts] under the working directory can be read: one post for each
    markdown file, in the order of the directory, numbered from 1, with
    zero views, the slug taken from the file name and title, body and the
    rest from the parsed file. Ids and view counts do not outlive the
    process. *)
Theorem X20_mem_storage_starts_from_the_files
  (cwd : Path.t) (fs : Fs.t) (listing : list (list N)) (clock : nat -> Z) :
  readableIn (Path.join cwd (str "posts")) fs listing ->
  MemStorage.allPosts (MemStorage.new cwd fs listing clock)
  = bootPosts (Path.join cwd (str "posts")) fs clock 1
      (markdownFiles listing)
  /\ MemStorage.currentPostId (MemStorage.new cwd fs listing clock)
     = (1 + Z.of_nat (length (markdownFiles listing)))%Z
  /\ inOrder (MemStorage.new cwd fs listing clock).
Proof. apply Mem_new_posts. Qed.



(** *** A renamed post and the next start *)

Section RenameFacts.
Context {ReqBody : Type}.
Variable parse : ReqBody -> Z -> option PartialPost.t.

(** The state an update leaves in [DatabaseStorage], whether or not the
    mirror file gets written: the rows are updated, and no file is
    lost. *)
Lemma DB_update_state (reqBody : ReqBody) (id : Z) (u : PartialPost.t)
  (now : Z) (sd : DatabaseStorage.State) :
  parse reqBody id = Some u -> PartialPost.isEmpty u = false ->
  DatabaseStorage.posts (updatePostRoute parse reqBody id now sd).2
  = updateWhere (fun q => (Post.id q =? id)%Z) (fun q => applyUpdate q u)
      (DatabaseStorage.posts sd)
  /\ DatabaseStorage.postsDir (updatePostRoute parse reqBody id now sd).2
     = DatabaseStorage.postsDir sd
  /\ forall path,
       is_Some (Fs.readFile path (DatabaseStorage.files sd)) ->
       is_Some (Fs.readFile path
                  (DatabaseStorage.files
                     (updatePostRoute parse reqBody id now sd).2)).
Proof.
  intros Hp He. unfold updatePostRoute. rewrite Hp.
  change (updatePost id u now sd) with (DatabaseStorage.updatePost id u sd).
  unfold DatabaseStorage.updatePost. rewrite He.
  destruct (List.map _ (List.filter _ (DatabaseStorage.posts sd)))
    as [|post rest]; [done|].
  destruct (savePostToFile _ post _) as [fs'|] eqn:Hw; [|done].
  cbn. split; [done|]. split; [done|].
  intros path. by apply (readFile_write_keeps _ _ _ _ _ Hw).
Qed.

Lemma head_filter_Forall {A} (f : A -> bool) (l : list A) :
  List.Forall (fun x => f x = false) l -> head (List.filter f l) = None.
Proof.
  induction 1 as [|x l Hx _ IH]; [done|]. cbn [List.filter]. by rewrite Hx.
Qed.

(** X22: with [DatabaseStorage], a post that an update has given a new
    slug comes back under its old slug at the next start. The update
    leaves the mirror file of the old slug; when no other row carries that
    slug, the lookup under it finds nothing after the update, and finds a
    post again once the import has run over a listing that holds the old
    file. *)
Theorem X22_renamed_post_returns_at_next_start (reqBody : ReqBody) (id : Z)
  (u : PartialPost.t) (now : Z) (slug' : list N) (p : Post.t)
  (sd : DatabaseStorage.State) (listing : list (list N)) (clock : nat -> Z) :
  parse reqBody id = Some u -> PartialPost.slug u = Some slug' ->
  findPost id sd = Some p -> slug' <> Post.slug p ->
  urlSafe (Post.slug p) ->
  List.Forall (fun q => Post.slug q = Post.slug p -> Post.id q = id)
    (allPosts sd) ->
  readableIn (postsDir sd) (mirror sd) listing ->
  In (mirrorName (Post.slug p)) listing ->
  getPostBySlug (Post.slug p) (updatePostRoute parse reqBody id now sd).2
  = None
  /\ is_Some (getPostBySlug (Post.slug p)
                (DatabaseStorage.loadPostsFromFiles listing clock
                   (updatePostRoute parse reqBody id now sd).2)).
Proof.
  intros Hp Hs Hf Hne Hsafe Honly Hr Hin.
  assert (He : PartialPost.isEmpty u = false).
  { unfold PartialPost.isEmpty. rewrite Hs. by destruct (PartialPost.title u). }
  destruct (DB_update_state reqBody id u now sd Hp He)
    as (Erows & Edir & Hkeeps).
  split.
  - change (DatabaseStorage.getPostBySlug (Post.slug p)
              (updatePostRoute parse reqBody id now sd).2 = None).
    unfold DatabaseStorage.getPostBySlug. rewrite Erows.
    change (allPosts sd) with (DatabaseStorage.posts sd) in Honly.
    apply head_filter_Forall. unfold updateWhere. apply List.Forall_app.
    split.
    + apply List.Forall_forall. intros q Hq.
      apply List.filter_In in Hq as [Hq Hid].
      apply negb_true_iff, Z.eqb_neq in Hid.
      unfold eqs. apply bool_decide_eq_false_2. intros E.
      apply Hid. by apply (proj1 (List.Forall_forall _ _) Honly q Hq).
    + apply List.Forall_forall. intros q Hq.
      apply in_map_iff in Hq as (q0 & <- & _).
      cbn [applyUpdate Post.slug]. rewrite Hs. cbn [default].
      unfold eqs. by apply bool_decide_eq_false_2.
  - change (is_Some (DatabaseStorage.getPostBySlug (Post.slug p)
                       (DatabaseStorage.loadPostsFromFiles listing clock
                          (updatePostRoute parse reqBody id now sd).2))).
    rewrite <- (fileSlug_mirrorName (Post.slug p)) at 1
      by (by apply urlSafe_no_dot).
    apply DB_load_serves.
    + rewrite Edir. apply readableIn_markdownFiles.
      eapply List.Forall_impl; [|exact Hr]. intros file. apply Hkeeps.
    + apply List.filter_In. split; [done|apply endsWith_mirrorName].
Qed.
End RenameFacts.

(** ** Statistics *)

Lemma slice_0_5 {A} (l : list A) : slice 0 5 l = take 5 l.
Proof. done. Qed.

Lemma filter_length_le {A} (f : A -> bool) (l : list A) :
  (length (List.filter f l) <= length l)%nat.
Proof.
  induction l as [|x l IH]; [done|]. cbn [List.filter].
  destruct (f x); cbn [length]; lia.
Qed.

Lemma published_draft_le (l : list Post.t) :
  (length (List.filter isPublished l) + length (List.filter isDraft l)
   <= length l)%nat.
Proof.
  induction l as [|p l IH]; [done|]. cbn [List.filter].
  assert (H : isPublished p = true -> isDraft p = false).
  { unfold isPublished, isDraft. intros H. apply eqs_true in H.
    rewrite H. done. }
  destruct (isPublished p) eqn:E1.
  - rewrite (H eq_refl). cbn [length]. lia.
  - destruct (isDraft p); cbn [length]; lia.
Qed.

Lemma statsOf_top (posts : list Post.t) (tot pub dra mon : nat) (tv : Z)
  (d : gmap (list N) Count) :
  tot = length posts ->
  pub = length (List.filter isPublished posts) ->
  dra = length (List.filter isDraft posts) ->
  (mon <= tot)%nat ->
  statsOf posts
    (PostStats.mk tot pub dra mon tv
       (slice 0 5 (sortBy mostViewedFirst (List.filter isPublished posts))) d).
Proof.
  intros -> -> -> Hm. unfold statsOf.
  cbn [PostStats.totalPosts PostStats.publishedPosts PostStats.draftPosts
       PostStats.thisMonthPosts PostStats.topPosts].
  rewrite slice_0_5, mostViewedFirst_eq. fold views.
  change (fun p : Post.t => orZero (Post.viewCount p)) with views.
  set (sorted := sortBy (largestFirst views) (List.filter isPublished posts)).
  assert (Hs : descending views sorted) by apply sortBy_sorted.
  assert (Hp : sorted ≡ₚ List.filter isPublished posts) by apply sortBy_perm.
  split; [done|]. split; [apply published_draft_le|]. split; [done|].
  split; [|split].
  - rewrite length_take, (Permutation_length Hp). lia.
  - unfold descending in *. rewrite <- (take_drop 5 sorted) in Hs.
    by apply StronglySorted_app_1_l in Hs.
  - exists (drop 5 sorted). split; [by rewrite take_drop|].
    unfold descending in Hs. rewrite <- (take_drop 5 sorted) in Hs.
    apply List.Forall_forall. intros r Hr.
    apply List.Forall_forall. intros t Ht.
    apply (StronglySorted_app_1_elem_of _ _ _ t r Hs);
      by apply list_elem_of_In.
Qed.

(** X23: the statistics of either storage fit the posts they are taken
    from: the total is their number, published and draft posts together
    are no more than the total, neither are the posts of the month; the
    top list holds the five most viewed published posts, or all of them
    when there are fewer, most viewed first. *)
Theorem X23_statistics_fit_the_posts (inherited : list N -> option (list N))
  (startOfMonth monthBefore : Z -> Z) (now : Z)
  (sm : MemStorage.State) (sd : DatabaseStorage.State) :
  statsOf (MemStorage.allPosts sm)
    (MemStorage.getPostStats inherited startOfMonth now sm)
  /\ statsOf (DatabaseStorage.posts sd)
       (DatabaseStorage.getPostStats inherited monthBefore now sd).
Proof.
  split; apply statsOf_top; try done; apply filter_length_le.
Qed.

Lemma sumViews_from (acc : Z) (l : list Post.t) :
  fold_left (fun sum post => (sum + orZero (Post.viewCount post))%Z) l acc
  = (acc + sumViews l)%Z.
Proof.
  unfold sumViews. revert acc. induction l as [|p l IH]; intros acc.
  - cbn. lia.
  - cbn [fold_left]. rewrite IH, (IH (0 + _)%Z). lia.
Qed.

Lemma sumViews_cons (p : Post.t) (l : list Post.t) :
  sumViews (p :: l) = (Post.viewCount p + sumViews l)%Z.
Proof.
  unfold sumViews at 1. cbn [fold_left]. rewrite sumViews_from, orZero_id.
  lia.
Qed.

Lemma sumViews_app (a b : list Post.t) :
  sumViews (a ++ b) = (sumViews a + sumViews b)%Z.
Proof.
  induction a as [|p a IH]; [done|].
  cbn [app]. rewrite !sumViews_cons, IH. lia.
Qed.

Lemma sumViews_perm (a b : list Post.t) :
  a ≡ₚ b -> sumViews a = sumViews b.
Proof.
  induction 1 as [|x a b _ IH|x y a|a b c _ IH1 _ IH2]; [done| | |].
  - by rewrite !sumViews_cons, IH.
  - rewrite !sumViews_cons. lia.
  - by rewrite IH1.
Qed.

Section ViewsFacts.
Context {St Ref : Type} `{!IStorage St Ref} {mirrored : bool}
  `{!ViewCounting St Ref mirrored}.

(** With unique slugs, a request that finds its post adds one view to the
    sum over all posts, and a request that finds none adds nothing. *)
Lemma getPostRoute_sumViews (slug : list N) (s : St) :
  uniqueSlugs s ->
  sumViews (allPosts (getPostRoute slug s).2)
  = (sumViews (allPosts s)
     + match getPostBySlug slug s with Some _ => 1 | None => 0 end)%Z.
Proof.
  intros Hu. destruct (getPostBySlug slug s) as [r|] eqn:Hg.
  - destruct (found_stored slug s r Hg) as (p & _ & Hin & Hs).
    apply list_elem_of_In, elem_of_Permutation in Hin as [rest Hperm].
    rewrite (sumViews_perm _ _ (getPostRoute_counts slug s p rest Hu Hperm Hs)).
    rewrite (sumViews_perm _ _ Hperm), !sumViews_cons.
    unfold bump, bumpBy. cbn [Post.viewCount Post.with_viewCount]. lia.
  - rewrite (getPostRoute_absent slug s Hg). cbn [snd]. lia.
Qed.
End ViewsFacts.

(** X24: with either storage, when each slug belongs to one post, a
    request for a post that is found raises the total of views of the
    statistics by exactly one, and a request that is answered 404 leaves
    the total as it was. *)
Theorem X24_fetch_adds_one_to_total_views
  (inherited : list N -> option (list N))
  (startOfMonth monthBefore : Z -> Z) (now now' : Z) (slug : list N)
  (sm : MemStorage.State) (sd : DatabaseStorage.State) :
  uniqueSlugs sm -> uniqueSlugs sd ->
  PostStats.totalViews
    (MemStorage.getPostStats inherited startOfMonth now'
       (getPostRoute slug sm).2)
  = (PostStats.totalViews
       (MemStorage.getPostStats inherited startOfMonth now sm)
     + match getPostBySlug slug sm with Some _ => 1 | None => 0 end)%Z
  /\ PostStats.totalViews
       (DatabaseStorage.getPostStats inherited monthBefore now'
          (getPostRoute slug sd).2)
     = (PostStats.totalViews
          (DatabaseStorage.getPostStats inherited monthBefore now sd)
        + match getPostBySlug slug sd with Some _ => 1 | None => 0 end)%Z.
Proof.
  intros Hm Hd. split.
  - exact (getPostRoute_sumViews slug sm Hm).
  - exact (getPostRoute_sumViews slug sd Hd).
Qed.

(** *** The distribution of tags *)

Section TagFacts.
Variable inherited : list N -> option (list N).

Lemma tagDistributionOf_allTags (posts : list Post.t)
  (d : gmap (list N) Count) :
  fold_left (countTags inherited) posts d
  = fold_left (countTag inherited) (allTags posts) d.
Proof.
  revert d. induction posts as [|p posts IH]; intros d; [done|].
  unfold allTags. cbn [List.map List.concat fold_left].
  rewrite fold_left_app, IH. unfold countTags.
  by destruct (Post.tags p).
Qed.

(** The entry of [tag] after [n] more counts of it, in an object whose
    properties are numbers. *)
Lemma countTag_plain (tags : list (list N)) (d : gmap (list N) Count)
  (tag : list N) :
  List.Forall (fun t => inherited t = None) tags ->
  (forall t v, d !! t = Some v -> exists n, v = Num n) ->
  fold_left (countTag inherited) tags d !! tag
  = match occurrences tag tags with
    | O => d !! tag
    | S _ =>
        Some (Num (match d !! tag with Some (Num n) => n | _ => 0 end
                   + Z.of_nat (occurrences tag tags)))
    end.
Proof.
  intros Hin. revert d. induction Hin as [|t tags Ht _ IH]; intros d Hd;
    [done|].
  cbn [fold_left]. unfold occurrences in *. cbn [List.filter].
  assert (Hstep :
            countTag inherited d t
            = <[t := Num (match d !! t with Some (Num n) => n | _ => 0 end
                          + 1)]> d).
  { unfold countTag. rewrite Ht. destruct (d !! t) as [v|] eqn:E.
    - destruct (Hd t v E) as [n ->]. cbn. by rewrite orZero_id.
    - done. }
  assert (Hd' : forall t' v, countTag inherited d t !! t' = Some v ->
                             exists n, v = Num n).
  { intros t' v. rewrite Hstep.
    destruct (decide (t = t')) as [->|Hne].
    - rewrite lookup_insert_eq. intros [= <-]. eauto.
    - rewrite lookup_insert_ne by done. apply Hd. }
  rewrite (IH _ Hd'), Hstep.
  destruct (decide (tag = t)) as [->|Hne].
  - rewrite eqs_refl. cbn [length]. rewrite lookup_insert_eq.
    destruct (length (List.filter (eqs t) tags)) eqn:El;
      do 2 f_equal; lia.
  - assert (En : eqs tag t = false)
      by (unfold eqs; by apply bool_decide_eq_false_2).
    rewrite En. by rewrite lookup_insert_ne by done.
Qed.

Lemma tagDistributionOf_plain (posts : list Post.t) (tag : list N) :
  List.Forall (fun t => inherited t = None) (allTags posts) ->
  tagDistributionOf inherited posts !! tag
  = counted (occurrences tag (allTags posts)).
Proof.
  intros H. unfold tagDistributionOf.
  rewrite tagDistributionOf_allTags, (countTag_plain _ ∅ tag H).
  - rewrite lookup_empty. unfold counted.
    destruct (occurrences tag (allTags posts)); [done|]. do 2 f_equal.
  - intros t v. by rewrite lookup_empty.
Qed.

(** X25: as long as no tag is one of the names every object inherits
    ([constructor], [toString], ...), the distribution of the statistics
    gives each tag the number of its occurrences and holds no other key;
    [MemStorage] counts over the published posts, [DatabaseStorage] over
    all rows, drafts included. *)
Theorem X25_tag_distribution_counts_occurrences
  (startOfMonth monthBefore : Z -> Z) (now : Z) (tag : list N)
  (sm : MemStorage.State) (sd : DatabaseStorage.State) :
  List.Forall (fun t => inherited t = None)
    (allTags (List.filter isPublished (MemStorage.allPosts sm))) ->
  List.Forall (fun t => inherited t = None)
    (allTags (DatabaseStorage.posts sd)) ->
  PostStats.tagDistribution
    (MemStorage.getPostStats inherited startOfMonth now sm) !! tag
  = counted (occurrences tag
               (allTags (List.filter isPublished (MemStorage.allPosts sm))))
  /\ PostStats.tagDistribution
       (DatabaseStorage.getPostStats inherited monthBefore now sd) !! tag
     = counted (occurrences tag (allTags (DatabaseStorage.posts sd))).
Proof.
  intros Hm Hd. split; by apply tagDistributionOf_plain.
Qed.

(** The entry of an inherited name stays a text, once it is one. *)
Lemma countTag_text (tags : list (list N)) (d : gmap (list N) Count)
  (tag text : list N) :
  inherited tag = Some text -> tag <> str "__proto__" ->
  (d !! tag = None \/ exists c s, d !! tag = Some (Text (c :: s))) ->
  (In tag tags \/ exists c s, d !! tag = Some (Text (c :: s))) ->
  exists c s, fold_left (countTag inherited) tags d !! tag
              = Some (Text (c :: s)).
Proof.
  intros Hi Hp. revert d. induction tags as [|t tags IH]; intros d Hd Hin.
  { destruct Hin as [[]|H]. exact H. }
  cbn [fold_left]. apply IH.
  - destruct (decide (t = tag)) as [->|Hne].
    + right. unfold countTag.
      destruct Hd as [Hd|(c & s & Hd)]; rewrite Hd.
      * rewrite Hi. unfold eqs. rewrite bool_decide_eq_false_2 by done.
        rewrite lookup_insert_eq.
        destruct text; cbn [app]; eauto.
      * rewrite lookup_insert_eq. cbn [plusOne app]. eauto.
    + assert (E : countTag inherited d t !! tag = d !! tag).
      { unfold countTag. destruct (d !! t).
        - by rewrite lookup_insert_ne.
        - destruct (inherited t); [|by rewrite lookup_insert_ne].
          destruct (eqs t (str "__proto__")); [done|].
          by rewrite lookup_insert_ne. }
      by rewrite E.
  - destruct (decide (t = tag)) as [->|Hne].
    + right. unfold countTag.
      destruct Hd as [Hd|(c & s & Hd)]; rewrite Hd.
      * rewrite Hi. unfold eqs. rewrite bool_decide_eq_false_2 by done.
        rewrite lookup_insert_eq.
        destruct text; cbn [app]; eauto.
      * rewrite lookup_insert_eq. cbn [plusOne app]. eauto.
    + assert (E : countTag inherited d t !! tag = d !! tag).
      { unfold countTag. destruct (d !! t).
        - by rewrite lookup_insert_ne.
        - destruct (inherited t); [|by rewrite lookup_insert_ne].
          destruct (eqs t (str "__proto__")); [done|].
          by rewrite lookup_insert_ne. }
      rewrite E. destruct Hin as [[H|H]|H]; [done|by left|by right].
Qed.

Lemma countTag_proto (tags : list (list N)) (d : gmap (list N) Count)
  (text : list N) :
  inherited (str "__proto__") = Some text ->
  d !! str "__proto__" = None ->
  fold_left (countTag inherited) tags d !! str "__proto__" = None.
Proof.
  intros Hi. revert d. induction tags as [|t tags IH]; intros d Hd; [done|].
  cbn [fold_left]. apply IH.
  destruct (decide (t = str "__proto__")) as [->|Hne].
  - unfold countTag. by rewrite Hd, Hi, eqs_refl.
  - unfold countTag. destruct (d !! t).
    + by rewrite lookup_insert_ne.
    + destruct (inherited t); [|by rewrite lookup_insert_ne].
      destruct (eqs t (str "__proto__")); [done|].
      by rewrite lookup_insert_ne.
Qed.

(** X26: a tag that is one of the names every object inherits is not
    counted. The statistics of [DatabaseStorage] show it with a text in
    place of its number, however often it occurs and whatever the other
    tags, and do not show the tag [__proto__] at all. *)
Theorem X26_inherited_names_are_not_counted
  (monthBefore : Z -> Z) (now : Z) (tag text : list N)
  (sd : DatabaseStorage.State) :
  inherited tag = Some text ->
  In tag (allTags (DatabaseStorage.posts sd)) ->
  if eqs tag (str "__proto__")
  then PostStats.tagDistribution
         (DatabaseStorage.getPostStats inherited monthBefore now sd) !! tag
       = None
  else exists c s,
         PostStats.tagDistribution
           (DatabaseStorage.getPostStats inherited monthBefore now sd) !! tag
         = Some (Text (c :: s)).
Proof.
  intros Hi Hin.
  cbn [DatabaseStorage.getPostStats PostStats.tagDistribution].
  unfold tagDistributionOf. rewrite tagDistributionOf_allTags.
  unfold eqs. destruct (decide (tag = str "__proto__")) as [->|Hne].
  - rewrite bool_decide_eq_true_2 by done.
    by apply (countTag_proto _ _ text).
  - rewrite bool_decide_eq_false_2 by done.
    apply (countTag_text _ _ _ text); [done|done|by left|by left].
Qed.
End TagFacts.

(** ** A post written to the mirror and read back *)

Lemma renderPost_withHeader (post : Post.t) :
  renderPost post = withHeader (headerOf post) (NL :: Post.content post).
Proof.
  unfold renderPost, withHeader, headerOf. cbn [join].
  rewrite <- !app_assoc. reflexivity.
Qed.








Lemma stripPrefix_known (k key v : list N) :
  In k knownKeys -> In key knownKeys ->
  stripPrefix (key ++ [COLON]) (k ++ COLON :: 32%N :: v)
  = if eqs key k then Some (32%N :: v) else None.
Proof.
  unfold knownKeys. cbn [In]. intros Hk Hkey.
  repeat (destruct Hk as [<-|Hk]; [|]); try contradiction;
    repeat (destruct Hkey as [<-|Hkey]; [|]); try contradiction;
    vm_compute; reflexivity.
Qed.

Lemma notBlank_trim (s : list N) : notBlank s = true -> isEmpty (trim s) = false.
Proof.
  unfold notBlank. intros H. apply existsb_exists in H as (c & Hin & Hc).
  apply negb_true_iff in Hc.
  destruct (trim s) as [|d t] eqn:E; [|done]. exfalso.
  unfold trim, trimEnd, trimStart in E.
  assert (Hr : dropWhile isSpace (rev (dropWhile isSpace s)) = [])
    by (by rewrite <- (rev_involutive (dropWhile _ (rev _))), E).
  assert (Hall : forall l, dropWhile isSpace l = [] ->
                           List.Forall (fun c => isSpace c = true) l).
  { intros l. induction l as [|x l IH]; [constructor|]. cbn [dropWhile].
    destruct (isSpace x) eqn:Ex; [|done]. intros H. constructor; auto. }
  assert (Hkeep : forall l, In c l -> In c (dropWhile isSpace l)).
  { intros l. induction l as [|x l IH]; [done|]. cbn [dropWhile].
    destruct (isSpace x) eqn:Ex; [|done].
    intros [->|H]; [congruence|auto]. }
  apply Hall in Hr.
  pose proof (proj1 (List.Forall_forall _ _) Hr c) as Hc'.
  rewrite Hc' in Hc; [done|]. apply in_rev. rewrite rev_involutive.
  by apply Hkeep.
Qed.

Lemma regularLine_keyed (k v : list N) :
  In k knownKeys -> plainField v = true ->
  regularLine (k ++ COLON :: 32%N :: v) = true.
Proof.
  intros Hk Hv. unfold plainField in Hv. apply andb_true_iff in Hv as [H1 H2].
  destruct (knownKeys_plain k Hk) as (_ & _ & Hterm).
  unfold regularLine.
  assert (E1 : forallb notTerminator (k ++ COLON :: 32%N :: v) = true).
  { change (k ++ COLON :: 32%N :: v) with (k ++ [COLON] ++ 32%N :: v).
    rewrite app_assoc, forallb_app, Hterm. exact H1. }
  assert (E2 : eqs (k ++ COLON :: 32%N :: v) (str "---") = false).
  { unfold eqs. apply bool_decide_eq_false_2. unfold knownKeys in Hk.
    cbn [In] in Hk.
    repeat (destruct Hk as [<-|Hk]; [discriminate|]). done. }
  rewrite E1, E2. cbn [negb andb]. apply forallb_forall. intros key Hkey.
  rewrite (stripPrefix_known k key v Hk Hkey).
  destruct (eqs key k); [exact H2|done].
Qed.

Ltac known_key := unfold knownKeys; cbn [In]; tauto.

Lemma headerOf_regular (post : Post.t) :
  forallb plainField (fieldsOf post) = true ->
  forallb regularLine (headerOf post) = true.
Proof.
  unfold fieldsOf, headerOf. cbn [forallb]. rewrite !andb_true_iff.
  intros (H1 & H2 & H3 & H4 & H5 & H6 & _).
  change (str "title: " ++ Post.title post)
    with (str "title" ++ COLON :: 32%N :: Post.title post).
  change (str "excerpt: " ++ showNullable (Post.excerpt post))
    with (str "excerpt" ++ COLON :: 32%N :: showNullable (Post.excerpt post)).
  change (str "readTime: " ++ showNullable (Post.readTime post))
    with (str "readTime" ++ COLON :: 32%N
          :: showNullable (Post.readTime post)).
  change (str "category: " ++ showNullable (Post.category post))
    with (str "category" ++ COLON :: 32%N
          :: showNullable (Post.category post)).
  change (str "tags: " ++ showTags (Post.tags post))
    with (str "tags" ++ COLON :: 32%N :: showTags (Post.tags post)).
  change (str "status: " ++ Post.status post)
    with (str "status" ++ COLON :: 32%N :: Post.status post).
  rewrite !regularLine_keyed by (assumption || known_key). done.
Qed.

Lemma headerValue_keyed (key dflt : list N) (post : Post.t) :
  In key knownKeys ->
  headerValue key dflt (headerOf post)
  = trim (if eqs key (str "title") then Post.title post
          else if eqs key (str "excerpt")
               then showNullable (Post.excerpt post)
          else if eqs key (str "readTime")
               then showNullable (Post.readTime post)
          else if eqs key (str "category")
               then showNullable (Post.category post)
          else if eqs key (str "tags") then showTags (Post.tags post)
          else Post.status post).
Proof.
  intros Hkey. unfold headerValue, headerOf. cbn [firstWith].
  change (str "title: " ++ Post.title post)
    with (str "title" ++ COLON :: 32%N :: Post.title post).
  change (str "excerpt: " ++ showNullable (Post.excerpt post))
    with (str "excerpt" ++ COLON :: 32%N :: showNullable (Post.excerpt post)).
  change (str "readTime: " ++ showNullable (Post.readTime post))
    with (str "readTime" ++ COLON :: 32%N
          :: showNullable (Post.readTime post)).
  change (str "category: " ++ showNullable (Post.category post))
    with (str "category" ++ COLON :: 32%N
          :: showNullable (Post.category post)).
  change (str "tags: " ++ showTags (Post.tags post))
    with (str "tags" ++ COLON :: 32%N :: showTags (Post.tags post)).
  change (str "status: " ++ Post.status post)
    with (str "status" ++ COLON :: 32%N :: Post.status post).
  rewrite !stripPrefix_known by (assumption || known_key).
  unfold knownKeys in Hkey. cbn [In] in Hkey.
  repeat (destruct Hkey as [<-|Hkey]; [reflexivity|]). done.
Qed.

(** X28: a post whose title, excerpt, read time, category, tags and
    status hold no line terminator and are not blank, written to its
    mirror file and read back by the parser of [DatabaseStorage]: each
    value comes back without the white space around it, a null excerpt,
    read time or category as the word [null], the tags as the items
    between commas, and the content behind one more line feed. *)
Theorem X28_database_reads_back_its_mirror_file (post : Post.t) :
  forallb plainField (fieldsOf post) = true ->
  DatabaseStorage.parseMarkdownFile (renderPost post)
  = readBack post (tagItems post).
Proof.
  intros Hf. pose proof (headerOf_regular post Hf) as Hreg.
  assert (Hne : headerOf post <> []) by (unfold headerOf; discriminate).
  rewrite renderPost_withHeader, (DB_parse_header _ _ Hne Hreg).
  unfold fromHeader, readBack, tagItems.
  rewrite !headerValue_keyed by known_key.
  change (eqs (str "title") (str "title")) with true.
  change (eqs (str "excerpt") (str "title")) with false.
  change (eqs (str "excerpt") (str "excerpt")) with true.
  change (eqs (str "readTime") (str "title")) with false.
  change (eqs (str "readTime") (str "excerpt")) with false.
  change (eqs (str "readTime") (str "readTime")) with true.
  change (eqs (str "category") (str "title")) with false.
  change (eqs (str "category") (str "excerpt")) with false.
  change (eqs (str "category") (str "readTime")) with false.
  change (eqs (str "category") (str "category")) with true.
  change (eqs (str "tags") (str "title")) with false.
  change (eqs (str "tags") (str "excerpt")) with false.
  change (eqs (str "tags") (str "readTime")) with false.
  change (eqs (str "tags") (str "category")) with false.
  change (eqs (str "tags") (str "tags")) with true.
  change (eqs (str "status") (str "title")) with false.
  change (eqs (str "status") (str "excerpt")) with false.
  change (eqs (str "status") (str "readTime")) with false.
  change (eqs (str "status") (str "category")) with false.
  change (eqs (str "status") (str "tags")) with false.
  cbv iota.
  unfold fieldsOf in Hf. cbn [forallb] in Hf. rewrite !andb_true_iff in Hf.
  destruct Hf as (_ & _ & _ & _ & H5 & _).
  unfold plainField in H5. apply andb_true_iff in H5 as [_ H5].
  by rewrite (notBlank_trim _ H5).
Qed.

(** ** The further properties at sample inputs *)

Ltac url_safe :=
  unfold urlSafe;
  repeat (constructor; [first [left; reflexivity | right; reflexivity]|]);
  constructor.


Lemma inOrder_memContact : inOrder Sample.memContact.
Proof. apply inOrder_createContact, inOrder_empty. Qed.

Lemma X2_witness :
  urlSafe (str "hello-world")
  /\ endsWith (mirrorName (str "hello-world")) (str ".md") = true
  /\ fileSlug (mirrorName (str "hello-world")) = str "hello-world".
Proof.
  assert (H : urlSafe (str "hello-world")) by url_safe.
  split; [exact H|].
  exact (X2_mirror_name_gives_slug_back (str "hello-world") H).
Defined.

Lemma X6_witness :
  includes (asciiLower (str "Hello")) (asciiLower (str "LO")) = true
  /\ MemStorage.searchPosts asciiLower (str "Hello") Sample.memOne
     = List.filter (mentions asciiLower (asciiLower (str "Hello")))
         (MemStorage.searchPosts asciiLower (str "LO") Sample.memOne).
Proof.
  assert (H : includes (asciiLower (str "Hello")) (asciiLower (str "LO"))
              = true) by (vm_compute; reflexivity).
  split; [exact H|].
  exact (X6_longer_query_narrows_search asciiLower (str "LO") (str "Hello")
           Sample.memOne H).
Defined.

Lemma X7_witness :
  asciiLower [] = []
  /\ MemStorage.searchPosts asciiLower [] Sample.memOne
     = MemStorage.getAllPosts Sample.memOne.
Proof.
  split; [reflexivity|].
  exact (X7_empty_query_finds_the_listing asciiLower Sample.memOne eq_refl).
Defined.


Lemma X9_witness :
  falsy (ContactBody.name Sample.goodMail) = false
  /\ falsy (ContactBody.email Sample.goodMail) = false
  /\ falsy (ContactBody.subject Sample.goodMail) = false
  /\ falsy (ContactBody.message Sample.goodMail) = false
  /\ matches emailRegex (present (ContactBody.email Sample.goodMail)) = true
  /\ ((contactRoute asciiLower Sample.goodMail 5 Sample.memContact).1
      = mkResponse 200 (JSent (str "Message sent successfully")
                           (MemStorage.currentContactId Sample.memContact))
      /\ In (storedContact asciiLower Sample.goodMail
               (MemStorage.currentContactId Sample.memContact) 5)
           (MemStorage.getUnreadContacts
              (contactRoute asciiLower Sample.goodMail 5 Sample.memContact).2))
  /\ ((contactRoute asciiLower Sample.goodMail 5 Sample.dbContact).1
      = mkResponse 200 (JSent (str "Message sent successfully")
                           (DatabaseStorage.contacts_id_seq Sample.dbContact))
      /\ In (storedContact asciiLower Sample.goodMail
               (DatabaseStorage.contacts_id_seq Sample.dbContact) 5)
           (DatabaseStorage.getUnreadContacts
              (contactRoute asciiLower Sample.goodMail 5 Sample.dbContact).2)).
Proof.
  assert (Hm : matches emailRegex (present (ContactBody.email Sample.goodMail))
               = true) by (vm_compute; reflexivity).
  split; [reflexivity|]. split; [reflexivity|]. split; [reflexivity|].
  split; [reflexivity|]. split; [exact Hm|].
  exact (X9_accepted_contact_is_stored_trimmed asciiLower Sample.goodMail 5
           Sample.memContact Sample.dbContact eq_refl eq_refl eq_refl eq_refl
           Hm).
Defined.

Lemma X10_witness :
  handleSubmit Case.form = Mutate Case.form
  /\ Case.form = Case.form
  /\ statusCode
       (contactRoute asciiLower (requestBody Case.form) 5 Sample.dbContact).1
     = 200%Z.
Proof.
  assert (H : handleSubmit Case.form = Mutate Case.form)
    by (vm_compute; reflexivity).
  split; [exact H|].
  exact (X10_submitted_form_is_accepted asciiLower Case.form Case.form 5
           Sample.dbContact H).
Defined.

Lemma X11_witness :
  inOrder Sample.memContact
  /\ (MemStorage.getUnreadContacts
        (MemStorage.markContactAsRead 1 Sample.memContact)
      = List.filter (notUnder 1)
          (MemStorage.getUnreadContacts Sample.memContact)
      /\ MemStorage.getAllContacts
           (MemStorage.markContactAsRead 1 Sample.memContact)
         = List.map (readIf 1) (MemStorage.getAllContacts Sample.memContact))
  /\ (DatabaseStorage.getUnreadContacts
        (DatabaseStorage.markContactAsRead 1 Sample.dbContact)
      ≡ₚ List.filter (notUnder 1)
           (DatabaseStorage.getUnreadContacts Sample.dbContact)
      /\ DatabaseStorage.getAllContacts
           (DatabaseStorage.markContactAsRead 1 Sample.dbContact)
         ≡ₚ List.map (readIf 1)
              (DatabaseStorage.getAllContacts Sample.dbContact)).
Proof.
  split; [exact inOrder_memContact|].
  exact (X11_marked_contact_leaves_the_unread 1 Sample.memContact
           Sample.dbContact inOrder_memContact).
Defined.

Lemma X12_witness :
  inOrder Sample.memContact /\ reportsRows Case.countingDriver
  /\ contactDeleted Case.countingDriver 1 Sample.memContact
  /\ contactDeleted Case.countingDriver 1 Sample.dbContact.
Proof.
  assert (Hr : reportsRows Case.countingDriver) by (intros n; reflexivity).
  split; [exact inOrder_memContact|]. split; [exact Hr|].
  exact (X12_delete_contact_outcome Case.countingDriver 1 Sample.memContact
           Sample.dbContact inOrder_memContact Hr).
Defined.

Lemma X29_witness :
  reportsNothing Case.silentDriver
  /\ (deleteContactRoute Case.silentDriver 1 Sample.dbContact).1
     = mkResponse 404 (JError (str "Contact not found"))
  /\ findContact 1 (deleteContactRoute Case.silentDriver 1 Sample.dbContact).2
     = None
  /\ forall k, k <> 1%Z ->
               findContact k
                 (deleteContactRoute Case.silentDriver 1 Sample.dbContact).2
               = findContact k Sample.dbContact.
Proof.
  assert (Hn : reportsNothing Case.silentDriver) by (intros n; reflexivity).
  split; [exact Hn|].
  exact (X29_delete_contact_without_row_count Case.silentDriver 1
           Sample.dbContact Hn).
Defined.

Lemma found_memOne : findPost 1 Sample.memOne = Some Sample.helloPost.
Proof. vm_compute. reflexivity. Qed.

Lemma found_dbOne : findPost 1 Sample.dbOne = Some Sample.helloPost.
Proof. vm_compute. reflexivity. Qed.

Lemma X14_witness :
  Case.parse Case.rename 1 = Some Case.rename
  /\ PartialPost.isEmpty Case.rename = false
  /\ findPost 1 Sample.memOne = Some Sample.helloPost
  /\ findPost 1 Sample.dbOne = Some Sample.helloPost
  /\ updatedTo 1 Case.rename 9 Sample.helloPost Sample.memOne
       (updatePostRoute Case.parse Case.rename 1 9 Sample.memOne)
  /\ updatedTo 1 Case.rename (Post.updatedAt Sample.helloPost)
       Sample.helloPost Sample.dbOne
       (updatePostRoute Case.parse Case.rename 1 9 Sample.dbOne).
Proof.
  split; [reflexivity|]. split; [reflexivity|].
  split; [exact found_memOne|]. split; [exact found_dbOne|].
  exact (X14_update_replaces_given_columns Case.parse Case.rename 1
           Case.rename 9 Sample.helloPost Sample.helloPost Sample.memOne
           Sample.dbOne eq_refl eq_refl found_memOne found_dbOne).
Defined.

Lemma absent_memOne : findPost 7 Sample.memOne = None.
Proof. vm_compute. reflexivity. Qed.

Lemma absent_dbOne : findPost 7 Sample.dbOne = None.
Proof. vm_compute. reflexivity. Qed.

Lemma X15_witness :
  Case.parse Case.rename 7 = Some Case.rename
  /\ PartialPost.isEmpty Case.rename = false
  /\ findPost 7 Sample.memOne = None
  /\ findPost 7 Sample.dbOne = None
  /\ updatePostRoute Case.parse Case.rename 7 9 Sample.memOne
     = (mkResponse 404 (JError (str "Post not found")), Sample.memOne)
  /\ updatePostRoute Case.parse Case.rename 7 9 Sample.dbOne
     = (mkResponse 404 (JError (str "Post not found")), Sample.dbOne).
Proof.
  split; [reflexivity|]. split; [reflexivity|].
  split; [exact absent_memOne|]. split; [exact absent_dbOne|].
  exact (X15_update_of_absent_post Case.parse Case.rename 7 Case.rename 9
           Sample.memOne Sample.dbOne eq_refl eq_refl absent_memOne
           absent_dbOne).
Defined.

Lemma renamed_differs : str "renamed" <> Post.slug Sample.helloPost.
Proof. intros H. vm_compute in H. discriminate H. Qed.

Lemma renamed_other_file_mem :
  otherFile (str "renamed") (Post.slug Sample.helloPost) Sample.memOne.
Proof. intros H. vm_compute in H. discriminate H. Qed.

Lemma renamed_other_file_db :
  otherFile (str "renamed") (Post.slug Sample.helloPost) Sample.dbOne.
Proof. intros H. vm_compute in H. discriminate H. Qed.

Lemma X16_witness :
  Case.parse Case.rename 1 = Some Case.rename
  /\ PartialPost.slug Case.rename = Some (str "renamed")
  /\ findPost 1 Sample.memOne = Some Sample.helloPost
  /\ findPost 1 Sample.dbOne = Some Sample.helloPost
  /\ otherFile (str "renamed") (Post.slug Sample.helloPost) Sample.memOne
  /\ otherFile (str "renamed") (Post.slug Sample.helloPost) Sample.dbOne
  /\ renamedTo 1 (Post.slug Sample.helloPost) (str "renamed") Sample.memOne
       (updatePostRoute Case.parse Case.rename 1 9 Sample.memOne)
  /\ renamedTo 1 (Post.slug Sample.helloPost) (str "renamed") Sample.dbOne
       (updatePostRoute Case.parse Case.rename 1 9 Sample.dbOne).
Proof.
  split; [reflexivity|]. split; [reflexivity|].
  split; [exact found_memOne|]. split; [exact found_dbOne|].
  split; [exact renamed_other_file_mem|].
  split; [exact renamed_other_file_db|].
  exact (X16_rename_leaves_old_mirror_file Case.parse Case.rename 1
           Case.rename 9 (str "renamed") Sample.helloPost Sample.helloPost
           Sample.memOne Sample.dbOne eq_refl eq_refl found_memOne
           found_dbOne renamed_other_file_mem renamed_other_file_db).
Defined.

Lemma found_memTwo_1 : findPost 1 Case.memTwo = Some Sample.helloPost.
Proof. vm_compute. reflexivity. Qed.

Lemma found_memTwo_2 : findPost 2 Case.memTwo = Some Case.newsPost.
Proof. vm_compute. reflexivity. Qed.

Lemma found_dbTwo_1 : findPost 1 Case.dbTwo = Some Sample.helloPost.
Proof. vm_compute. reflexivity. Qed.

Lemma found_dbTwo_2 : findPost 2 Case.dbTwo = Some Case.newsPost.
Proof. vm_compute. reflexivity. Qed.

Lemma X17_witness :
  Case.parse Case.toNews 1 = Some Case.toNews
  /\ 2%Z <> 1%Z
  /\ findPost 1 Case.memTwo = Some Sample.helloPost
  /\ findPost 2 Case.memTwo = Some Case.newsPost
  /\ PartialPost.slug Case.toNews = Some (Post.slug Case.newsPost)
  /\ findPost 1 Case.dbTwo = Some Sample.helloPost
  /\ findPost 2 Case.dbTwo = Some Case.newsPost
  /\ Post.slug Case.newsPost = Post.slug Case.newsPost
  /\ (sharedSlug 1 2
        (updatePostRoute Case.parse Case.toNews 1 9 Case.memTwo).2
      /\ statusCode (updatePostRoute Case.parse Case.toNews 1 9 Case.memTwo).1
         = if savable (Post.slug Case.newsPost) Case.memTwo
           then 200%Z else 500%Z)
  /\ (sharedSlug 1 2
        (updatePostRoute Case.parse Case.toNews 1 9 Case.dbTwo).2
      /\ statusCode (updatePostRoute Case.parse Case.toNews 1 9 Case.dbTwo).1
         = if savable (Post.slug Case.newsPost) Case.dbTwo
           then 200%Z else 500%Z).
Proof.
  assert (Hne : 2%Z <> 1%Z) by discriminate.
  split; [reflexivity|]. split; [exact Hne|].
  split; [exact found_memTwo_1|]. split; [exact found_memTwo_2|].
  split; [reflexivity|].
  split; [exact found_dbTwo_1|]. split; [exact found_dbTwo_2|].
  split; [reflexivity|].
  exact (X17_update_can_duplicate_a_slug Case.parse Case.toNews 1 2
           Case.toNews 9 Sample.helloPost Case.newsPost Sample.helloPost
           Case.newsPost Case.memTwo Case.dbTwo eq_refl Hne found_memTwo_1
           found_memTwo_2 eq_refl found_dbTwo_1 found_dbTwo_2 eq_refl).
Defined.

Lemma readable_dir :
  readableIn (Path.join Case.cwd (str "posts")) Case.dir Case.listing.
Proof.
  unfold readableIn, Case.listing.
  repeat (constructor; [eexists; vm_compute; reflexivity|]). constructor.
Qed.

Lemma X20_witness :
  readableIn (Path.join Case.cwd (str "posts")) Case.dir Case.listing
  /\ MemStorage.allPosts
       (MemStorage.new Case.cwd Case.dir Case.listing Case.clock)
     = bootPosts (Path.join Case.cwd (str "posts")) Case.dir Case.clock 1
         (markdownFiles Case.listing)
  /\ MemStorage.currentPostId
       (MemStorage.new Case.cwd Case.dir Case.listing Case.clock)
     = (1 + Z.of_nat (length (markdownFiles Case.listing)))%Z
  /\ inOrder (MemStorage.new Case.cwd Case.dir Case.listing Case.clock).
Proof.
  split; [exact readable_dir|].
  exact (X20_mem_storage_starts_from_the_files Case.cwd Case.dir Case.listing
           Case.clock readable_dir).
Defined.


Lemma hello_url_safe : urlSafe (Post.slug Sample.helloPost).
Proof. change (Post.slug Sample.helloPost) with (str "hello"). url_safe. Qed.

Lemma hello_alone :
  List.Forall
    (fun q => Post.slug q = Post.slug Sample.helloPost -> Post.id q = 1%Z)
    (allPosts Sample.dbOne).
Proof. repeat constructor. Qed.

Lemma hello_file_listed :
  In (mirrorName (Post.slug Sample.helloPost)) [str "hello.md"].
Proof. by left. Qed.

Lemma hello_file_readable :
  readableIn (postsDir Sample.dbOne) (mirror Sample.dbOne) [str "hello.md"].
Proof.
  unfold readableIn.
  repeat (constructor; [eexists; vm_compute; reflexivity|]). constructor.
Qed.

Lemma X22_witness :
  Case.parse Case.rename 1 = Some Case.rename
  /\ PartialPost.slug Case.rename = Some (str "renamed")
  /\ findPost 1 Sample.dbOne = Some Sample.helloPost
  /\ str "renamed" <> Post.slug Sample.helloPost
  /\ urlSafe (Post.slug Sample.helloPost)
  /\ List.Forall
       (fun q => Post.slug q = Post.slug Sample.helloPost -> Post.id q = 1%Z)
       (allPosts Sample.dbOne)
  /\ readableIn (postsDir Sample.dbOne) (mirror Sample.dbOne)
       [str "hello.md"]
  /\ In (mirrorName (Post.slug Sample.helloPost)) [str "hello.md"]
  /\ getPostBySlug (Post.slug Sample.helloPost)
       (updatePostRoute Case.parse Case.rename 1 9 Sample.dbOne).2
     = None
  /\ is_Some (getPostBySlug (Post.slug Sample.helloPost)
                (DatabaseStorage.loadPostsFromFiles [str "hello.md"]
                   Case.clock
                   (updatePostRoute Case.parse Case.rename 1 9
                      Sample.dbOne).2)).
Proof.
  split; [reflexivity|]. split; [reflexivity|]. split; [exact found_dbOne|].
  split; [exact renamed_differs|]. split; [exact hello_url_safe|].
  split; [exact hello_alone|]. split; [exact hello_file_readable|].
  split; [exact hello_file_listed|].
  exact (X22_renamed_post_returns_at_next_start Case.parse Case.rename 1
           Case.rename 9 (str "renamed") Sample.helloPost Sample.dbOne
           [str "hello.md"] Case.clock eq_refl eq_refl found_dbOne
           renamed_differs hello_url_safe hello_alone hello_file_readable
           hello_file_listed).
Defined.

Lemma unique_memOne : uniqueSlugs Sample.memOne.
Proof.
  unfold uniqueSlugs. change (allPosts Sample.memOne) with [Sample.helloPost].
  repeat constructor. by intros [].
Qed.

Lemma unique_dbOne : uniqueSlugs Sample.dbOne.
Proof.
  unfold uniqueSlugs. change (allPosts Sample.dbOne) with [Sample.helloPost].
  repeat constructor. by intros [].
Qed.

Lemma X24_witness :
  uniqueSlugs Sample.memOne /\ uniqueSlugs Sample.dbOne
  /\ PostStats.totalViews
       (MemStorage.getPostStats Case.inherited id 40
          (getPostRoute (str "hello") Sample.memOne).2)
     = (PostStats.totalViews
          (MemStorage.getPostStats Case.inherited id 30 Sample.memOne)
        + match getPostBySlug (str "hello") Sample.memOne with
          | Some _ => 1
          | None => 0
          end)%Z
  /\ PostStats.totalViews
       (DatabaseStorage.getPostStats Case.inherited id 40
          (getPostRoute (str "hello") Sample.dbOne).2)
     = (PostStats.totalViews
          (DatabaseStorage.getPostStats Case.inherited id 30 Sample.dbOne)
        + match getPostBySlug (str "hello") Sample.dbOne with
          | Some _ => 1
          | None => 0
          end)%Z.
Proof.
  split; [exact unique_memOne|]. split; [exact unique_dbOne|].
  exact (X24_fetch_adds_one_to_total_views Case.inherited id id 30 40
           (str "hello") Sample.memOne Sample.dbOne unique_memOne
           unique_dbOne).
Defined.

Lemma plain_tags_memTwo :
  List.Forall (fun t => Case.inherited t = None)
    (allTags (List.filter isPublished (MemStorage.allPosts Case.memTwo))).
Proof. vm_compute. repeat constructor. Qed.

Lemma plain_tags_dbTwo :
  List.Forall (fun t => Case.inherited t = None)
    (allTags (DatabaseStorage.posts Case.dbTwo)).
Proof.
  change (allTags (DatabaseStorage.posts Case.dbTwo)) with [str "a"; str "b"].
  repeat constructor.
Qed.

Lemma X25_witness :
  List.Forall (fun t => Case.inherited t = None)
    (allTags (List.filter isPublished (MemStorage.allPosts Case.memTwo)))
  /\ List.Forall (fun t => Case.inherited t = None)
       (allTags (DatabaseStorage.posts Case.dbTwo))
  /\ PostStats.tagDistribution
       (MemStorage.getPostStats Case.inherited id 30 Case.memTwo) !! str "a"
     = counted (occurrences (str "a")
                  (allTags (List.filter isPublished
                              (MemStorage.allPosts Case.memTwo))))
  /\ PostStats.tagDistribution
       (DatabaseStorage.getPostStats Case.inherited id 30 Case.dbTwo)
       !! str "a"
     = counted (occurrences (str "a")
                  (allTags (DatabaseStorage.posts Case.dbTwo))).
Proof.
  split; [exact plain_tags_memTwo|]. split; [exact plain_tags_dbTwo|].
  exact (X25_tag_distribution_counts_occurrences Case.inherited id id 30
           (str "a") Case.memTwo Case.dbTwo plain_tags_memTwo
           plain_tags_dbTwo).
Defined.

Lemma constructor_tagged :
  In (str "constructor") (allTags (DatabaseStorage.posts Case.dbOdd)).
Proof.
  change (allTags (DatabaseStorage.posts Case.dbOdd))
    with [str "a"; str "b"; str "constructor"; str "a"].
  right. right. by left.
Qed.

Lemma X26_witness :
  Case.inherited (str "constructor")
  = Some (str "function Object() { [native code] }")
  /\ In (str "constructor") (allTags (DatabaseStorage.posts Case.dbOdd))
  /\ if eqs (str "constructor") (str "__proto__")
     then PostStats.tagDistribution
            (DatabaseStorage.getPostStats Case.inherited id 30 Case.dbOdd)
            !! str "constructor"
          = None
     else exists c s,
            PostStats.tagDistribution
              (DatabaseStorage.getPostStats Case.inherited id 30 Case.dbOdd)
              !! str "constructor"
            = Some (Text (c :: s)).
Proof.
  assert (Hi : Case.inherited (str "constructor")
               = Some (str "function Object() { [native code] }"))
    by (vm_compute; reflexivity).
  split; [exact Hi|]. split; [exact constructor_tagged|].
  exact (X26_inherited_names_are_not_counted Case.inherited id 30
           (str "constructor") (str "function Object() { [native code] }")
           Case.dbOdd Hi constructor_tagged).
Defined.


Lemma X28_witness :
  forallb plainField (fieldsOf Case.newsPost) = true
  /\ DatabaseStorage.parseMarkdownFile (renderPost Case.newsPost)
     = readBack Case.newsPost (tagItems Case.newsPost).
Proof.
  assert (H : forallb plainField (fieldsOf Case.newsPost) = true)
    by (vm_compute; reflexivity).
  split; [exact H|].
  exact (X28_database_reads_back_its_mirror_file Case.newsPost H).
Defined.

(** ** The further handlers and methods on the sample states *)

Example update_without_columns_is_refused :
  updatePostRoute Case.parse
    (PartialPost.mk None None None None None None None None) 1 9 Sample.dbOne
  = (mkResponse 500 (JError (str "Failed to update post")), Sample.dbOne).
Proof. reflexivity. Qed.

Example client_refuses_blank_name :
  handleSubmit Case.blankName = Toast (str "Please fill in all fields").
Proof. vm_compute. reflexivity. Qed.

Example server_stores_blank_name :
  statusCode
    (contactRoute asciiLower (requestBody Case.blankName) 5 Sample.dbEmpty).1
  = 200%Z
  /\ Contact.name <$> findContact 1
       (contactRoute asciiLower (requestBody Case.blankName) 5
          Sample.dbEmpty).2
     = Some [].
Proof. vm_compute. split; reflexivity. Qed.

Example file_slug_drops_first_occurrence :
  fileSlug (str "x.mdx.md") = str "xx.md".
Proof. vm_compute. reflexivity. Qed.

Example constructor_tag_in_the_statistics :
  PostStats.tagDistribution
    (DatabaseStorage.getPostStats Case.inherited id 30 Case.dbOdd)
    !! str "constructor"
  = Some (Text (str "function Object() { [native code] }1")).
Proof. vm_compute. reflexivity. Qed.

Example hello_read_back_by_mem :
  Parsed.excerpt (MemStorage.parseMarkdownFile (renderPost Sample.helloPost))
  = str "null"
  /\ Parsed.markdown
       (MemStorage.parseMarkdownFile (renderPost Sample.helloPost))
     = NL :: str "Some text".
Proof. vm_compute. split; reflexivity. Qed.

Example draft_in_the_database_listing :
  DatabaseStorage.getAllPosts Case.dbTwo = [Case.newsPost; Sample.helloPost]
  /\ MemStorage.getAllPosts Case.memTwo = [Sample.helloPost].
Proof. vm_compute. split; reflexivity. Qed.

(** ** Slugs that name no file, or the file of another slug *)

(** A post created under a slug with a slash is stored, and the request
    is answered with 500: the directory [posts/a] of the mirror file does
    not exist. *)
Example create_with_a_slash_in_the_slug :
  let outm := createPostRoute asciiLower Some Case.slashed 5 Sample.memOne in
  let outd := createPostRoute asciiLower Some Case.slashed 5 Sample.dbOne in
  statusCode outm.1 = 500%Z /\ statusCode outd.1 = 500%Z /\
  Post.slug <$> allPosts outm.2 = [str "hello"; str "a/b"] /\
  Post.slug <$> allPosts outd.2 = [str "hello"; str "a/b"] /\
  mirror outm.2 = mirror Sample.memOne /\
  mirror outd.2 = mirror Sample.dbOne.
Proof. cbv zeta. repeat split; vm_compute; reflexivity. Qed.

(** The slug of a title of 260 letters gives a file name of 263 bytes. *)
Example create_with_a_long_title :
  let out := createPostRoute asciiLower Some Case.longTitle 5 Sample.dbOne in
  statusCode out.1 = 500%Z /\
  length <$> (Post.slug <$> allPosts out.2) = [5; 260].
Proof. cbv zeta. split; vm_compute; reflexivity. Qed.

(** An update to a slug with a slash changes the row and is answered
    with 500. *)
Example update_to_a_slug_with_a_slash :
  let outm := updatePostRoute Case.parse Case.noFile 1 9 Sample.memOne in
  let outd := updatePostRoute Case.parse Case.noFile 1 9 Sample.dbOne in
  statusCode outm.1 = 500%Z /\ statusCode outd.1 = 500%Z /\
  Post.slug <$> allPosts outm.2 = [str "a/b"] /\
  Post.slug <$> allPosts outd.2 = [str "a/b"] /\
  mirror outm.2 = mirror Sample.memOne /\
  mirror outd.2 = mirror Sample.dbOne.
Proof. cbv zeta. repeat split; vm_compute; reflexivity. Qed.

(** The slugs [hello] and [./hello] name one file: an update from the
    one to the other writes over the mirror file of the old slug. *)
Example update_to_a_slug_of_the_same_file :
  let out := updatePostRoute Case.parse Case.sameFile 1 9 Sample.dbOne in
  mirrorPath Sample.postsDir (str "./hello")
  = mirrorPath Sample.postsDir (str "hello") /\
  statusCode out.1 = 200%Z /\
  Post.slug <$> allPosts out.2 = [str "./hello"] /\
  mirrorFile (str "hello") Sample.dbOne
  = Some (toWellFormed (renderPost Sample.helloPost)) /\
  mirrorFile (str "hello") out.2
  = Some (toWellFormed
            (renderPost (applyUpdate Sample.helloPost Case.sameFile))).
Proof. cbv zeta. repeat split; vm_compute; reflexivity. Qed.
